(** * copylan: copying static routes and VLAN interfaces between two IONs

    A shallow embedding of [src/copylan.py] and the properties of its
    translation tables, record sanitisation, foreign-key rewriting and
    create-or-update loops.

    Python values are embedded as JSON-like terms, Python dicts as finite
    maps, and the script's effects (controller calls, prints, exceptions,
    [sys.exit]) as a state-and-exception monad over an abstract controller. *)

From Stdlib Require Import ZArith String List Bool Lia.
From stdpp Require Import base option countable gmap strings list fin_maps.

Local Open Scope string_scope.
Local Open Scope Z_scope.
Local Open Scope list_scope.

(* ===================================================================== *)
(** ** Python values *)
(* ===================================================================== *)

(** What [json] decoding of a controller reply gives: [None], booleans,
    integers, strings, lists and string-keyed dicts. *)
Local Unset Elimination Schemes.
Inductive value : Type :=
| VNone
| VBool (b : bool)
| VInt (n : Z)
| VStr (s : string)
| VList (l : list value)
| VDict (d : gmap string value).
Local Set Elimination Schemes.

(** A JSON object, that is a Python [dict] with string keys. *)
Abbreviation record := (gmap string value).

(** Python truthiness, as tested by [if x:]. *)
Definition truthy (v : value) : bool :=
  match v with
  | VNone => false
  | VBool b => b
  | VInt n => negb (n =? 0)
  | VStr s => negb (String.eqb s "")
  | VList l => match l with [] => false | _ => true end
  | VDict d => negb (Nat.eqb (size d) 0)
  end.

(** [x is not None]. *)
Definition is_not_None (v : value) : bool :=
  match v with VNone => false | _ => true end.

(** [x == "literal"]: only the string itself compares equal to a string. *)
Definition eq_str (v : value) (s : string) : bool :=
  match v with VStr s' => String.eqb s' s | _ => false end.

(** Keys of the script's own dicts. Python hashes [None], numbers and strings;
    [True] and [False] are the keys [1] and [0]; lists and dicts are
    unhashable. *)
Inductive pykey : Type :=
| KNone
| KInt (n : Z)
| KStr (s : string).

Global Instance pykey_eq_dec : EqDecision pykey.
Proof. solve_decision. Defined.

Definition pykey_enc (k : pykey) : option (Z + string) :=
  match k with
  | KNone => None
  | KInt n => Some (inl n)
  | KStr s => Some (inr s)
  end.

Definition pykey_dec (x : option (Z + string)) : pykey :=
  match x with
  | None => KNone
  | Some (inl n) => KInt n
  | Some (inr s) => KStr s
  end.

Global Instance pykey_countable : Countable pykey.
Proof.
  apply (inj_countable' pykey_enc pykey_dec).
  intros []; reflexivity.
Defined.

(** The key a value hashes to; [None] for the unhashable ones. *)
Definition to_key (v : value) : option pykey :=
  match v with
  | VNone => Some KNone
  | VBool b => Some (KInt (if b then 1 else 0))
  | VInt n => Some (KInt n)
  | VStr s => Some (KStr s)
  | VList _ => None
  | VDict _ => None
  end.

(* ===================================================================== *)
(** ** Exceptions and pure operations that may raise *)
(* ===================================================================== *)

Inductive exn : Type := KeyError | TypeError | AttributeError.

(** How a computation ends: normally, with an exception that nothing in the
    script catches, or in [sys.exit(code)]. *)
Inductive outcome (A : Type) : Type :=
| Normal (a : A)
| Raised (e : exn)
| SysExit (code : Z).
Arguments Normal {A} a.
Arguments Raised {A} e.
Arguments SysExit {A} code.

Global Instance outcome_ret : MRet outcome := fun A a => Normal a.
Global Instance outcome_bind : MBind outcome := fun A B f m =>
  match m with
  | Normal a => f a
  | Raised e => Raised e
  | SysExit c => SysExit c
  end.

(** [v[k]] with a string literal [k]: [KeyError] on a dict without the key,
    [TypeError] on anything that is not a dict. *)
Definition getitem (v : value) (k : string) : outcome value :=
  match v with
  | VDict d => match d !! k with Some x => Normal x | None => Raised KeyError end
  | _ => Raised TypeError
  end.

(** [d[k]] on a value known to be a dict. *)
Definition rec_getitem (d : record) (k : string) : outcome value :=
  match d !! k with Some x => Normal x | None => Raised KeyError end.

(** [d.get(k)] on a dict: [None] when the key is absent. *)
Definition rec_get (d : record) (k : string) : value := default VNone (d !! k).

(** [v.get(k)]: only dicts have a [get] method. *)
Definition py_get (v : value) (k : string) : outcome value :=
  match v with
  | VDict d => Normal (rec_get d k)
  | _ => Raised AttributeError
  end.

(** Hashing a value for use as a dict key. *)
Definition hash (v : value) : outcome pykey :=
  match to_key v with Some k => Normal k | None => Raised TypeError end.

(** [t.get(v)] on one of the script's tables. *)
Definition tbl_get (t : gmap pykey value) (v : value) : outcome value :=
  k ← hash v; Normal (default VNone (t !! k)).

(** [t[v]] on one of the script's tables. *)
Definition tbl_getitem {A} (t : gmap pykey A) (v : value) : outcome A :=
  k ← hash v; match t !! k with Some x => Normal x | None => Raised KeyError end.

(** [v in t]. *)
Definition tbl_mem {A} (t : gmap pykey A) (v : value) : outcome bool :=
  k ← hash v; Normal (match t !! k with Some _ => true | None => false end).

(** A left fold whose step may raise: the [for] loops over pure updates. *)
Fixpoint foldM {A B} (f : A → B → outcome A) (a : A) (l : list B) : outcome A :=
  match l with
  | [] => Normal a
  | b :: l' => a' ← f a b; foldM f a' l'
  end.

(* ===================================================================== *)
(** ** The controller, the console and the script's monad *)
(* ===================================================================== *)

(** The calls the script makes on the [prisma_sase] session. Arguments are in
    the order the SDK names them. *)
Inductive call : Type :=
| LoginSecret
| GetElements
| GetVrfcontexts
| GetInterfaces (site_id element_id : value)
| GetStaticroutes (site_id element_id : value)
| PutStaticroutes (site_id element_id staticroute_id : value) (data : record)
| PostStaticroutes (site_id element_id : value) (data : record)
| PutInterfaces (site_id element_id interface_id : value) (data : record)
| PostInterfaces (site_id element_id : value) (data : record).

(** A reply: [cgx_status], and [cgx_content.get("items", [])] as the list the
    controller sends. For [LoginSecret] the status says whether the session
    got a [tenant_id]. *)
Record response : Type := mkResponse {
  cgx_status : bool;
  items : list value
}.

(** One constructor per [print] of the script, with the values it formats. *)
Inductive message : Type :=
| ErrElements
| ErrVrfs
| ErrElementInterfaces (elem_name elem_id : value)
| WarnNoSiteId (elem_name elem_id : value)
| ErrSameElement
| ErrLogin
| MsgBuilding
| ErrSrcNotFound (src_element : value)
| ErrDstNotFound (dst_element : value)
| MsgCopying (src_element src_eid dst_element dst_eid : value)
| MsgRoutesHeader
| MsgSrcRoutes (n : nat)
| ErrSrcRoutes
| MsgDstRoutes (n : nat)
| ErrDstRoutes
| WarnVrfNotGlobal (vrf_name source_vrf_context_id prefix : value)
| WarnVrfNoName (source_vrf_context_id prefix : value)
| WarnNoDstInterface (interface_name source_id dst_element prefix : value)
| WarnNoSrcInterfaceName (source_id src_element prefix : value)
| WarnRouteNoEtag (name route_id : value)
| MsgUpdateRoute (prefix : value)
| OkRouteUpdated (prefix : value)
| ErrRouteUpdate (prefix : value)
| MsgCreateRoute (prefix : value)
| OkRouteCreated (prefix : value)
| ErrRouteCreate (prefix : value)
| MsgInterfacesHeader
| MsgSrcInterfaces (n : nat)
| ErrSrcInterfaces
| MsgDstInterfaces (n : nat)
| ErrDstInterfaces
| WarnInterfaceNoEtag (name : value)
| MsgUpdateInterface (name type : value)
| OkInterfaceUpdated (name : value)
| ErrInterfaceUpdate (name : value)
| MsgCreateInterface (name type : value)
| OkInterfaceCreated (name : value)
| ErrInterfaceCreate (name : value).

(** What an observer of a run sees, in order. *)
Inductive event : Type :=
| Called (c : call)
| Printed (m : message)
| Detailed (r : response).

(** The script's module-level dicts. [elem_id_name] is the one the script
    iterates over, so it keeps Python's insertion order: each entry holds the
    hashed key, the key object first inserted and the current value. *)
Record globals : Type := mkGlobals {
  elem_id_name : list (pykey * (value * value));
  elem_name_id : gmap pykey value;
  elemid_siteid : gmap pykey value;
  elem_id_model : gmap pykey value;
  element_vrfs_by_id : gmap pykey (gmap pykey value);
  element_vrfs_by_name : gmap pykey (gmap pykey value);
  element_interfaces_by_id : gmap pykey (gmap pykey value);
  element_interfaces_by_name : gmap pykey (gmap pykey value);
  global_id_vfr : gmap pykey value;
  global_name_vfr : gmap pykey value
}.

(** All of them are [{}] when the module is loaded. *)
Definition initial_globals : globals :=
  mkGlobals [] ∅ ∅ ∅ ∅ ∅ ∅ ∅ ∅ ∅.

(** [d[k] = v] on an insertion-ordered dict: an existing key keeps its place
    and its key object. *)
Fixpoint odict_set (k : pykey) (kobj v : value)
    (d : list (pykey * (value * value))) : list (pykey * (value * value)) :=
  match d with
  | [] => [(k, (kobj, v))]
  | (k', (o, v')) :: d' =>
      if decide (k = k') then (k', (o, v)) :: d'
      else (k', (o, v')) :: odict_set k kobj v d'
  end.

(** [d.items()]. *)
Definition odict_items (d : list (pykey * (value * value))) : list (value * value) :=
  map snd d.

(** [BASE_DELETE_ATTRS] *)
Definition BASE_DELETE_ATTRS : list string :=
  ["_created_on_utc"; "_updated_on_utc"; "_content_length"; "_status_code";
   "_request_id"; "_debug"; "_info"; "_warning"; "_error"]%string.

(** [for attr in BASE_DELETE_ATTRS: payload.pop(attr, None)] on a dict. *)
Definition sanitize (payload : record) : record :=
  foldl (fun p attr => delete attr p) payload BASE_DELETE_ATTRS.

(** The same loop on the deep copy of whatever the listing held: [pop] with
    a default exists only on dicts. *)
Definition sanitize_copy (v : value) : outcome record :=
  match v with
  | VDict d => Normal (sanitize d)
  | VList _ => Raised TypeError
  | _ => Raised AttributeError
  end.

Section Script.

(** The controller is any deterministic machine: a state and the way it
    answers a call. *)
Context {Ctl : Type}.
Variable api : Ctl → call → Ctl * response.

Record world : Type := mkWorld {
  ctl : Ctl;
  trace : list event
}.

(** Computations of the script: they change the world and end in an outcome. *)
Definition M (A : Type) : Type := world → world * outcome A.

Global Instance M_ret : MRet M := fun A a w => (w, Normal a).
Global Instance M_bind : MBind M := fun A B f m w =>
  match m w with
  | (w', Normal a) => f a w'
  | (w', Raised e) => (w', Raised e)
  | (w', SysExit c) => (w', SysExit c)
  end.

Definition lift {A} (o : outcome A) : M A := fun w => (w, o).

Definition emit (e : event) : M unit :=
  fun w => (mkWorld (ctl w) (trace w ++ [e]), Normal tt).

Definition print (m : message) : M unit := emit (Printed m).

(** [prisma_sase.jd_detailed(resp)] *)
Definition jd_detailed (r : response) : M unit := emit (Detailed r).

(** [sys.exit(code)] *)
Definition sys_exit {A} (code : Z) : M A := lift (SysExit code).

(** A call on the session: the controller moves and answers. *)
Definition request (c : call) : M response :=
  fun w => let '(s, r) := api (ctl w) c in
           (mkWorld s (trace w ++ [Called c]), Normal r).

(** [for x in l: a = body(a, x)] *)
Fixpoint for_fold {A B} (body : A → B → M A) (a : A) (l : list B) : M A :=
  match l with
  | [] => mret a
  | b :: l' => a' ← body a b; for_fold body a' l'
  end.

(** [for x in l: body(x)] *)
Fixpoint for_each {B} (body : B → M unit) (l : list B) : M unit :=
  match l with
  | [] => mret tt
  | b :: l' => body b;; for_each body l'
  end.

(** [for x in l: x = body(x)], the elements being updated in place. *)
Fixpoint for_update {B} (body : B → M B) (l : list B) : M (list B) :=
  match l with
  | [] => mret []
  | b :: l' => b' ← body b; r ← for_update body l'; mret (b' :: r)
  end.

(* --------------------------------------------------------------------- *)
(** *** [create_dicts] *)
(* --------------------------------------------------------------------- *)

(** Body of [for elem in elemlist] (lines 59-67). The right-hand side of an
    assignment is evaluated before the subscript of its target. *)
Definition add_element (g : globals) (elem : value) : outcome globals :=
  name ← getitem elem "name";
  id ← getitem elem "id";
  k ← hash id;
  kn ← hash name;
  site ← getitem elem "site_id";
  model ← getitem elem "model_name";
  Normal {|
    elem_id_name := odict_set k id name (elem_id_name g);
    elem_name_id := <[kn := id]> (elem_name_id g);
    elemid_siteid := <[k := site]> (elemid_siteid g);
    elem_id_model := <[k := model]> (elem_id_model g);
    element_vrfs_by_id := <[k := ∅]> (element_vrfs_by_id g);
    element_vrfs_by_name := <[k := ∅]> (element_vrfs_by_name g);
    element_interfaces_by_id := <[k := ∅]> (element_interfaces_by_id g);
    element_interfaces_by_name := <[k := ∅]> (element_interfaces_by_name g);
    global_id_vfr := global_id_vfr g;
    global_name_vfr := global_name_vfr g
  |}.

(** Lines 55-71. *)
Definition load_elements (g : globals) : M globals :=
  resp ← request GetElements;
  if cgx_status resp then lift (foldM add_element g (items resp))
  else print ErrElements;; jd_detailed resp;; sys_exit 1.

(** Body of [for vrf in vrflist] (lines 80-81). *)
Definition add_vrf (g : globals) (vrf : value) : outcome globals :=
  name ← getitem vrf "name";
  id ← getitem vrf "id";
  k ← hash id;
  kn ← hash name;
  Normal {|
    elem_id_name := elem_id_name g;
    elem_name_id := elem_name_id g;
    elemid_siteid := elemid_siteid g;
    elem_id_model := elem_id_model g;
    element_vrfs_by_id := element_vrfs_by_id g;
    element_vrfs_by_name := element_vrfs_by_name g;
    element_interfaces_by_id := element_interfaces_by_id g;
    element_interfaces_by_name := element_interfaces_by_name g;
    global_id_vfr := <[k := name]> (global_id_vfr g);
    global_name_vfr := <[kn := id]> (global_name_vfr g)
  |}.

(** Lines 76-85. *)
Definition load_vrfs (g : globals) : M globals :=
  respvrf ← request GetVrfcontexts;
  if cgx_status respvrf then lift (foldM add_vrf g (items respvrf))
  else print ErrVrfs;; jd_detailed respvrf;; sys_exit 1.

(** Body of [for intf in intlist] (lines 98-99) for the element hashed to [k]. *)
Definition add_interface (k : pykey) (g : globals) (intf : value) : outcome globals :=
  name ← getitem intf "name";
  by_id ← match element_interfaces_by_id g !! k with
          | Some t => Normal t | None => Raised KeyError end;
  id ← getitem intf "id";
  ki ← hash id;
  by_name ← match element_interfaces_by_name g !! k with
            | Some t => Normal t | None => Raised KeyError end;
  kn ← hash name;
  Normal {|
    elem_id_name := elem_id_name g;
    elem_name_id := elem_name_id g;
    elemid_siteid := elemid_siteid g;
    elem_id_model := elem_id_model g;
    element_vrfs_by_id := element_vrfs_by_id g;
    element_vrfs_by_name := element_vrfs_by_name g;
    element_interfaces_by_id := <[k := <[ki := name]> by_id]> (element_interfaces_by_id g);
    element_interfaces_by_name := <[k := <[kn := id]> by_name]> (element_interfaces_by_name g);
    global_id_vfr := global_id_vfr g;
    global_name_vfr := global_name_vfr g
  |}.

(** Body of [for elem_id, elem_name in elem_id_name.items()] (lines 91-105). *)
Definition load_element_interfaces (g : globals) (it : value * value) : M globals :=
  let '(elem_id, elem_name) := it in
  site_id ← lift (tbl_get (elemid_siteid g) elem_id);
  if truthy site_id then
    respint ← request (GetInterfaces site_id elem_id);
    if cgx_status respint then
      k ← lift (hash elem_id);
      lift (foldM (add_interface k) g (items respint))
    else
      print (ErrElementInterfaces elem_name elem_id);;
      jd_detailed respint;;
      mret g
  else
    print (WarnNoSiteId elem_name elem_id);;
    mret g.

(** Lines 90-106. *)
Definition load_interfaces (g : globals) : M globals :=
  for_fold load_element_interfaces g (odict_items (elem_id_name g)).

Definition create_dicts (g : globals) : M globals :=
  g1 ← load_elements g;
  g2 ← load_vrfs g1;
  load_interfaces g2.

(* --------------------------------------------------------------------- *)
(** *** Static routes (lines 165-266) *)
(* --------------------------------------------------------------------- *)

(** What the loops of [go] read: the tables, the two elements and the
    destination's site. *)
Record env : Type := mkEnv {
  e_tables : globals;
  e_src_element : value;
  e_dst_element : value;
  e_src_eid : value;
  e_dst_eid : value;
  e_dst_sid : value
}.

(** [{route["destination_prefix"]: route for route in destination_static_routes_list}] *)
Definition index_route (idx : gmap pykey value) (route : value) : outcome (gmap pykey value) :=
  prefix ← getitem route "destination_prefix";
  k ← hash prefix;
  Normal (<[k := route]> idx).

Definition index_routes (l : list value) : outcome (gmap pykey value) :=
  foldM index_route ∅ l.

(** Lines 198-210. [None] stands for the [continue] of the route loop. *)
Definition rewrite_vrf (e : env) (route_payload : record) : M (option record) :=
  let source_vrf_context_id := rec_get route_payload "vrf_context_id" in
  if truthy source_vrf_context_id then
    vrf_name ← lift (tbl_get (global_id_vfr (e_tables e)) source_vrf_context_id);
    if truthy vrf_name then
      new_vrf_context_id ← lift (tbl_get (global_name_vfr (e_tables e)) vrf_name);
      if truthy new_vrf_context_id then
        mret (Some (<["vrf_context_id" := new_vrf_context_id]> route_payload))
      else
        prefix ← lift (rec_getitem route_payload "destination_prefix");
        print (WarnVrfNotGlobal vrf_name source_vrf_context_id prefix);;
        mret None
    else
      prefix ← lift (rec_getitem route_payload "destination_prefix");
      print (WarnVrfNoName source_vrf_context_id prefix);;
      mret None
  else mret (Some route_payload).

(** [nexthop["nexthop_interface_id"] = v], after [nexthop.get] succeeded. *)
Definition set_nexthop_interface (nexthop new_id : value) : value :=
  match nexthop with
  | VDict d => VDict (<["nexthop_interface_id" := new_id]> d)
  | _ => nexthop
  end.

(** Body of [for nexthop in route_payload["nexthops"]] (lines 214-228). The
    two [continue] statements stand in this inner loop, so they go on to the
    next nexthop of the same route: the body returns the nexthop as it is. *)
Definition rewrite_nexthop (e : env) (route_payload : record) (nexthop : value) : M value :=
  source_nexthop_interface_id ← lift (py_get nexthop "nexthop_interface_id");
  if truthy source_nexthop_interface_id then
    by_id ← lift (tbl_getitem (element_interfaces_by_id (e_tables e)) (e_src_eid e));
    interface_name ← lift (tbl_get by_id source_nexthop_interface_id);
    if truthy interface_name then
      by_name ← lift (tbl_getitem (element_interfaces_by_name (e_tables e)) (e_dst_eid e));
      new_nexthop_interface_id ← lift (tbl_get by_name interface_name);
      if truthy new_nexthop_interface_id then
        mret (set_nexthop_interface nexthop new_nexthop_interface_id)
      else
        prefix ← lift (rec_getitem route_payload "destination_prefix");
        print (WarnNoDstInterface interface_name source_nexthop_interface_id
                 (e_dst_element e) prefix);;
        mret nexthop
    else
      prefix ← lift (rec_getitem route_payload "destination_prefix");
      print (WarnNoSrcInterfaceName source_nexthop_interface_id (e_src_element e) prefix);;
      mret nexthop
  else mret nexthop.

(** What [for nexthop in v] walks over when [v] is truthy. Of a non-empty
    string or dict the first element is a string, on which [.get] raises
    before anything else happens; numbers are not iterable. *)
Definition nexthops_of (v : value) : outcome (list value) :=
  match v with
  | VList l => Normal l
  | VStr _ | VDict _ => Raised AttributeError
  | _ => Raised TypeError
  end.

(** Lines 212-228. *)
Definition rewrite_nexthops (e : env) (route_payload : record) : M record :=
  let nexthops := rec_get route_payload "nexthops" in
  if truthy nexthops then
    l ← lift (nexthops_of nexthops);
    l' ← for_update (rewrite_nexthop e route_payload) l;
    mret (<["nexthops" := VList l']> route_payload)
  else mret route_payload.

(** Lines 232-266. *)
Definition upsert_route (e : env) (dst_routes_by_prefix : gmap pykey value)
    (route_payload : record) : M unit :=
  destination_prefix_to_check ← lift (rec_getitem route_payload "destination_prefix");
  existing_dst_route ← lift (tbl_get dst_routes_by_prefix destination_prefix_to_check);
  if truthy existing_dst_route then
    route_id_to_update ← lift (getitem existing_dst_route "id");
    current_etag ← lift (py_get existing_dst_route "_etag");
    route_payload ←
      (if is_not_None current_etag then
         mret (<["_etag" := current_etag]> route_payload)
       else
         name ← lift (rec_getitem route_payload "name");
         print (WarnRouteNoEtag name route_id_to_update);;
         mret route_payload);
    let route_payload := <["id" := route_id_to_update]> route_payload in
    print (MsgUpdateRoute destination_prefix_to_check);;
    resp ← request (PutStaticroutes (e_dst_sid e) (e_dst_eid e) route_id_to_update route_payload);
    if cgx_status resp then print (OkRouteUpdated destination_prefix_to_check)
    else print (ErrRouteUpdate destination_prefix_to_check);; jd_detailed resp
  else
    let route_payload := delete "_etag" (delete "id" route_payload) in
    print (MsgCreateRoute destination_prefix_to_check);;
    resp ← request (PostStaticroutes (e_dst_sid e) (e_dst_eid e) route_payload);
    if cgx_status resp then print (OkRouteCreated destination_prefix_to_check)
    else print (ErrRouteCreate destination_prefix_to_check);; jd_detailed resp.

(** Body of [for source_route in source_static_routes_list] (lines 192-266). *)
Definition process_route (e : env) (dst_routes_by_prefix : gmap pykey value)
    (source_route : value) : M unit :=
  route_payload ← lift (sanitize_copy source_route);
  r ← rewrite_vrf e route_payload;
  match r with
  | None => mret tt
  | Some route_payload =>
      route_payload ← rewrite_nexthops e route_payload;
      upsert_route e dst_routes_by_prefix route_payload
  end.

(** Lines 169-266. *)
Definition copy_static_routes (e : env) (src_sid : value) : M unit :=
  print MsgRoutesHeader;;
  src_static_routes_resp ← request (GetStaticroutes src_sid (e_src_eid e));
  (if cgx_status src_static_routes_resp then
     print (MsgSrcRoutes (length (items src_static_routes_resp)))
   else print ErrSrcRoutes;; jd_detailed src_static_routes_resp;; sys_exit 1);;
  dst_static_routes_resp ← request (GetStaticroutes (e_dst_sid e) (e_dst_eid e));
  dst_routes_by_prefix ←
    (if cgx_status dst_static_routes_resp then
       idx ← lift (index_routes (items dst_static_routes_resp));
       print (MsgDstRoutes (length (items dst_static_routes_resp)));;
       mret idx
     else print ErrDstRoutes;; jd_detailed dst_static_routes_resp;; sys_exit 1);
  for_each (process_route e dst_routes_by_prefix) (items src_static_routes_resp).

(* --------------------------------------------------------------------- *)
(** *** VLAN interfaces (lines 272-333) *)
(* --------------------------------------------------------------------- *)

(** [t in ["vlan", "subinterface"]], and the [==] chain of line 294. *)
Definition is_vlan_type (t : value) : bool :=
  eq_str t "vlan" || eq_str t "subinterface".

(** [{intf["name"]: intf for intf in destination_interface_list
      if intf["type"] in ["vlan", "subinterface"]}] *)
Definition index_interface (idx : gmap pykey value) (intf : value) : outcome (gmap pykey value) :=
  type ← getitem intf "type";
  if is_vlan_type type then
    name ← getitem intf "name";
    k ← hash name;
    Normal (<[k := intf]> idx)
  else Normal idx.

Definition index_interfaces (l : list value) : outcome (gmap pykey value) :=
  foldM index_interface ∅ l.

(** Lines 301-333. *)
Definition upsert_interface (e : env) (dst_interfaces_by_name : gmap pykey value)
    (intf_payload : record) : M unit :=
  name ← lift (rec_getitem intf_payload "name");
  existing_dst_intf ← lift (tbl_get dst_interfaces_by_name name);
  if truthy existing_dst_intf then
    intf_id_to_update ← lift (getitem existing_dst_intf "id");
    current_etag ← lift (py_get existing_dst_intf "_etag");
    intf_payload ←
      (if is_not_None current_etag then
         mret (<["_etag" := current_etag]> intf_payload)
       else
         print (WarnInterfaceNoEtag name);;
         mret intf_payload);
    let intf_payload := <["id" := intf_id_to_update]> intf_payload in
    type ← lift (rec_getitem intf_payload "type");
    print (MsgUpdateInterface name type);;
    resp ← request (PutInterfaces (e_dst_sid e) (e_dst_eid e) intf_id_to_update intf_payload);
    if cgx_status resp then print (OkInterfaceUpdated name)
    else print (ErrInterfaceUpdate name);; jd_detailed resp
  else
    let intf_payload := delete "_etag" (delete "id" intf_payload) in
    type ← lift (rec_getitem intf_payload "type");
    print (MsgCreateInterface name type);;
    resp ← request (PostInterfaces (e_dst_sid e) (e_dst_eid e) intf_payload);
    if cgx_status resp then print (OkInterfaceCreated name)
    else print (ErrInterfaceCreate name);; jd_detailed resp.

(** Body of [for intf in interface_list] (lines 294-333). *)
Definition process_interface (e : env) (dst_interfaces_by_name : gmap pykey value)
    (intf : value) : M unit :=
  type ← lift (getitem intf "type");
  if is_vlan_type type then
    intf_payload ← lift (sanitize_copy intf);
    upsert_interface e dst_interfaces_by_name intf_payload
  else mret tt.

(** Lines 272-333. *)
Definition copy_interfaces (e : env) (src_sid : value) : M unit :=
  print MsgInterfacesHeader;;
  interfaces ← request (GetInterfaces src_sid (e_src_eid e));
  (if cgx_status interfaces then
     print (MsgSrcInterfaces (length (items interfaces)))
   else print ErrSrcInterfaces;; jd_detailed interfaces;; sys_exit 1);;
  dst_interfaces_resp ← request (GetInterfaces (e_dst_sid e) (e_dst_eid e));
  dst_interfaces_by_name ←
    (if cgx_status dst_interfaces_resp then
       idx ← lift (index_interfaces (items dst_interfaces_resp));
       print (MsgDstInterfaces (size idx));;
       mret idx
     else print ErrDstInterfaces;; jd_detailed dst_interfaces_resp;; sys_exit 1);
  for_each (process_interface e dst_interfaces_by_name) (items interfaces).

(* --------------------------------------------------------------------- *)
(** *** [go] *)
(* --------------------------------------------------------------------- *)

(** What [argparse] hands over: a string, or [None] for an option left out. *)
Definition arg (a : option string) : value :=
  match a with Some s => VStr s | None => VNone end.

(** [if not ok: print(m); sys.exit(1)] *)
Definition exit_unless (ok : bool) (m : message) : M unit :=
  if ok then mret tt else print m;; sys_exit 1.

(** Lines 150-162: the element names are checked and turned into ids. *)
Definition resolve_elements (g : globals) (src dst : value) : M (env * value) :=
  src_known ← lift (tbl_mem (elem_name_id g) src);
  exit_unless src_known (ErrSrcNotFound src);;
  dst_known ← lift (tbl_mem (elem_name_id g) dst);
  exit_unless dst_known (ErrDstNotFound dst);;
  src_eid ← lift (tbl_getitem (elem_name_id g) src);
  src_sid ← lift (tbl_getitem (elemid_siteid g) src_eid);
  dst_eid ← lift (tbl_getitem (elem_name_id g) dst);
  dst_sid ← lift (tbl_getitem (elemid_siteid g) dst_eid);
  print (MsgCopying src src_eid dst dst_eid);;
  mret (mkEnv g src dst src_eid dst_eid dst_sid, src_sid).

(** [go()], from the parsed arguments on. *)
Definition go (src_element : string) (dst_element : option string) : M unit :=
  let src := VStr src_element in
  let dst := arg dst_element in
  exit_unless (negb (bool_decide (dst_element = Some src_element))) ErrSameElement;;
  session ← request LoginSecret;
  exit_unless (cgx_status session) ErrLogin;;
  print MsgBuilding;;
  g ← create_dicts initial_globals;
  r ← resolve_elements g src dst;
  let '(e, src_sid) := r in
  copy_static_routes e src_sid;;
  copy_interfaces e src_sid.

End Script.

Arguments mkWorld {Ctl} ctl trace.
Arguments ctl {Ctl} w.
Arguments trace {Ctl} w.

(* ===================================================================== *)
(** ** Reading a trace *)
(* ===================================================================== *)

(** The controller calls of a trace, in order. *)
Definition calls (t : list event) : list call :=
  omap (fun ev => match ev with Called c => Some c | _ => None end) t.

(** The create and update calls. *)
Definition is_write (c : call) : bool :=
  match c with
  | PutStaticroutes _ _ _ _ | PostStaticroutes _ _ _
  | PutInterfaces _ _ _ _ | PostInterfaces _ _ _ => true
  | _ => false
  end.

(** The create and update calls on static routes. *)
Definition is_route_write (c : call) : bool :=
  match c with
  | PutStaticroutes _ _ _ _ | PostStaticroutes _ _ _ => true
  | _ => false
  end.

Definition writes (t : list event) : list call :=
  List.filter is_write (calls t).

(** The payload of a create or update call. *)
Definition payload_of (c : call) : option record :=
  match c with
  | PutStaticroutes _ _ _ d | PostStaticroutes _ _ d
  | PutInterfaces _ _ _ d | PostInterfaces _ _ d => Some d
  | _ => None
  end.

(** The four warnings that announce that a route is being skipped. *)
Definition is_skip_report (ev : event) : bool :=
  match ev with
  | Printed (WarnVrfNotGlobal _ _ _) | Printed (WarnVrfNoName _ _)
  | Printed (WarnNoDstInterface _ _ _ _) | Printed (WarnNoSrcInterfaceName _ _ _) => true
  | _ => false
  end.

Definition skip_reports (t : list event) : list event :=
  List.filter is_skip_report t.

(** A dict literal. *)
Definition dict (l : list (string * value)) : value := VDict (list_to_map l).

(** The [nexthop_interface_id] fields of a payload's nexthops. *)
Definition nexthop_interface_ids (p : record) : list value :=
  match p !! "nexthops" with
  | Some (VList l) =>
      omap (fun nh => match nh with
                      | VDict d => d !! "nexthop_interface_id"
                      | _ => None
                      end) l
  | _ => []
  end.

(* ===================================================================== *)
(** ** Predicates used in the statements *)
(* ===================================================================== *)

(** An interface record whose [type] is ["vlan"] or ["subinterface"]. *)
Definition has_vlan_type (intf : value) : bool :=
  match getitem intf "type" with
  | Normal t => is_vlan_type t
  | _ => false
  end.

(** The record has a [type] field at all. *)
Definition has_type (intf : value) : Prop :=
  ∃ t, getitem intf "type" = Normal t.

(** The payload of an update: the destination's token when it has one, and
    the destination's id. *)
Definition update_payload (existing : value) (p : record) : record :=
  match getitem existing "id", py_get existing "_etag" with
  | Normal id, Normal etag =>
      <["id" := id]> (if is_not_None etag then <["_etag" := etag]> p else p)
  | _, _ => p
  end.

(** The payload of a create. *)
Definition create_payload (p : record) : record :=
  delete "_etag" (delete "id" p).


(* ===================================================================== *)
(** ** A small site: two elements, one VRF, three interfaces *)
(* ===================================================================== *)

Module Site.

Definition elemA : value :=
  dict [("id", VStr "eA"); ("name", VStr "A"); ("site_id", VStr "sA");
        ("model_name", VStr "ion 3000")].
Definition elemB : value :=
  dict [("id", VStr "eB"); ("name", VStr "B"); ("site_id", VStr "sB");
        ("model_name", VStr "ion 3000")].
(** An element that is not assigned to a site. *)
Definition elemC : value :=
  dict [("id", VStr "eC"); ("name", VStr "C"); ("site_id", VNone);
        ("model_name", VStr "ion 1000")].

(** An element whose interface listing the controller refuses. *)
Definition elemD : value :=
  dict [("id", VStr "eD"); ("name", VStr "D"); ("site_id", VStr "sD");
        ("model_name", VStr "ion 1000")].

Definition vrfCorp : value := dict [("id", VStr "v1"); ("name", VStr "CORP")].

(** Interfaces of A. *)
Definition vlan10A : value :=
  dict [("id", VStr "i1"); ("name", VStr "vlan10"); ("type", VStr "vlan");
        ("_etag", VInt 3); ("_created_on_utc", VInt 1700000000)].
Definition vlan20A : value :=
  dict [("id", VStr "i7"); ("name", VStr "vlan20"); ("type", VStr "vlan");
        ("_etag", VInt 4)].
Definition port1A : value :=
  dict [("id", VStr "i8"); ("name", VStr "1"); ("type", VStr "port");
        ("_etag", VInt 9)].

(** Interfaces of B: it has [vlan10] but no [vlan20]. *)
Definition vlan10B : value :=
  dict [("id", VStr "i2"); ("name", VStr "vlan10"); ("type", VStr "vlan");
        ("_etag", VInt 6)].

(** A route of A in VRF CORP through [vlan10]. *)
Definition route_vlan10 : value :=
  dict [("id", VStr "r1"); ("name", VStr "lan"); ("_etag", VInt 5);
        ("destination_prefix", VStr "192.168.1.0/24");
        ("vrf_context_id", VStr "v1");
        ("nexthops", VList [dict [("nexthop_interface_id", VStr "i1")]])].

(** A route of A with one nexthop on [vlan10], which B has, and one on
    [vlan20], which B has not. *)
Definition route_two_nexthops : value :=
  dict [("id", VStr "r2"); ("name", VStr "dmz"); ("_etag", VInt 5);
        ("destination_prefix", VStr "172.16.0.0/12");
        ("nexthops", VList [dict [("nexthop_interface_id", VStr "i1")];
                            dict [("nexthop_interface_id", VStr "i7")]])].

(** A route of A whose only nexthop is on [vlan20]. *)
Definition route_vlan20 : value :=
  dict [("id", VStr "r3"); ("name", VStr "lab"); ("_etag", VInt 5);
        ("destination_prefix", VStr "10.20.0.0/16");
        ("nexthops", VList [dict [("nexthop_interface_id", VStr "i7")]])].

(** A route of A to a literal next hop, known to the controller with a token. *)
Definition route_ip : value :=
  dict [("id", VStr "r4"); ("name", VStr "default"); ("_etag", VInt 7);
        ("destination_prefix", VStr "10.0.0.0/8");
        ("nexthops", VList [dict [("nexthop_ip", VStr "10.1.1.1")]])].

(** The same prefix on B, listed without a token. *)
Definition route_ip_B_no_etag : value :=
  dict [("id", VStr "d4"); ("name", VStr "default");
        ("destination_prefix", VStr "10.0.0.0/8");
        ("nexthops", VList [dict [("nexthop_ip", VStr "10.9.9.9")]])].

(** The same prefix on B, listed with its token. *)
Definition route_ip_B : value :=
  dict [("id", VStr "d4"); ("name", VStr "default"); ("_etag", VInt 12);
        ("destination_prefix", VStr "10.0.0.0/8");
        ("nexthops", VList [dict [("nexthop_ip", VStr "10.9.9.9")]])].

(** A route as the data model describes it (id, prefix, nexthops), without a
    [name]. *)
Definition route_unnamed : value :=
  dict [("id", VStr "r5"); ("_etag", VInt 7);
        ("destination_prefix", VStr "10.0.0.0/8");
        ("nexthops", VList [dict [("nexthop_ip", VStr "10.1.1.1")]])].

(** The interface listing of an element at a site; it fails for anything
    but A and B, in particular for D. *)
Definition interfaces_of (site_id element_id : value) : response :=
  if eq_str site_id "sA" && eq_str element_id "eA"
  then mkResponse true [vlan10A; vlan20A; port1A]
  else if eq_str site_id "sB" && eq_str element_id "eB"
  then mkResponse true [vlan10B]
  else mkResponse false [].

Definition routes_of (routesA routesB : list value)
    (site_id element_id : value) : response :=
  if eq_str site_id "sA" && eq_str element_id "eA" then mkResponse true routesA
  else if eq_str site_id "sB" && eq_str element_id "eB" then mkResponse true routesB
  else mkResponse false [].

(** A stateless controller that lists the site and accepts or rejects every
    write according to [accept]. The static routes of A and of B are
    parameters. *)
Definition controller (accept : bool) (routesA routesB : list value)
    (c : unit) (k : call) : unit * response :=
  (tt, match k with
       | LoginSecret => mkResponse true []
       | GetElements => mkResponse true [elemA; elemB; elemC; elemD]
       | GetVrfcontexts => mkResponse true [vrfCorp]
       | GetInterfaces site_id element_id => interfaces_of site_id element_id
       | GetStaticroutes site_id element_id =>
           routes_of routesA routesB site_id element_id
       | _ => mkResponse accept []
       end).

Definition w0 : @world unit := mkWorld tt [].

(** The tables [create_dicts] builds on this site. *)
Definition site_tables : globals :=
  match create_dicts (controller true [] []) initial_globals w0 with
  | (_, Normal g) => g
  | _ => initial_globals
  end.

(** The environment of a copy from A to B. *)
Definition envAB : env :=
  mkEnv site_tables (VStr "A") (VStr "B") (VStr "eA") (VStr "eB") (VStr "sB").

(** The index of an explicit destination listing. *)
Definition index_of (l : list value) : gmap pykey value :=
  match index_routes l with Normal idx => idx | _ => ∅ end.

(** The index of an explicit destination interface listing. *)
Definition interface_index_of (l : list value) : gmap pykey value :=
  match index_interfaces l with Normal idx => idx | _ => ∅ end.

(** The fields of an object. *)
Definition fields (v : value) : record :=
  match v with VDict d => d | _ => ∅ end.

End Site.

(** The key under which a VRF record's name is stored. *)
Definition vrf_name_key (vrf : value) : option pykey :=
  match getitem vrf "name" with
  | Normal n => to_key n
  | _ => None
  end.

(** The value can be used as a dict key. *)
Definition hashable (v : value) : bool :=
  match to_key v with Some _ => true | None => false end.

(** What the VRF loop maintains: every name stored in [global_id_vfr] leads
    back, through [global_name_vfr], to an id with the key it is stored
    under. *)
Definition vrf_tables_inverse (g : globals) : Prop :=
  ∀ k name, global_id_vfr g !! k = Some name →
    ∃ kn new, to_key name = Some kn ∧ global_name_vfr g !! kn = Some new
              ∧ to_key new = Some k.


(** A device record with the four fields the element loop subscripts, its id
    and name being hashable. *)
Definition wf_element (elem : value) : bool :=
  match getitem elem "name", getitem elem "id",
        getitem elem "site_id", getitem elem "model_name" with
  | Normal name, Normal id, Normal _, Normal _ => hashable id && hashable name
  | _, _, _, _ => false
  end.

(** A VRF or interface record with a hashable [id] and [name]. *)
Definition wf_named (r : value) : bool :=
  match getitem r "name", getitem r "id" with
  | Normal name, Normal id => hashable id && hashable name
  | _, _ => false
  end.

(** Every element the script knows has its key object, its site entry and
    its two interface tables; and every id reachable by name is such an
    element. *)
Definition elements_ok (g : globals) : Prop :=
  (∀ k o name, (k, (o, name)) ∈ elem_id_name g →
     to_key o = Some k
     ∧ is_Some (elemid_siteid g !! k)
     ∧ is_Some (element_interfaces_by_id g !! k)
     ∧ is_Some (element_interfaces_by_name g !! k))
  ∧ (∀ kn id, elem_name_id g !! kn = Some id →
       ∃ k, to_key id = Some k
            ∧ is_Some (elemid_siteid g !! k)
            ∧ is_Some (element_interfaces_by_id g !! k)
            ∧ is_Some (element_interfaces_by_name g !! k)).

(** No interface has been recorded yet. *)
Definition interfaces_unpopulated (g : globals) : Prop :=
  (∀ k m, element_interfaces_by_id g !! k = Some m → m = ∅)
  ∧ (∀ k m, element_interfaces_by_name g !! k = Some m → m = ∅).

(** The recorded site id of the element with key [k] is missing or falsy. *)
Definition siteless (g : globals) (k : pykey) : Prop :=
  truthy (default VNone (elemid_siteid g !! k)) = false.

(** Two states of the tables that differ at most in the interface tables. *)
Definition same_directory (g g' : globals) : Prop :=
  elem_id_name g' = elem_id_name g
  ∧ elem_name_id g' = elem_name_id g
  ∧ elemid_siteid g' = elemid_siteid g
  ∧ global_id_vfr g' = global_id_vfr g
  ∧ global_name_vfr g' = global_name_vfr g.

(** [g'] is [g] with interfaces added for the element with key [k] only. *)
Definition interfaces_added_for (k : pykey) (g g' : globals) : Prop :=
  same_directory g g'
  ∧ (∀ k', k' ≠ k →
       element_interfaces_by_id g' !! k' = element_interfaces_by_id g !! k'
       ∧ element_interfaces_by_name g' !! k' = element_interfaces_by_name g !! k')
  ∧ (is_Some (element_interfaces_by_id g !! k) →
     is_Some (element_interfaces_by_id g' !! k))
  ∧ (is_Some (element_interfaces_by_name g !! k) →
     is_Some (element_interfaces_by_name g' !! k)).

(** The controller refuses every interface listing of the element with key
    [k]. *)
Definition listing_fails {Ctl : Type} (api : Ctl → call → Ctl * response)
    (k : pykey) : Prop :=
  ∀ c site_id o, to_key o = Some k →
    cgx_status (api c (GetInterfaces site_id o)).2 = false.

(** What the interface phase of [create_dicts] may change: it keeps every
    table entry in place, and leaves alone the tables of an element without
    site id or whose listing fails. *)
Definition interfaces_loaded {Ctl : Type} (api : Ctl → call → Ctl * response)
    (g g' : globals) : Prop :=
  same_directory g g'
  ∧ (∀ k, is_Some (element_interfaces_by_id g !! k) →
       is_Some (element_interfaces_by_id g' !! k))
  ∧ (∀ k, is_Some (element_interfaces_by_name g !! k) →
       is_Some (element_interfaces_by_name g' !! k))
  ∧ (∀ k, listing_fails api k ∨ siteless g k →
       element_interfaces_by_id g' !! k = element_interfaces_by_id g !! k
       ∧ element_interfaces_by_name g' !! k = element_interfaces_by_name g !! k).

(** *** Records the loops can work on *)

(** Every value stored in the table is hashable. *)
Definition all_hashable (t : gmap pykey value) : bool :=
  forallb (fun kv => hashable kv.2) (map_to_list t).

(** A nexthop is an object whose interface reference, if any, is hashable. *)
Definition wf_nexthop (nexthop : value) : bool :=
  match nexthop with
  | VDict m => hashable (rec_get m "nexthop_interface_id")
  | _ => false
  end.

(** [nexthops] is absent, falsy, or a list of such objects. *)
Definition wf_nexthops (v : value) : bool :=
  match v with
  | VList l => forallb wf_nexthop l
  | _ => negb (truthy v)
  end.

(** A source route: an object with a hashable [destination_prefix], a
    [name], a hashable VRF reference if any, and well-formed nexthops. *)
Definition wf_route (route : value) : bool :=
  match route with
  | VDict d =>
      match d !! "destination_prefix", d !! "name" with
      | Some prefix, Some _ =>
          hashable prefix && hashable (rec_get d "vrf_context_id")
          && wf_nexthops (rec_get d "nexthops")
      | _, _ => false
      end
  | _ => false
  end.

(** A source interface: an object with a [type], and with a hashable [name]
    when the type is one that is copied. *)
Definition wf_interface (intf : value) : bool :=
  match intf with
  | VDict d =>
      match d !! "type" with
      | Some t =>
          if is_vlan_type t
          then match d !! "name" with Some n => hashable n | None => false end
          else true
      | None => false
      end
  | _ => false
  end.

(** Every indexed destination record has an [id]. *)
Definition index_ok (idx : gmap pykey value) : bool :=
  forallb (fun kv => match getitem kv.2 "id" with Normal _ => true | _ => false end)
    (map_to_list idx).

(** The tables hold an interface table for the source and for the destination
    element, and the names recorded for VRFs and for the source element's
    interfaces are hashable. *)
Definition env_ok (e : env) : bool :=
  all_hashable (global_id_vfr (e_tables e))
  && match tbl_getitem (element_interfaces_by_id (e_tables e)) (e_src_eid e),
           tbl_getitem (element_interfaces_by_name (e_tables e)) (e_dst_eid e) with
     | Normal by_id, Normal _ => all_hashable by_id
     | _, _ => false
     end.

(** Both lookups of the VRF reference of a route succeed, or it has none. *)
Definition vrf_resolves_rec (g : globals) (d : record) : bool :=
  let source_vrf_context_id := rec_get d "vrf_context_id" in
  if truthy source_vrf_context_id then
    match tbl_get (global_id_vfr g) source_vrf_context_id with
    | Normal vrf_name =>
        truthy vrf_name
        && match tbl_get (global_name_vfr g) vrf_name with
           | Normal new_vrf_context_id => truthy new_vrf_context_id
           | _ => false
           end
    | _ => false
    end
  else true.

Definition vrf_resolves (g : globals) (route : value) : bool :=
  match route with
  | VDict d => vrf_resolves_rec g d
  | _ => false
  end.

(* ===================================================================== *)
(** ** What a turn of a loop reports *)
(* ===================================================================== *)










(* ===================================================================== *)
(** ** What a computation adds to the trace *)
(* ===================================================================== *)

(** From any world, [m] adds to the trace only controller calls that satisfy
    [P], and when it ends normally its result satisfies [Q]. Nothing is
    assumed about how it ends. *)
Definition adds {Ctl A : Type} (P : call → Prop) (Q : A → Prop)
    (m : @M Ctl A) : Prop :=
  ∀ w, ∃ cs, calls (trace (m w).1) = calls (trace w) ++ cs
             ∧ Forall P cs
             ∧ ∀ a, (m w).2 = Normal a → Q a.

(** No controller call at all. *)
Definition no_call (c : call) : Prop := False.

(** A listing call. *)
Definition is_listing (c : call) : Prop := is_write c = false.

(** The record holds none of the attributes of [BASE_DELETE_ATTRS]. *)
Definition clean (d : record) : Prop :=
  ∀ k, k ∈ BASE_DELETE_ATTRS → d !! k = None.

(** A create or update call as the loops mean to make it: addressed to the
    destination element and site, with a clean payload; an update carries
    the id it is addressed to, a create neither [id] nor [_etag]. *)
Definition write_ok (e : env) (c : call) : Prop :=
  match c with
  | PutStaticroutes s el rid d | PutInterfaces s el rid d =>
      s = e_dst_sid e ∧ el = e_dst_eid e ∧ d !! "id" = Some rid ∧ clean d
  | PostStaticroutes s el d | PostInterfaces s el d =>
      s = e_dst_sid e ∧ el = e_dst_eid e
      ∧ d !! "id" = None ∧ d !! "_etag" = None ∧ clean d
  | _ => False
  end.

(** *** What the rewriting does to a record *)

(** The nexthop is returned as it was, or it is an object whose
    [nexthop_interface_id] resolved through the source element's id-to-name
    table and the destination element's name-to-id table and was replaced by
    the id found. *)
Definition nexthop_rewritten (e : env) (nexthop nexthop' : value) : Prop :=
  nexthop' = nexthop
  ∨ ∃ (m : record) by_id by_name interface_name new_id,
      nexthop = VDict m
      ∧ truthy (rec_get m "nexthop_interface_id") = true
      ∧ tbl_getitem (element_interfaces_by_id (e_tables e)) (e_src_eid e)
        = Normal by_id
      ∧ tbl_get by_id (rec_get m "nexthop_interface_id") = Normal interface_name
      ∧ truthy interface_name = true
      ∧ tbl_getitem (element_interfaces_by_name (e_tables e)) (e_dst_eid e)
        = Normal by_name
      ∧ tbl_get by_name interface_name = Normal new_id
      ∧ truthy new_id = true
      ∧ nexthop' = VDict (<["nexthop_interface_id" := new_id]> m).

(** The [nexthops] of [p'] are those of [p], rewritten one by one. *)
Definition nexthops_rewritten (e : env) (p p' : record) : Prop :=
  (truthy (rec_get p "nexthops") = false ∧ p' !! "nexthops" = p !! "nexthops")
  ∨ ∃ l l', p !! "nexthops" = Some (VList l)
            ∧ p' !! "nexthops" = Some (VList l')
            ∧ Forall2 (nexthop_rewritten e) l l'.

(** The [vrf_context_id] of [p'] is that of [p] when [p] has no reference,
    and otherwise the id found through the two global tables. *)
Definition vrf_rewritten (e : env) (p p' : record) : Prop :=
  (truthy (rec_get p "vrf_context_id") = false
   ∧ p' !! "vrf_context_id" = p !! "vrf_context_id")
  ∨ ∃ vrf_name new_id,
      truthy (rec_get p "vrf_context_id") = true
      ∧ tbl_get (global_id_vfr (e_tables e)) (rec_get p "vrf_context_id")
        = Normal vrf_name
      ∧ truthy vrf_name = true
      ∧ tbl_get (global_name_vfr (e_tables e)) vrf_name = Normal new_id
      ∧ truthy new_id = true
      ∧ p' !! "vrf_context_id" = Some new_id.

(** [payload] has the fields of [src], those named in [excl] apart. *)
Definition fields_kept (excl : list string) (src payload : record) : Prop :=
  ∀ k, k ∉ excl → payload !! k = src !! k.

(** The fields a route payload may differ in from the source route. *)
Definition route_rewritten_fields : list string :=
  BASE_DELETE_ATTRS ++ ["id"; "_etag"; "vrf_context_id"; "nexthops"].

(** The fields an interface payload may differ in from the source interface. *)
Definition interface_rewritten_fields : list string :=
  BASE_DELETE_ATTRS ++ ["id"; "_etag"].

(** A write call made for the source route [src]. *)
Definition route_call (e : env) (src : record) (c : call) : Prop :=
  write_ok e c
  ∧ ∃ payload, payload_of c = Some payload
      ∧ fields_kept route_rewritten_fields src payload
      ∧ vrf_rewritten e src payload
      ∧ nexthops_rewritten e src payload.

(** A write call made for the source interface [src]. *)
Definition interface_call (e : env) (src : record) (c : call) : Prop :=
  write_ok e c
  ∧ ∃ payload, payload_of c = Some payload
      ∧ fields_kept interface_rewritten_fields src payload.

(** As [adds], with at most [n] calls added. *)
Definition adds_upto {Ctl A : Type} (n : nat) (P : call → Prop) (Q : A → Prop)
    (m : @M Ctl A) : Prop :=
  ∀ w, ∃ cs, calls (trace (m w).1) = calls (trace w) ++ cs
             ∧ Forall P cs ∧ (length cs ≤ n)%nat
             ∧ ∀ a, (m w).2 = Normal a → Q a.

(** A write call of the create-or-update step for the payload [p]: as
    [write_ok] wants it, and with the fields of [p] other than [id] and
    [_etag]. *)
Definition upsert_call (e : env) (p : record) (c : call) : Prop :=
  write_ok e c
  ∧ ∃ payload, payload_of c = Some payload
      ∧ ∀ k, k ≠ "id" → k ≠ "_etag" → payload !! k = p !! k.

(** *** The interface tables of one element *)

(** What one element's tables hold relative to the interfaces folded in. *)
Definition interface_tables_from (l : list value)
    (t0 tn0 t tn : gmap pykey value) : Prop :=
  (∀ ki name, t !! ki = Some name →
     t0 !! ki = Some name
     ∨ ∃ intf id, intf ∈ l ∧ getitem intf "id" = Normal id
                  ∧ to_key id = Some ki ∧ getitem intf "name" = Normal name)
  ∧ (∀ kn id, tn !! kn = Some id →
       tn0 !! kn = Some id
       ∨ ∃ intf name, intf ∈ l ∧ getitem intf "name" = Normal name
                      ∧ to_key name = Some kn ∧ getitem intf "id" = Normal id)
  ∧ (∀ intf, intf ∈ l →
       ∃ id name ki kn, getitem intf "id" = Normal id ∧ to_key id = Some ki
         ∧ getitem intf "name" = Normal name ∧ to_key name = Some kn
         ∧ is_Some (t !! ki) ∧ is_Some (tn !! kn)).

(** The two tables of an element are inverse to each other as long as the
    interface names folded in are pairwise distinct. *)
Definition interface_tables_inverse (t tn : gmap pykey value) : Prop :=
  ∀ ki name, t !! ki = Some name →
    ∃ kn id, to_key name = Some kn ∧ tn !! kn = Some id ∧ to_key id = Some ki.


(** *** Well-formed listings *)

(** A listed static route: good as a source route, and with an [id]. *)
Definition wf_route_record (r : value) : bool :=
  wf_route r && match getitem r "id" with Normal _ => true | _ => false end.

(** A listed interface: with hashable [id] and [name], and a [type]. *)
Definition wf_interface_record (r : value) : bool :=
  wf_named r && wf_interface r.

(** Every listing the controller ever answers with holds records of the
    expected shape. Nothing is said about the status of any reply. *)
Definition wf_controller {Ctl : Type} (api : Ctl → call → Ctl * response) : Prop :=
  ∀ c,
    Forall (fun x => wf_element x = true) (items (api c GetElements).2)
    ∧ Forall (fun x => wf_named x = true) (items (api c GetVrfcontexts).2)
    ∧ (∀ s o, Forall (fun x => wf_interface_record x = true)
                (items (api c (GetInterfaces s o)).2))
    ∧ (∀ s o, Forall (fun x => wf_route_record x = true)
                (items (api c (GetStaticroutes s o)).2)).

(** [m] never ends in an exception: it returns a result satisfying [Q] or
    leaves through [sys.exit(1)]. *)
Definition ends_well {Ctl A : Type} (Q : A → Prop) (m : @M Ctl A) : Prop :=
  ∀ w, match (m w).2 with
       | Normal a => Q a
       | Raised _ => False
       | SysExit code => code = 1
       end.

(** The names stored in the VRF table and in the per-element interface
    tables can be used as keys. *)
Definition tables_hashable (g : globals) : Prop :=
  (∀ k v, global_id_vfr g !! k = Some v → hashable v = true)
  ∧ (∀ k t ki v, element_interfaces_by_id g !! k = Some t → t !! ki = Some v →
       hashable v = true).
(* ===================================================================== *)
(** ** Sanitisation *)
(* ===================================================================== *)

Lemma foldl_delete_lookup (l : list string) (d : record) (k : string) :
  foldl (fun p attr => delete attr p) d l !! k
  = if decide (k ∈ l) then None else d !! k.
Proof.
  revert d. induction l as [|a l IH]; intros d.
  - destruct (decide (k ∈ [])) as [H|H]; [by apply elem_of_nil in H | done].
  - cbn [foldl]. rewrite IH.
    destruct (decide (k ∈ l)) as [Hl|Hl], (decide (k ∈ a :: l)) as [Hal|Hal];
      try done.
    + exfalso. apply Hal. by right.
    + apply elem_of_cons in Hal as [->|?]; [|done]. apply lookup_delete_eq.
    + apply lookup_delete_ne. intros ->. apply Hal. by left.
Qed.

Lemma sanitize_lookup (r : record) (k : string) :
  sanitize r !! k = if decide (k ∈ BASE_DELETE_ATTRS) then None else r !! k.
Proof. apply foldl_delete_lookup. Qed.


(* ===================================================================== *)
(** ** Stepping through the monad *)
(* ===================================================================== *)

Section Steps.
Context {Ctl : Type}.
Variable api : Ctl → call → Ctl * response.
Implicit Types w : @world Ctl.

Lemma bind_lift_Normal {A B} (a : A) (f : A → M B) w :
  (lift (Normal a) ≫= f) w = f a w.
Proof. reflexivity. Qed.

Lemma bind_lift_Raised {A B} (x : exn) (f : A → M B) w :
  (lift (Raised x) ≫= f) w = (w, Raised x).
Proof. reflexivity. Qed.

Lemma bind_mret {A B} (a : A) (f : A → M B) w :
  (mret a ≫= f) w = f a w.
Proof. reflexivity. Qed.

Lemma bind_print {B} (m : message) (f : unit → M B) w :
  (print m ≫= f) w = f tt (mkWorld (ctl w) (trace w ++ [Printed m])).
Proof. reflexivity. Qed.

Lemma bind_jd_detailed {B} (r : response) (f : unit → M B) w :
  (jd_detailed r ≫= f) w = f tt (mkWorld (ctl w) (trace w ++ [Detailed r])).
Proof. reflexivity. Qed.

Lemma bind_request {B} (c : call) (f : response → M B) w :
  (request api c ≫= f) w
  = f (api (ctl w) c).2 (mkWorld (api (ctl w) c).1 (trace w ++ [Called c])).
Proof.
  unfold mbind, M_bind, request. by destruct (api (ctl w) c).
Qed.

Lemma bind_assoc {A B C} (m : M A) (f : A → M B) (g : B → M C) w :
  ((m ≫= f) ≫= g) w = (m ≫= (fun a => f a ≫= g)) w.
Proof.
  unfold mbind, M_bind. by destruct (m w) as [w' [a|x|c]].
Qed.

Lemma for_each_app {B} (body : B → M unit) (l1 l2 : list B) w :
  for_each body (l1 ++ l2) w = (for_each body l1 ≫= fun _ => for_each body l2) w.
Proof.
  revert w. induction l1 as [|b l1 IH]; intros w; [done|].
  cbn [app for_each]. rewrite bind_assoc.
  unfold mbind, M_bind. destruct (body b w) as [w' [[]|x|c]]; [apply IH|done..].
Qed.

End Steps.

(* ===================================================================== *)
(** ** Interface type filtering *)
(* ===================================================================== *)

Lemma is_vlan_type_spec (t : value) :
  is_vlan_type t = true ↔ t = VStr "vlan" ∨ t = VStr "subinterface".
Proof.
  unfold is_vlan_type, eq_str. destruct t; try (split; [done | by intros [?|?]]).
  rewrite orb_true_iff, !String.eqb_eq. split; intros [?|?]; simplify_eq; auto.
Qed.

Section InterfaceFilter.
Context {Ctl : Type}.
Variable api : Ctl → call → Ctl * response.
Implicit Types w : @world Ctl.

Lemma process_interface_other_type e idx intf w :
  has_type intf → has_vlan_type intf = false →
  process_interface api e idx intf w = (w, Normal tt).
Proof.
  intros [t Ht]. unfold has_vlan_type, process_interface. rewrite Ht.
  intros Hv. by rewrite bind_lift_Normal, Hv.
Qed.

Lemma for_each_interfaces_filter e idx (l : list value) w :
  Forall has_type l →
  for_each (process_interface api e idx) l w
  = for_each (process_interface api e idx) (List.filter has_vlan_type l) w.
Proof.
  intros Hl. revert w. induction Hl as [|intf l Hx _ IH]; intros w; [done|].
  cbn [for_each List.filter]. destruct (has_vlan_type intf) eqn:Hv.
  - cbn [for_each]. unfold mbind, M_bind.
    destruct (process_interface api e idx intf w) as [w' [[]|x|c]]; [apply IH|done..].
  - unfold mbind, M_bind. rewrite process_interface_other_type by done. apply IH.
Qed.

End InterfaceFilter.

Lemma index_interfaces_from (l : list value) (idx0 idx : gmap pykey value) :
  foldM index_interface idx0 l = Normal idx →
  ∀ k, match idx !! k with
       | Some d =>
           idx0 !! k = Some d
           ∨ (d ∈ l ∧ has_vlan_type d = true
              ∧ ∃ name, getitem d "name" = Normal name ∧ to_key name = Some k)
       | None =>
           idx0 !! k = None
           ∧ ∀ d name, d ∈ l → has_vlan_type d = true →
               getitem d "name" = Normal name → to_key name ≠ Some k
       end.
Proof.
  revert idx0. induction l as [|intf l IH]; intros idx0 Hf k.
  - cbn in Hf. simplify_eq. destruct (idx !! k); [by left|].
    split; [done|]. intros d name Hd. by apply elem_of_nil in Hd.
  - cbn [foldM] in Hf. unfold mbind, outcome_bind in Hf.
    destruct (index_interface idx0 intf) as [idx1| |] eqn:H1; try done.
    specialize (IH _ Hf k).
    unfold index_interface, mbind, outcome_bind, hash in H1.
    destruct (getitem intf "type") as [t| |] eqn:Ht; try done.
    destruct (is_vlan_type t) eqn:Hvt.
    + destruct (getitem intf "name") as [name| |] eqn:Hname; try done.
      destruct (to_key name) as [kn|] eqn:Hkn; try done. simplify_eq.
      destruct (idx !! k) as [d|].
      * destruct IH as [Hin|(Hin & Hx)].
        -- destruct (decide (kn = k)) as [->|Hne].
           ++ rewrite lookup_insert_eq in Hin. simplify_eq. right.
              split; [by left|]. split; [unfold has_vlan_type; by rewrite Ht|eauto].
           ++ rewrite lookup_insert_ne in Hin by done. by left.
        -- right. split; [by right|done].
      * destruct IH as [Hnone Hall].
        destruct (decide (kn = k)) as [->|Hne];
          [by rewrite lookup_insert_eq in Hnone|].
        rewrite lookup_insert_ne in Hnone by done. split; [done|].
        intros d n' Hd Hv Hn'. apply elem_of_cons in Hd as [->|Hd];
          [|by eapply Hall].
        rewrite Hname in Hn'. simplify_eq. congruence.
    + simplify_eq. destruct (idx !! k) as [d|].
      * destruct IH as [Hin|(Hin & Hx)]; [by left|]. right. split; [by right|done].
      * destruct IH as [Hnone Hall]. split; [done|].
        intros d n' Hd Hv Hn'. apply elem_of_cons in Hd as [->|Hd];
          [|by eapply Hall].
        unfold has_vlan_type in Hv. rewrite Ht in Hv. congruence.
Qed.

(** C9. In interface reconciliation a source interface whose type is neither
    ["vlan"] nor ["subinterface"] produces no event at all, so no write call;
    the loop over the source listing is the loop over its interfaces of those
    two types; and every entry of the destination index is a destination
    interface of one of the two types, indexed under its name. *)
Theorem only_vlan_and_subinterface_are_copied {Ctl : Type}
    (api : Ctl → call → Ctl * response) (e : env)
    (interface_list destination_interface_list : list value)
    (dst_interfaces_by_name : gmap pykey value) (w : world) :
  Forall has_type interface_list →
  index_interfaces destination_interface_list = Normal dst_interfaces_by_name →
  (∀ intf, intf ∈ interface_list → has_vlan_type intf = false →
     process_interface api e dst_interfaces_by_name intf w = (w, Normal tt))
  ∧ for_each (process_interface api e dst_interfaces_by_name) interface_list w
    = for_each (process_interface api e dst_interfaces_by_name)
        (List.filter has_vlan_type interface_list) w
  ∧ (∀ k d, dst_interfaces_by_name !! k = Some d →
       d ∈ destination_interface_list
       ∧ (getitem d "type" = Normal (VStr "vlan")
          ∨ getitem d "type" = Normal (VStr "subinterface"))
       ∧ ∃ name, getitem d "name" = Normal name ∧ to_key name = Some k).
Proof.
  intros Hl Hidx. split; [|split].
  - intros intf Hin Hv. apply process_interface_other_type; [|done].
    by eapply Forall_forall in Hl.
  - by apply for_each_interfaces_filter.
  - intros k d Hk.
    pose proof (index_interfaces_from _ _ _ Hidx k) as Hfrom. rewrite Hk in Hfrom.
    destruct Hfrom as [Hin|(Hin & Hv & Hn)]; [by rewrite lookup_empty in Hin|].
    split; [done|]. split; [|done].
    unfold has_vlan_type in Hv. destruct (getitem d "type") as [t| |]; try done.
    apply is_vlan_type_spec in Hv as [->| ->]; auto.
Qed.

(* ===================================================================== *)
(** ** Create or update by natural key *)
(* ===================================================================== *)

Lemma calls_app (t1 t2 : list event) : calls (t1 ++ t2) = calls t1 ++ calls t2.
Proof. apply omap_app. Qed.

Lemma calls_snoc_print (t : list event) m : calls (t ++ [Printed m]) = calls t.
Proof. rewrite calls_app. apply app_nil_r. Qed.

Lemma calls_snoc_detailed (t : list event) r : calls (t ++ [Detailed r]) = calls t.
Proof. rewrite calls_app. apply app_nil_r. Qed.

Lemma calls_snoc_called (t : list event) c : calls (t ++ [Called c]) = calls t ++ [c].
Proof. by rewrite calls_app. Qed.

Lemma index_routes_from (l : list value) (idx0 idx : gmap pykey value) :
  foldM index_route idx0 l = Normal idx →
  ∀ k, match idx !! k with
       | Some d =>
           idx0 !! k = Some d
           ∨ (d ∈ l ∧ ∃ prefix,
                getitem d "destination_prefix" = Normal prefix ∧ to_key prefix = Some k)
       | None =>
           idx0 !! k = None
           ∧ ∀ d prefix, d ∈ l → getitem d "destination_prefix" = Normal prefix →
               to_key prefix ≠ Some k
       end.
Proof.
  revert idx0. induction l as [|r l IH]; intros idx0 Hf k.
  - cbn in Hf. simplify_eq. destruct (idx !! k); [by left|].
    split; [done|]. intros d prefix Hd. by apply elem_of_nil in Hd.
  - cbn [foldM] in Hf. unfold mbind, outcome_bind in Hf.
    destruct (index_route idx0 r) as [idx1| |] eqn:H1; try done.
    specialize (IH _ Hf k).
    unfold index_route, mbind, outcome_bind, hash in H1.
    destruct (getitem r "destination_prefix") as [prefix| |] eqn:Hp; try done.
    destruct (to_key prefix) as [kp|] eqn:Hkp; try done. simplify_eq.
    destruct (idx !! k) as [d|].
    + destruct IH as [Hin|(Hin & Hx)].
      * destruct (decide (kp = k)) as [->|Hne].
        -- rewrite lookup_insert_eq in Hin. simplify_eq. right.
           split; [by left|eauto].
        -- rewrite lookup_insert_ne in Hin by done. by left.
      * right. split; [by right|done].
    + destruct IH as [Hnone Hall].
      destruct (decide (kp = k)) as [->|Hne]; [by rewrite lookup_insert_eq in Hnone|].
      rewrite lookup_insert_ne in Hnone by done. split; [done|].
      intros d p' Hd Hp'. apply elem_of_cons in Hd as [->|Hd]; [|by eapply Hall].
      rewrite Hp in Hp'. simplify_eq. congruence.
Qed.

Lemma getitem_truthy (d : value) (k : string) (x : value) :
  getitem d k = Normal x → truthy d = true.
Proof.
  destruct d as [| | | | |m]; try done. cbn.
  destruct (m !! k) eqn:Hk; [|done]. intros _.
  apply negb_true_iff, Nat.eqb_neq. intros Hs.
  apply map_size_empty_iff in Hs. subst m. by rewrite lookup_empty in Hk.
Qed.

Lemma getitem_py_get (d : value) (k k' : string) (x : value) :
  getitem d k = Normal x → ∃ y, py_get d k' = Normal y.
Proof. destruct d; try done. intros _. cbn. eauto. Qed.

Lemma tbl_get_Some (t : gmap pykey value) (v x : value) (k : pykey) :
  to_key v = Some k → t !! k = Some x → tbl_get t v = Normal x.
Proof. intros Hk Hx. unfold tbl_get, hash. rewrite Hk. cbn. by rewrite Hx. Qed.

Lemma tbl_get_None (t : gmap pykey value) (v : value) (k : pykey) :
  to_key v = Some k → t !! k = None → tbl_get t v = Normal VNone.
Proof. intros Hk Hx. unfold tbl_get, hash. rewrite Hk. cbn. by rewrite Hx. Qed.

Lemma rec_getitem_Some (d : record) (k : string) (x : value) :
  d !! k = Some x → rec_getitem d k = Normal x.
Proof. intros H. unfold rec_getitem. by rewrite H. Qed.

Ltac mstep :=
  repeat first
    [ rewrite bind_assoc | rewrite bind_lift_Normal | rewrite bind_mret
    | rewrite bind_print | rewrite bind_jd_detailed | rewrite bind_request ];
  cbn [ctl trace].

Ltac calls_simpl :=
  cbn [trace ctl];
  repeat first [rewrite calls_snoc_print | rewrite calls_snoc_detailed
               | rewrite calls_snoc_called].

Section Upsert.
Context {Ctl : Type}.
Variable api : Ctl → call → Ctl * response.
Implicit Types w : @world Ctl.

Lemma upsert_route_update e idx (p : record) prefix k d rid w :
  p !! "destination_prefix" = Some prefix → to_key prefix = Some k →
  idx !! k = Some d → getitem d "id" = Normal rid →
  (py_get d "_etag" = Normal VNone → is_Some (p !! "name")) →
  ∃ w', upsert_route api e idx p w = (w', Normal tt)
    ∧ calls (trace w') = calls (trace w) ++
        [PutStaticroutes (e_dst_sid e) (e_dst_eid e) rid (update_payload d p)].
Proof.
  intros Hp Hk Hd Hid Hname. unfold upsert_route.
  rewrite (rec_getitem_Some _ _ _ Hp). mstep.
  rewrite (tbl_get_Some _ _ _ _ Hk Hd). mstep. rewrite (getitem_truthy _ _ _ Hid), Hid. mstep.
  destruct (getitem_py_get _ _ "_etag" _ Hid) as [etag He].
  unfold update_payload. rewrite Hid, He. mstep.
  destruct (is_not_None etag) eqn:Hn.
  - mstep. destruct (cgx_status _); mstep; (eexists; split; [reflexivity|]).
    all: by calls_simpl.
  - destruct etag; try done. destruct (Hname He) as [name Hnm].
    rewrite (rec_getitem_Some _ _ _ Hnm). mstep.
    destruct (cgx_status _); mstep; (eexists; split; [reflexivity|]);
      by calls_simpl.
Qed.

Lemma upsert_route_create e idx (p : record) prefix k w :
  p !! "destination_prefix" = Some prefix → to_key prefix = Some k →
  idx !! k = None →
  ∃ w', upsert_route api e idx p w = (w', Normal tt)
    ∧ calls (trace w') = calls (trace w) ++
        [PostStaticroutes (e_dst_sid e) (e_dst_eid e) (create_payload p)].
Proof.
  intros Hp Hk Hd. unfold upsert_route.
  rewrite (rec_getitem_Some _ _ _ Hp). mstep.
  rewrite (tbl_get_None _ _ _ Hk Hd). mstep. cbn [truthy]. mstep.
  destruct (cgx_status _); mstep; (eexists; split; [reflexivity|]);
    by calls_simpl.
Qed.

End Upsert.

Section UpsertInterface.
Context {Ctl : Type}.
Variable api : Ctl → call → Ctl * response.
Implicit Types w : @world Ctl.

Lemma upsert_interface_update e idx (q : record) name type k d rid w :
  q !! "name" = Some name → to_key name = Some k → q !! "type" = Some type →
  idx !! k = Some d → getitem d "id" = Normal rid →
  ∃ w', upsert_interface api e idx q w = (w', Normal tt)
    ∧ calls (trace w') = calls (trace w) ++
        [PutInterfaces (e_dst_sid e) (e_dst_eid e) rid (update_payload d q)].
Proof.
  intros Hq Hk Ht Hd Hid. unfold upsert_interface.
  rewrite (rec_getitem_Some _ _ _ Hq). mstep.
  rewrite (tbl_get_Some _ _ _ _ Hk Hd). mstep.
  rewrite (getitem_truthy _ _ _ Hid), Hid. mstep.
  destruct (getitem_py_get _ _ "_etag" _ Hid) as [etag He].
  unfold update_payload. rewrite Hid, He. mstep.
  destruct (is_not_None etag) eqn:Hn; mstep.
  - rewrite (rec_getitem_Some _ _ type) by by rewrite !lookup_insert_ne.
    mstep. destruct (cgx_status _); mstep; (eexists; split; [reflexivity|]);
      by calls_simpl.
  - rewrite (rec_getitem_Some _ _ type) by by rewrite !lookup_insert_ne.
    mstep. destruct (cgx_status _); mstep; (eexists; split; [reflexivity|]);
      by calls_simpl.
Qed.

Lemma upsert_interface_create e idx (q : record) name type k w :
  q !! "name" = Some name → to_key name = Some k → q !! "type" = Some type →
  idx !! k = None →
  ∃ w', upsert_interface api e idx q w = (w', Normal tt)
    ∧ calls (trace w') = calls (trace w) ++
        [PostInterfaces (e_dst_sid e) (e_dst_eid e) (create_payload q)].
Proof.
  intros Hq Hk Ht Hd. unfold upsert_interface.
  rewrite (rec_getitem_Some _ _ _ Hq). mstep.
  rewrite (tbl_get_None _ _ _ Hk Hd). mstep. cbn [truthy]. mstep.
  rewrite (rec_getitem_Some _ _ type) by by rewrite !lookup_delete_ne.
  mstep. destruct (cgx_status _); mstep; (eexists; split; [reflexivity|]);
    by calls_simpl.
Qed.

End UpsertInterface.

Lemma update_payload_id (d : value) (p : record) (rid : value) :
  getitem d "id" = Normal rid → update_payload d p !! "id" = Some rid.
Proof.
  intros Hid. destruct (getitem_py_get _ _ "_etag" _ Hid) as [etag He].
  unfold update_payload. rewrite Hid, He. apply lookup_insert_eq.
Qed.

Lemma create_payload_no_id (p : record) :
  create_payload p !! "id" = None ∧ create_payload p !! "_etag" = None.
Proof.
  unfold create_payload. split.
  - rewrite lookup_delete_ne by done. apply lookup_delete_eq.
  - apply lookup_delete_eq.
Qed.

(** C5. A source record that reaches the create-or-update step is matched
    against the destination index by its natural key alone
    ([destination_prefix] of a route, [name] of an interface). When the index
    holds a destination record under that key, the step makes exactly one
    controller call, an update addressed to that record's id and carrying
    that id in the payload, and no create; when it holds none, which means
    that no indexed destination record has that key, the step makes exactly
    one call, a create whose payload has neither [id] nor [_etag]. Both are
    made for the destination element and site. *)
Theorem upsert_decided_by_natural_key {Ctl : Type}
    (api : Ctl → call → Ctl * response) (e : env)
    (destination_static_routes_list destination_interface_list : list value)
    (dst_routes_by_prefix dst_interfaces_by_name : gmap pykey value)
    (route_payload intf_payload : record)
    (prefix name type : value) (kp kn : pykey) (w : world) :
  index_routes destination_static_routes_list = Normal dst_routes_by_prefix →
  index_interfaces destination_interface_list = Normal dst_interfaces_by_name →
  route_payload !! "destination_prefix" = Some prefix → to_key prefix = Some kp →
  intf_payload !! "name" = Some name → to_key name = Some kn →
  intf_payload !! "type" = Some type →
  (∀ d, dst_routes_by_prefix !! kp = Some d →
     (∃ rid, getitem d "id" = Normal rid)
     ∧ (py_get d "_etag" = Normal VNone → is_Some (route_payload !! "name"))) →
  (∀ d, dst_interfaces_by_name !! kn = Some d → ∃ rid, getitem d "id" = Normal rid) →
  (∃ w', upsert_route api e dst_routes_by_prefix route_payload w = (w', Normal tt)
     ∧ match dst_routes_by_prefix !! kp with
       | Some d =>
           d ∈ destination_static_routes_list
           ∧ (∃ x, getitem d "destination_prefix" = Normal x ∧ to_key x = Some kp)
           ∧ ∃ rid payload,
               getitem d "id" = Normal rid
               ∧ calls (trace w') = calls (trace w) ++
                   [PutStaticroutes (e_dst_sid e) (e_dst_eid e) rid payload]
               ∧ payload !! "id" = Some rid
       | None =>
           (∀ d x, d ∈ destination_static_routes_list →
              getitem d "destination_prefix" = Normal x → to_key x ≠ Some kp)
           ∧ ∃ payload,
               calls (trace w') = calls (trace w) ++
                 [PostStaticroutes (e_dst_sid e) (e_dst_eid e) payload]
               ∧ payload !! "id" = None ∧ payload !! "_etag" = None
       end)
  ∧ (∃ w', upsert_interface api e dst_interfaces_by_name intf_payload w
           = (w', Normal tt)
     ∧ match dst_interfaces_by_name !! kn with
       | Some d =>
           d ∈ destination_interface_list
           ∧ (∃ x, getitem d "name" = Normal x ∧ to_key x = Some kn)
           ∧ ∃ rid payload,
               getitem d "id" = Normal rid
               ∧ calls (trace w') = calls (trace w) ++
                   [PutInterfaces (e_dst_sid e) (e_dst_eid e) rid payload]
               ∧ payload !! "id" = Some rid
       | None =>
           (∀ d x, d ∈ destination_interface_list → has_vlan_type d = true →
              getitem d "name" = Normal x → to_key x ≠ Some kn)
           ∧ ∃ payload,
               calls (trace w') = calls (trace w) ++
                 [PostInterfaces (e_dst_sid e) (e_dst_eid e) payload]
               ∧ payload !! "id" = None ∧ payload !! "_etag" = None
       end).
Proof.
  intros Hir Hii Hp Hkp Hn Hkn Hty Hwr Hwi. split.
  - pose proof (index_routes_from _ _ _ Hir kp) as Hfrom.
    destruct (dst_routes_by_prefix !! kp) as [d|] eqn:Hd.
    + destruct (Hwr d eq_refl) as [[rid Hid] Hname].
      destruct (upsert_route_update api e _ _ _ _ _ _ w Hp Hkp Hd Hid Hname)
        as (w' & Hrun & Hcalls).
      exists w'. split; [done|].
      destruct Hfrom as [Hin|[Hin Hx]]; [by rewrite lookup_empty in Hin|].
      split; [done|]. split; [done|].
      exists rid, (update_payload d route_payload).
      split; [done|]. split; [done|]. by apply update_payload_id.
    + destruct (upsert_route_create api e _ _ _ _ w Hp Hkp Hd) as (w' & Hrun & Hcalls).
      exists w'. split; [done|]. destruct Hfrom as [_ Hall]. split; [done|].
      exists (create_payload route_payload). split; [done|].
      apply create_payload_no_id.
  - pose proof (index_interfaces_from _ _ _ Hii kn) as Hfrom.
    destruct (dst_interfaces_by_name !! kn) as [d|] eqn:Hd.
    + destruct (Hwi d eq_refl) as [rid Hid].
      destruct (upsert_interface_update api e _ _ _ _ _ _ _ w Hn Hkn Hty Hd Hid)
        as (w' & Hrun & Hcalls).
      exists w'. split; [done|].
      destruct Hfrom as [Hin|(Hin & Hv & Hx)]; [by rewrite lookup_empty in Hin|].
      split; [done|]. split; [done|].
      exists rid, (update_payload d intf_payload).
      split; [done|]. split; [done|]. by apply update_payload_id.
    + destruct (upsert_interface_create api e _ _ _ _ _ w Hn Hkn Hty Hd)
        as (w' & Hrun & Hcalls).
      exists w'. split; [done|]. destruct Hfrom as [_ Hall]. split; [done|].
      exists (create_payload intf_payload). split; [done|].
      apply create_payload_no_id.
Qed.

(* ===================================================================== *)
(** ** Runs on the small site *)
(* ===================================================================== *)

(** C1. The claim: a route with an unresolvable nexthop interface leads to no
    write call and to one skip report. On the small site, copying from A to B
    the route [172.16.0.0/12], whose first nexthop is on [vlan10] (on both
    elements) and whose second is on [vlan20] (on A only), the script prints
    the skip warning once and then creates the route on B all the same. *)
Theorem route_with_unresolved_nexthop_is_written :
  let run := go (Site.controller true [Site.route_two_nexthops] [])
               "A" (Some "B") Site.w0 in
  run.2 = Normal tt
  ∧ skip_reports (trace run.1)
    = [Printed (WarnNoDstInterface (VStr "vlan20") (VStr "i7") (VStr "B")
                  (VStr "172.16.0.0/12"))]
  ∧ ∃ payload,
      List.filter is_route_write (calls (trace run.1))
      = [PostStaticroutes (VStr "sB") (VStr "eB") payload]
      ∧ payload !! "destination_prefix" = Some (VStr "172.16.0.0/12").
Proof.
  cbv zeta. split; [by vm_compute|]. split; [by vm_compute|].
  eexists. split; [by vm_compute|]. by vm_compute.
Qed.

(** C2. The claim: no [nexthop_interface_id] of a payload that is sent is an
    identifier of the source element. On the small site the route
    [10.20.0.0/16] of A, whose nexthop is interface [i7] ([vlan20] of A,
    absent from B), is created on B with [nexthop_interface_id] still [i7]. *)
Theorem source_interface_id_reaches_destination :
  let run := go (Site.controller true [Site.route_vlan20] [])
               "A" (Some "B") Site.w0 in
  (∃ payload,
      List.filter is_route_write (calls (trace run.1))
      = [PostStaticroutes (VStr "sB") (VStr "eB") payload]
      ∧ nexthop_interface_ids payload = [VStr "i7"])
  ∧ (element_interfaces_by_id Site.site_tables !! KStr "eA" ≫= (.!! KStr "i7"))
    = Some (VStr "vlan20")
  ∧ (element_interfaces_by_id Site.site_tables !! KStr "eB" ≫= (.!! KStr "i7"))
    = None
  ∧ (element_interfaces_by_name Site.site_tables !! KStr "eB" ≫= (.!! KStr "vlan20"))
    = None.
Proof.
  cbv zeta. split; [eexists; split; by vm_compute|].
  split; [by vm_compute|]. split; by vm_compute.
Qed.

(** C4. The claim: when the matched destination record has no [_etag], the
    update is sent without any. On the small site the route [10.0.0.0/8]
    exists on B without a token; the script prints its warning and sends the
    update with the [_etag] of the source record. *)
Theorem update_keeps_source_etag_when_destination_has_none :
  let run := go (Site.controller true [Site.route_ip] [Site.route_ip_B_no_etag])
               "A" (Some "B") Site.w0 in
  run.2 = Normal tt
  ∧ getitem Site.route_ip "_etag" = Normal (VInt 7)
  ∧ py_get Site.route_ip_B_no_etag "_etag" = Normal VNone
  ∧ Printed (WarnRouteNoEtag (VStr "default") (VStr "d4")) ∈ trace run.1
  ∧ ∃ payload,
      List.filter is_route_write (calls (trace run.1))
      = [PutStaticroutes (VStr "sB") (VStr "eB") (VStr "d4") payload]
      ∧ payload !! "_etag" = Some (VInt 7).
Proof.
  cbv zeta. split; [by vm_compute|]. split; [by vm_compute|].
  split; [by vm_compute|]. split.
  - apply list_elem_of_In. vm_compute. tauto.
  - eexists. split; by vm_compute.
Qed.


(** C5, as stated, fails on a surviving route that has the fields of the data
    model but no [name]. Its VRF and nexthop rewriting pass it on unchanged,
    and the destination index holds a record with its [destination_prefix],
    listed without a token. Formatting the warning of line 244 subscripts
    [route_payload['name']]: the step ends in [KeyError] and no update (and
    no other call) is issued. The same happens in a whole run. *)
Lemma matched_route_without_name_is_not_updated :
  let route_payload := sanitize (Site.fields Site.route_unnamed) in
  let dst_routes_by_prefix := Site.index_of [Site.route_ip_B_no_etag] in
  let step := upsert_route (Site.controller true [] []) Site.envAB
                dst_routes_by_prefix route_payload Site.w0 in
  let run := go (Site.controller true [Site.route_unnamed]
                   [Site.route_ip_B_no_etag])
               "A" (Some "B") Site.w0 in
  rewrite_vrf Site.envAB route_payload Site.w0
    = (Site.w0, Normal (Some route_payload))
  ∧ rewrite_nexthops Site.envAB route_payload Site.w0
    = (Site.w0, Normal route_payload)
  ∧ index_routes [Site.route_ip_B_no_etag] = Normal dst_routes_by_prefix
  ∧ route_payload !! "destination_prefix" = Some (VStr "10.0.0.0/8")
  ∧ dst_routes_by_prefix !! KStr "10.0.0.0/8" = Some Site.route_ip_B_no_etag
  ∧ getitem Site.route_ip_B_no_etag "destination_prefix"
    = Normal (VStr "10.0.0.0/8")
  ∧ step.2 = Raised KeyError ∧ calls (trace step.1) = []
  ∧ run.2 = Raised KeyError ∧ writes (trace run.1) = [].
Proof. cbv zeta. repeat split; vm_compute; reflexivity. Qed.

(* ===================================================================== *)
(** ** VRF references *)
(* ===================================================================== *)

Lemma truthy_key (a b : value) (k : pykey) :
  to_key a = Some k → to_key b = Some k → truthy a = truthy b.
Proof.
  destruct a as [|[]| | | |], b as [|[]| | | |]; cbn; intros; simplify_eq; done.
Qed.

Lemma to_key_VStr (v : value) (s : string) :
  to_key v = Some (KStr s) → v = VStr s.
Proof. destruct v as [|[]| | | |]; cbn; intros; simplify_eq; done. Qed.

Lemma add_vrf_inverse (g g' : globals) (vrf : value) :
  add_vrf g vrf = Normal g' →
  vrf_tables_inverse g →
  (∀ kn, vrf_name_key vrf = Some kn → global_name_vfr g !! kn = None) →
  vrf_tables_inverse g'
  ∧ ∃ kn, vrf_name_key vrf = Some kn
          ∧ ∀ k, k ≠ kn → global_name_vfr g' !! k = global_name_vfr g !! k.
Proof.
  unfold add_vrf, vrf_name_key, mbind, outcome_bind, hash.
  destruct (getitem vrf "name") as [name| |]; try done.
  destruct (getitem vrf "id") as [id| |]; try done.
  destruct (to_key id) as [k|] eqn:Hk; try done.
  destruct (to_key name) as [kn|] eqn:Hkn; try done.
  intros Hg Hinv Hfresh. simplify_eq. split.
  - intros k' name'. cbn [global_id_vfr global_name_vfr]. intros Hl.
    destruct (decide (k = k')) as [->|Hne].
    + rewrite lookup_insert_eq in Hl. simplify_eq.
      exists kn, id. by rewrite lookup_insert_eq.
    + rewrite lookup_insert_ne in Hl by done.
      destruct (Hinv _ _ Hl) as (kn' & new & Hkn' & Hnew & Hback).
      exists kn', new. split; [done|]. split; [|done].
      rewrite lookup_insert_ne; [done|]. intros ->.
      rewrite (Hfresh _ eq_refl) in Hnew. done.
  - exists kn. split; [done|]. intros k' Hne. cbn [global_name_vfr].
    by rewrite lookup_insert_ne.
Qed.

Lemma foldM_add_vrf_inverse (vrflist : list value) (g g' : globals) :
  foldM add_vrf g vrflist = Normal g' →
  vrf_tables_inverse g →
  NoDup (map vrf_name_key vrflist) →
  (∀ vrf kn, vrf ∈ vrflist → vrf_name_key vrf = Some kn →
     global_name_vfr g !! kn = None) →
  vrf_tables_inverse g'.
Proof.
  revert g. induction vrflist as [|vrf l IH]; intros g Hf Hinv Hnd Hfresh.
  - cbn in Hf. by simplify_eq.
  - cbn [foldM] in Hf. unfold mbind, outcome_bind in Hf.
    destruct (add_vrf g vrf) as [g1| |] eqn:H1; try done.
    destruct (add_vrf_inverse _ _ _ H1 Hinv) as (Hinv1 & kn & Hkn & Hframe).
    { intros kn0 Hkn0. eapply Hfresh; [by left|done]. }
    cbn [map] in Hnd. apply NoDup_cons in Hnd as [Hnotin Hnd].
    apply (IH g1 Hf Hinv1 Hnd).
    intros vrf' kn' Hin Hkn'. rewrite Hframe.
    + eapply Hfresh; [by right|done].
    + intros ->. apply Hnotin. rewrite Hkn, <- Hkn'.
      apply list_elem_of_fmap. by exists vrf'.
Qed.

Section VrfRewrite.
Context {Ctl : Type}.
Variable api : Ctl → call → Ctl * response.
Implicit Types w : @world Ctl.

Lemma rewrite_vrf_no_reference e (p : record) w :
  truthy (rec_get p "vrf_context_id") = false →
  rewrite_vrf e p w = (w, Normal (Some p)).
Proof. intros H. unfold rewrite_vrf. by rewrite H. Qed.

Lemma rewrite_vrf_unknown_source e (p : record) name prefix w :
  truthy (rec_get p "vrf_context_id") = true →
  tbl_get (global_id_vfr (e_tables e)) (rec_get p "vrf_context_id") = Normal name →
  truthy name = false →
  p !! "destination_prefix" = Some prefix →
  rewrite_vrf e p w
  = (mkWorld (ctl w)
       (trace w ++ [Printed (WarnVrfNoName (rec_get p "vrf_context_id") prefix)]),
     Normal None).
Proof.
  intros Hs Hn Hf Hp. unfold rewrite_vrf. rewrite Hs, Hn. mstep.
  rewrite Hf, (rec_getitem_Some _ _ _ Hp). by mstep.
Qed.

Lemma rewrite_vrf_not_global e (p : record) name new prefix w :
  truthy (rec_get p "vrf_context_id") = true →
  tbl_get (global_id_vfr (e_tables e)) (rec_get p "vrf_context_id") = Normal name →
  truthy name = true →
  tbl_get (global_name_vfr (e_tables e)) name = Normal new →
  truthy new = false →
  p !! "destination_prefix" = Some prefix →
  rewrite_vrf e p w
  = (mkWorld (ctl w)
       (trace w ++
        [Printed (WarnVrfNotGlobal name (rec_get p "vrf_context_id") prefix)]),
     Normal None).
Proof.
  intros Hs Hn Ht Hnew Hf Hp. unfold rewrite_vrf. rewrite Hs, Hn. mstep.
  rewrite Ht, Hnew. mstep. rewrite Hf, (rec_getitem_Some _ _ _ Hp). by mstep.
Qed.

Lemma rewrite_vrf_resolved e (p : record) name new w :
  truthy (rec_get p "vrf_context_id") = true →
  tbl_get (global_id_vfr (e_tables e)) (rec_get p "vrf_context_id") = Normal name →
  truthy name = true →
  tbl_get (global_name_vfr (e_tables e)) name = Normal new →
  truthy new = true →
  rewrite_vrf e p w = (w, Normal (Some (<["vrf_context_id" := new]> p))).
Proof.
  intros Hs Hn Ht Hnew Hf. unfold rewrite_vrf. rewrite Hs, Hn. mstep.
  rewrite Ht, Hnew. mstep. by rewrite Hf.
Qed.

Lemma process_route_vrf_skip e idx (d : record) w w' :
  rewrite_vrf e (sanitize d) w = (w', Normal None) →
  process_route api e idx (VDict d) w = (w', Normal tt).
Proof.
  intros H. unfold process_route. cbn [sanitize_copy]. mstep.
  unfold mbind, M_bind. by rewrite H.
Qed.

End VrfRewrite.

Lemma sanitize_keeps (d : record) (k : string) :
  k ∉ BASE_DELETE_ATTRS → sanitize d !! k = d !! k.
Proof. intros H. rewrite sanitize_lookup. by rewrite decide_False. Qed.

(** C7. A route without a VRF reference passes through with the field as it
    is. For a route with one, the source id is looked up in the global
    id-to-name table and the name in the global name-to-id table: when the
    first lookup finds nothing the route is skipped with the warning "no name
    for the source VRF id", when the second finds nothing it is skipped with
    the warning "VRF not in the global list", and a skipped route leads to no
    controller call; when both succeed the id found is written to
    [vrf_context_id]. When the two tables were filled from one VRF listing
    whose names are pairwise distinct, a source id that has a name always
    resolves, and to an id equal to itself (the same value when it is a
    string). *)
Theorem vrf_reference_round_trip {Ctl : Type}
    (api : Ctl → call → Ctl * response) (e : env) (idx : gmap pykey value)
    (route : record) (prefix : value) (w : world) :
  route !! "destination_prefix" = Some prefix →
  let source_vrf_context_id := rec_get route "vrf_context_id" in
  (truthy source_vrf_context_id = false →
     rewrite_vrf e (sanitize route) w = (w, Normal (Some (sanitize route))))
  ∧ (∀ name,
       truthy source_vrf_context_id = true →
       tbl_get (global_id_vfr (e_tables e)) source_vrf_context_id = Normal name →
       truthy name = false →
       process_route api e idx (VDict route) w
       = (mkWorld (ctl w)
            (trace w ++ [Printed (WarnVrfNoName source_vrf_context_id prefix)]),
          Normal tt))
  ∧ (∀ name new,
       truthy source_vrf_context_id = true →
       tbl_get (global_id_vfr (e_tables e)) source_vrf_context_id = Normal name →
       truthy name = true →
       tbl_get (global_name_vfr (e_tables e)) name = Normal new →
       (truthy new = false →
          process_route api e idx (VDict route) w
          = (mkWorld (ctl w)
               (trace w ++
                [Printed (WarnVrfNotGlobal name source_vrf_context_id prefix)]),
             Normal tt))
       ∧ (truthy new = true →
          rewrite_vrf e (sanitize route) w
          = (w, Normal (Some (<["vrf_context_id" := new]> (sanitize route))))))
  ∧ (∀ vrflist g0 g name,
       global_id_vfr g0 = ∅ → global_name_vfr g0 = ∅ →
       foldM add_vrf g0 vrflist = Normal g →
       NoDup (map vrf_name_key vrflist) →
       global_id_vfr (e_tables e) = global_id_vfr g →
       global_name_vfr (e_tables e) = global_name_vfr g →
       truthy source_vrf_context_id = true →
       tbl_get (global_id_vfr (e_tables e)) source_vrf_context_id = Normal name →
       truthy name = true →
       ∃ new,
         rewrite_vrf e (sanitize route) w
         = (w, Normal (Some (<["vrf_context_id" := new]> (sanitize route))))
         ∧ to_key new = to_key source_vrf_context_id
         ∧ (∀ s, source_vrf_context_id = VStr s →
              new = VStr s
              ∧ <["vrf_context_id" := new]> (sanitize route) = sanitize route)).
Proof.
  intros Hp. cbv zeta.
  assert (Hsrc : rec_get (sanitize route) "vrf_context_id"
                 = rec_get route "vrf_context_id").
  { unfold rec_get. by rewrite sanitize_keeps by compute_done. }
  assert (Hpre : sanitize route !! "destination_prefix" = Some prefix).
  { by rewrite sanitize_keeps by compute_done. }
  split; [|split; [|split]].
  - intros Hf. apply rewrite_vrf_no_reference. by rewrite Hsrc.
  - intros name Ht Hn Hf. apply process_route_vrf_skip.
    rewrite <- Hsrc. apply rewrite_vrf_unknown_source with (name := name);
      by rewrite ?Hsrc.
  - intros name new Ht Hn Hnt Hnew. split; intros Hx.
    + apply process_route_vrf_skip. rewrite <- Hsrc.
      apply rewrite_vrf_not_global with (new := new); by rewrite ?Hsrc.
    + apply rewrite_vrf_resolved with (name := name); by rewrite ?Hsrc.
  - intros vrflist g0 g name Hid0 Hname0 Hfold Hnd Hgid Hgname Ht Hn Hnt.
    assert (Hinv : vrf_tables_inverse g).
    { apply (foldM_add_vrf_inverse vrflist g0 g Hfold); [|done|].
      - intros k n. by rewrite Hid0, lookup_empty.
      - intros. by rewrite Hname0, lookup_empty. }
    pose proof Hn as Hn'. unfold tbl_get, hash in Hn'.
    destruct (to_key (rec_get route "vrf_context_id")) as [k|] eqn:Hk; [|done].
    cbn in Hn'.
    destruct (global_id_vfr (e_tables e) !! k) as [name'|] eqn:Hl;
      cbn in Hn'; [|by simplify_eq].
    assert (name' = name) as -> by congruence. clear Hn'.
    rewrite Hgid in Hl. destruct (Hinv _ _ Hl) as (kn & new & Hkn & Hnew & Hback).
    assert (Hget : tbl_get (global_name_vfr (e_tables e)) name = Normal new).
    { rewrite Hgname. by apply tbl_get_Some with (k := kn). }
    exists new. split; [|split].
    + apply rewrite_vrf_resolved with (name := name); rewrite ?Hsrc; try done.
      by rewrite (truthy_key new (rec_get route "vrf_context_id") k).
    + by rewrite Hback.
    + intros s Hs. rewrite Hs in Hk. cbn in Hk.
      assert (k = KStr s) as -> by congruence.
      apply to_key_VStr in Hback. split; [done|].
      apply insert_id. rewrite sanitize_keeps by compute_done.
      subst new. unfold rec_get in Hs.
      destruct (route !! "vrf_context_id") as [v|]; cbn in Hs; by simplify_eq.
Qed.

(* ===================================================================== *)
(** ** The translation tables *)
(* ===================================================================== *)

Lemma hashable_true (v : value) : hashable v = true → ∃ k, to_key v = Some k.
Proof. unfold hashable. destruct (to_key v); [eauto|done]. Qed.

Lemma odict_set_elem (k : pykey) (o v : value) d k' o' v' :
  (k', (o', v')) ∈ odict_set k o v d →
  (k' = k ∧ o' = o) ∨ ∃ v'', (k', (o', v'')) ∈ d.
Proof.
  induction d as [|[k0 [o0 v0]] d IH]; cbn [odict_set].
  - intros H. apply list_elem_of_singleton in H. simplify_eq. by left.
  - destruct (decide (k = k0)) as [->|Hne]; intros H.
    + apply elem_of_cons in H as [H|H].
      * simplify_eq. right. eexists. by left.
      * right. eexists. by right.
    + apply elem_of_cons in H as [H|H].
      * simplify_eq. right. eexists. by left.
      * destruct (IH H) as [?|[v'' ?]]; [by left|]. right. exists v''. by right.
Qed.

(** The shape of a successful [add_element]. *)
Lemma add_element_Normal (g g' : globals) (elem : value) :
  add_element g elem = Normal g' →
  ∃ name id k kn site model,
    getitem elem "name" = Normal name ∧ getitem elem "id" = Normal id
    ∧ to_key id = Some k ∧ to_key name = Some kn
    ∧ getitem elem "site_id" = Normal site
    ∧ getitem elem "model_name" = Normal model
    ∧ g' = {|
        elem_id_name := odict_set k id name (elem_id_name g);
        elem_name_id := <[kn := id]> (elem_name_id g);
        elemid_siteid := <[k := site]> (elemid_siteid g);
        elem_id_model := <[k := model]> (elem_id_model g);
        element_vrfs_by_id := <[k := ∅]> (element_vrfs_by_id g);
        element_vrfs_by_name := <[k := ∅]> (element_vrfs_by_name g);
        element_interfaces_by_id := <[k := ∅]> (element_interfaces_by_id g);
        element_interfaces_by_name := <[k := ∅]> (element_interfaces_by_name g);
        global_id_vfr := global_id_vfr g;
        global_name_vfr := global_name_vfr g
      |}.
Proof.
  unfold add_element, mbind, outcome_bind, hash.
  destruct (getitem elem "name") as [name| |] eqn:E1; try done.
  destruct (getitem elem "id") as [id| |] eqn:E2; try done.
  destruct (to_key id) as [k|] eqn:E3; try done.
  destruct (to_key name) as [kn|] eqn:E4; try done.
  destruct (getitem elem "site_id") as [site| |] eqn:E5; try done.
  destruct (getitem elem "model_name") as [model| |] eqn:E6; try done.
  intros H. simplify_eq. by exists name, id, k, kn, site, model.
Qed.

Lemma add_element_total (g : globals) (elem : value) :
  wf_element elem = true → ∃ g', add_element g elem = Normal g'.
Proof.
  unfold wf_element, add_element, mbind, outcome_bind, hash, hashable.
  destruct (getitem elem "name") as [name| |]; try done.
  destruct (getitem elem "id") as [id| |]; try done.
  destruct (getitem elem "site_id") as [site| |]; try done.
  destruct (getitem elem "model_name") as [model| |]; try done.
  destruct (to_key id) as [k|]; try done.
  destruct (to_key name) as [kn|]; try done. eauto.
Qed.

Lemma add_element_elements_ok (g g' : globals) (elem : value) :
  add_element g elem = Normal g' → elements_ok g → elements_ok g'.
Proof.
  intros H [Hd Hn].
  destruct (add_element_Normal _ _ _ H)
    as (name & id & k & kn & site & model & _ & _ & Hk & Hkn & _ & _ & ->).
  split.
  - intros k' o' n' Hin. cbn in Hin |- *.
    destruct (odict_set_elem _ _ _ _ _ _ _ Hin) as [[-> ->]|[v'' Hin']].
    + rewrite !lookup_insert_eq. eauto.
    + destruct (Hd _ _ _ Hin') as (? & ? & ? & ?).
      rewrite !lookup_insert_is_Some'. repeat split; eauto.
  - intros kn' id' Hl. cbn in Hl |- *.
    destruct (decide (kn = kn')) as [->|Hne].
    + rewrite lookup_insert_eq in Hl. simplify_eq. exists k.
      rewrite !lookup_insert_eq. eauto.
    + rewrite lookup_insert_ne in Hl by done.
      destruct (Hn _ _ Hl) as (k' & ? & ? & ? & ?). exists k'.
      rewrite !lookup_insert_is_Some'. repeat split; eauto.
Qed.

Lemma add_element_unpopulated (g g' : globals) (elem : value) :
  add_element g elem = Normal g' →
  interfaces_unpopulated g → interfaces_unpopulated g'.
Proof.
  intros H [Hi Hn].
  destruct (add_element_Normal _ _ _ H)
    as (name & id & k & kn & site & model & _ & _ & Hk & Hkn & _ & _ & ->).
  split; intros k' m; cbn; intros Hl;
    (destruct (decide (k = k')) as [->|Hne];
     [rewrite lookup_insert_eq in Hl; by simplify_eq
     |rewrite lookup_insert_ne in Hl by done; eauto]).
Qed.

(** The element just added has its entries, and no entry is ever lost. *)
Lemma add_element_entry (g g' : globals) (elem : value) :
  add_element g elem = Normal g' →
  (∃ id k, getitem elem "id" = Normal id ∧ to_key id = Some k
           ∧ is_Some (element_interfaces_by_id g' !! k)
           ∧ is_Some (element_interfaces_by_name g' !! k))
  ∧ (∀ k, is_Some (element_interfaces_by_id g !! k) →
          is_Some (element_interfaces_by_id g' !! k))
  ∧ (∀ k, is_Some (element_interfaces_by_name g !! k) →
          is_Some (element_interfaces_by_name g' !! k)).
Proof.
  intros H.
  destruct (add_element_Normal _ _ _ H)
    as (name & id & k & kn & site & model & _ & Hid & Hk & Hkn & _ & _ & ->).
  cbn. split; [|split].
  - exists id, k. rewrite !lookup_insert_eq. eauto.
  - intros k'. rewrite lookup_insert_is_Some'. eauto.
  - intros k'. rewrite lookup_insert_is_Some'. eauto.
Qed.

Lemma foldM_add_element (elemlist : list value) (g g' : globals) :
  foldM add_element g elemlist = Normal g' →
  (elements_ok g → elements_ok g')
  ∧ (interfaces_unpopulated g → interfaces_unpopulated g')
  ∧ (∀ k, is_Some (element_interfaces_by_id g !! k) →
          is_Some (element_interfaces_by_id g' !! k))
  ∧ (∀ k, is_Some (element_interfaces_by_name g !! k) →
          is_Some (element_interfaces_by_name g' !! k))
  ∧ (∀ elem, elem ∈ elemlist →
       ∃ id k, getitem elem "id" = Normal id ∧ to_key id = Some k
               ∧ is_Some (element_interfaces_by_id g' !! k)
               ∧ is_Some (element_interfaces_by_name g' !! k)).
Proof.
  revert g. induction elemlist as [|elem l IH]; intros g Hf.
  - cbn in Hf. simplify_eq. do 4 (split; [done|]).
    intros elem Hel. by apply elem_of_nil in Hel.
  - cbn [foldM] in Hf. unfold mbind, outcome_bind in Hf.
    destruct (add_element g elem) as [g1| |] eqn:H1; try done.
    destruct (IH _ Hf) as (Hok & Hun & Hi & Hn & Hall).
    destruct (add_element_entry _ _ _ H1) as ((id & k & Hid & Hk & Hik & Hnk) & Hi1 & Hn1).
    split; [|split; [|split; [|split]]].
    + intros ?. apply Hok. by eapply add_element_elements_ok.
    + intros ?. apply Hun. by eapply add_element_unpopulated.
    + intros k0 ?. by apply Hi, Hi1.
    + intros k0 ?. by apply Hn, Hn1.
    + intros x Hx. apply elem_of_cons in Hx as [->|Hx]; [|by apply Hall].
      exists id, k. split; [done|]. split; [done|]. split; [by apply Hi|by apply Hn].
Qed.

Lemma foldM_total {A B} (f : A → B → outcome A) (ok : B → bool) (l : list B) :
  (∀ a b, ok b = true → ∃ a', f a b = Normal a') →
  Forall (fun b => ok b = true) l →
  ∀ a, ∃ a', foldM f a l = Normal a'.
Proof.
  intros Hf Hl. induction Hl as [|b l Hb _ IH]; intros a; cbn [foldM]; [eauto|].
  destruct (Hf a b Hb) as [a' ->]. apply IH.
Qed.

Lemma elements_ok_ext (g g' : globals) :
  elem_id_name g' = elem_id_name g → elem_name_id g' = elem_name_id g →
  elemid_siteid g' = elemid_siteid g →
  (∀ k, is_Some (element_interfaces_by_id g !! k) →
        is_Some (element_interfaces_by_id g' !! k)) →
  (∀ k, is_Some (element_interfaces_by_name g !! k) →
        is_Some (element_interfaces_by_name g' !! k)) →
  elements_ok g → elements_ok g'.
Proof.
  intros E1 E2 E3 Hi Hn [Hd Hm]. split.
  - intros k o name. rewrite E1, E3. intros Hin.
    destruct (Hd _ _ _ Hin) as (? & ? & ? & ?). repeat split; eauto.
  - intros kn id. rewrite E2, E3. intros Hl.
    destruct (Hm _ _ Hl) as (k & ? & ? & ? & ?). exists k. repeat split; eauto.
Qed.

(** The VRF loop touches the two VRF tables only. *)
Lemma add_vrf_keeps (g g' : globals) (vrf : value) :
  add_vrf g vrf = Normal g' →
  elem_id_name g' = elem_id_name g ∧ elem_name_id g' = elem_name_id g
  ∧ elemid_siteid g' = elemid_siteid g
  ∧ element_interfaces_by_id g' = element_interfaces_by_id g
  ∧ element_interfaces_by_name g' = element_interfaces_by_name g.
Proof.
  unfold add_vrf, mbind, outcome_bind, hash.
  destruct (getitem vrf "name") as [name| |]; try done.
  destruct (getitem vrf "id") as [id| |]; try done.
  destruct (to_key id) as [k|]; try done.
  destruct (to_key name) as [kn|]; try done.
  intros H. by simplify_eq.
Qed.

Lemma foldM_add_vrf_keeps (vrflist : list value) (g g' : globals) :
  foldM add_vrf g vrflist = Normal g' →
  elem_id_name g' = elem_id_name g ∧ elem_name_id g' = elem_name_id g
  ∧ elemid_siteid g' = elemid_siteid g
  ∧ element_interfaces_by_id g' = element_interfaces_by_id g
  ∧ element_interfaces_by_name g' = element_interfaces_by_name g.
Proof.
  revert g. induction vrflist as [|vrf l IH]; intros g Hf.
  - cbn in Hf. by simplify_eq.
  - cbn [foldM] in Hf. unfold mbind, outcome_bind in Hf.
    destruct (add_vrf g vrf) as [g1| |] eqn:H1; try done.
    destruct (add_vrf_keeps _ _ _ H1) as (A1 & A2 & A3 & A4 & A5).
    destruct (IH _ Hf) as (B1 & B2 & B3 & B4 & B5). repeat split; congruence.
Qed.

Lemma add_vrf_total (g : globals) (vrf : value) :
  wf_named vrf = true → ∃ g', add_vrf g vrf = Normal g'.
Proof.
  unfold wf_named, add_vrf, mbind, outcome_bind, hash, hashable.
  destruct (getitem vrf "name") as [name| |]; try done.
  destruct (getitem vrf "id") as [id| |]; try done.
  destruct (to_key id) as [k|]; try done.
  destruct (to_key name) as [kn|]; try done. eauto.
Qed.

Lemma interfaces_added_for_refl (k : pykey) (g : globals) :
  interfaces_added_for k g g.
Proof. by repeat split. Qed.

Lemma interfaces_added_for_trans (k : pykey) (g1 g2 g3 : globals) :
  interfaces_added_for k g1 g2 → interfaces_added_for k g2 g3 →
  interfaces_added_for k g1 g3.
Proof.
  intros ((A1 & A2 & A3 & A4 & A5) & Af & Ai & An)
         ((B1 & B2 & B3 & B4 & B5) & Bf & Bi & Bn).
  split; [|split; [|split]].
  - repeat split; congruence.
  - intros k' Hne. destruct (Af k' Hne) as [<- <-]. by apply Bf.
  - eauto.
  - eauto.
Qed.

Lemma add_interface_added (k : pykey) (g g' : globals) (intf : value) :
  add_interface k g intf = Normal g' → interfaces_added_for k g g'.
Proof.
  unfold add_interface, mbind, outcome_bind, hash.
  destruct (getitem intf "name") as [name| |]; try done.
  destruct (element_interfaces_by_id g !! k) as [t|] eqn:Ht; try done.
  destruct (getitem intf "id") as [id| |]; try done.
  destruct (to_key id) as [ki|]; try done.
  destruct (element_interfaces_by_name g !! k) as [tn|] eqn:Htn; try done.
  destruct (to_key name) as [kn|]; try done.
  intros H. simplify_eq. split; [by repeat split|]. cbn. split; [|split].
  - intros k' Hne. by rewrite !lookup_insert_ne.
  - intros _. by rewrite lookup_insert_eq.
  - intros _. by rewrite lookup_insert_eq.
Qed.

Lemma foldM_add_interface_added (k : pykey) (l : list value) (g g' : globals) :
  foldM (add_interface k) g l = Normal g' → interfaces_added_for k g g'.
Proof.
  revert g. induction l as [|intf l IH]; intros g Hf.
  - cbn in Hf. simplify_eq. apply interfaces_added_for_refl.
  - cbn [foldM] in Hf. unfold mbind, outcome_bind in Hf.
    destruct (add_interface k g intf) as [g1| |] eqn:H1; try done.
    eapply interfaces_added_for_trans; [by eapply add_interface_added|by apply IH].
Qed.

Lemma add_interface_total (k : pykey) (g : globals) (intf : value) :
  wf_named intf = true →
  is_Some (element_interfaces_by_id g !! k) →
  is_Some (element_interfaces_by_name g !! k) →
  ∃ g', add_interface k g intf = Normal g'.
Proof.
  unfold wf_named, add_interface, mbind, outcome_bind, hash, hashable.
  intros Hwf [t ->] [tn ->].
  destruct (getitem intf "name") as [name| |]; try done.
  destruct (getitem intf "id") as [id| |]; try done.
  destruct (to_key id) as [ki|]; try done.
  destruct (to_key name) as [kn|]; try done. eauto.
Qed.

Lemma foldM_add_interface_total (k : pykey) (l : list value) (g : globals) :
  Forall (fun intf => wf_named intf = true) l →
  is_Some (element_interfaces_by_id g !! k) →
  is_Some (element_interfaces_by_name g !! k) →
  ∃ g', foldM (add_interface k) g l = Normal g'.
Proof.
  intros Hl. revert g. induction Hl as [|intf l Hx _ IH]; intros g Hi Hn;
    cbn [foldM]; [eauto|].
  destruct (add_interface_total k g intf Hx Hi Hn) as [g1 H1]. rewrite H1.
  destruct (add_interface_added _ _ _ _ H1) as (_ & _ & Hi1 & Hn1).
  apply IH; eauto.
Qed.

Section CreateDicts.
Context {Ctl : Type}.
Variable api : Ctl → call → Ctl * response.
Implicit Types w : @world Ctl.

Lemma bind_Normal_inv {A B} (m : M A) (f : A → M B) w w' (b : B) :
  (m ≫= f) w = (w', Normal b) →
  ∃ w1 a, m w = (w1, Normal a) ∧ f a w1 = (w', Normal b).
Proof.
  unfold mbind, M_bind. destruct (m w) as [w1 [a|x|c]]; try done. eauto.
Qed.

Lemma interfaces_loaded_refl (g : globals) : interfaces_loaded api g g.
Proof. by repeat split. Qed.

Lemma interfaces_loaded_trans (g1 g2 g3 : globals) :
  interfaces_loaded api g1 g2 → interfaces_loaded api g2 g3 →
  interfaces_loaded api g1 g3.
Proof.
  intros ((A1 & A2 & A3 & A4 & A5) & Ai & An & Au)
         ((B1 & B2 & B3 & B4 & B5) & Bi & Bn & Bu).
  split; [|split; [|split]].
  - repeat split; congruence.
  - eauto.
  - eauto.
  - intros k Hk. destruct (Au k Hk) as [<- <-]. apply Bu.
    destruct Hk as [?|Hs]; [by left|]. right. unfold siteless in *. by rewrite A3.
Qed.

Lemma interfaces_added_loaded (k : pykey) (g g' : globals) :
  interfaces_added_for k g g' →
  ¬ listing_fails api k → ¬ siteless g k →
  interfaces_loaded api g g'.
Proof.
  intros (Hsame & Hf & Hi & Hn) Hnf Hns. split; [done|]. split; [|split].
  - intros k'. destruct (decide (k' = k)) as [->|Hne]; [done|].
    by destruct (Hf k' Hne) as [-> _].
  - intros k'. destruct (decide (k' = k)) as [->|Hne]; [done|].
    by destruct (Hf k' Hne) as [_ ->].
  - intros k' Hk'. apply Hf. intros ->. by destruct Hk'.
Qed.

(** One turn of the interface loop. *)
Lemma load_element_interfaces_loaded (g g' : globals) (it : value * value) w w' :
  load_element_interfaces api g it w = (w', Normal g') →
  interfaces_loaded api g g'.
Proof.
  destruct it as [o name]. unfold load_element_interfaces, tbl_get, hash.
  destruct (to_key o) as [k|] eqn:Hk; [|done]. cbn [mbind outcome_bind].
  rewrite bind_lift_Normal.
  destruct (truthy (default VNone (elemid_siteid g !! k))) eqn:Hs.
  - rewrite bind_request. cbn [ctl trace].
    destruct (cgx_status _) eqn:Hst.
    + rewrite bind_lift_Normal. unfold lift.
      destruct (foldM (add_interface k) g _) as [g1| |] eqn:Hf; try done.
      intros H. simplify_eq.
      apply (interfaces_added_loaded k); [by eapply foldM_add_interface_added| |].
      * intros Hfail. rewrite (Hfail _ _ _ Hk) in Hst. done.
      * unfold siteless. by rewrite Hs.
    + rewrite bind_print, bind_jd_detailed. unfold mret, M_ret.
      intros H. simplify_eq. apply interfaces_loaded_refl.
  - rewrite bind_print. unfold mret, M_ret. intros H. simplify_eq.
    apply interfaces_loaded_refl.
Qed.

Lemma load_element_interfaces_total (g : globals) (o name : value) (k : pykey) w :
  (∀ c site_id x,
     Forall (fun intf => wf_named intf = true)
       (items (api c (GetInterfaces site_id x)).2)) →
  to_key o = Some k →
  is_Some (element_interfaces_by_id g !! k) →
  is_Some (element_interfaces_by_name g !! k) →
  ∃ w' g', load_element_interfaces api g (o, name) w = (w', Normal g').
Proof.
  intros Hwf Hk Hi Hn. unfold load_element_interfaces, tbl_get, hash.
  rewrite Hk. cbn [mbind outcome_bind]. rewrite bind_lift_Normal.
  destruct (truthy _).
  - rewrite bind_request. cbn [ctl trace]. destruct (cgx_status _).
    + rewrite bind_lift_Normal. unfold lift.
      match goal with
      | |- context [foldM (add_interface k) g ?l] =>
          destruct (foldM_add_interface_total k l g (Hwf _ _ _) Hi Hn) as [g' ->]
      end. eauto.
    + rewrite bind_print, bind_jd_detailed. unfold mret, M_ret. eauto.
  - rewrite bind_print. unfold mret, M_ret. eauto.
Qed.

Lemma for_fold_interfaces_loaded (l : list (value * value)) (g g' : globals) w w' :
  for_fold (load_element_interfaces api) g l w = (w', Normal g') →
  interfaces_loaded api g g'.
Proof.
  revert g w. induction l as [|it l IH]; intros g w; cbn [for_fold].
  - intros H. cbv in H. simplify_eq. apply interfaces_loaded_refl.
  - intros H. apply bind_Normal_inv in H as (w1 & g1 & H1 & H2).
    eapply interfaces_loaded_trans;
      [by eapply load_element_interfaces_loaded|by eapply IH].
Qed.


Lemma load_elements_Normal (g g1 : globals) w w1 :
  load_elements api g w = (w1, Normal g1) →
  cgx_status (api (ctl w) GetElements).2 = true
  ∧ foldM add_element g (items (api (ctl w) GetElements).2) = Normal g1.
Proof.
  unfold load_elements. rewrite bind_request. cbn [ctl trace].
  destruct (cgx_status _).
  - unfold lift. intros H. by simplify_eq.
  - rewrite bind_print, bind_jd_detailed. unfold sys_exit, lift. done.
Qed.


Lemma load_vrfs_Normal (g g1 : globals) w w1 :
  load_vrfs api g w = (w1, Normal g1) →
  cgx_status (api (ctl w) GetVrfcontexts).2 = true
  ∧ foldM add_vrf g (items (api (ctl w) GetVrfcontexts).2) = Normal g1.
Proof.
  unfold load_vrfs. rewrite bind_request. cbn [ctl trace].
  destruct (cgx_status _).
  - unfold lift. intros H. by simplify_eq.
  - rewrite bind_print, bind_jd_detailed. unfold sys_exit, lift. done.
Qed.


Lemma elements_ok_initial : elements_ok initial_globals.
Proof.
  split.
  - intros k o name H. by apply elem_of_nil in H.
  - intros kn id H. cbn in H. by rewrite lookup_empty in H.
Qed.



End CreateDicts.


Section Resolve.
Context {Ctl : Type}.
Implicit Types w : @world Ctl.

Lemma lift_Normal_inv {A} (o : outcome A) w w' (a : A) :
  lift o w = (w', Normal a) → o = Normal a ∧ w' = w.
Proof. unfold lift. intros H. by simplify_eq. Qed.

Lemma resolve_elements_Normal (g : globals) (src dst : value) w1 w2 e src_sid :
  resolve_elements g src dst w1 = (w2, Normal (e, src_sid)) →
  e_tables e = g
  ∧ tbl_getitem (elem_name_id g) src = Normal (e_src_eid e)
  ∧ tbl_getitem (elem_name_id g) dst = Normal (e_dst_eid e)
  ∧ tbl_getitem (elemid_siteid g) (e_src_eid e) = Normal src_sid
  ∧ tbl_getitem (elemid_siteid g) (e_dst_eid e) = Normal (e_dst_sid e).
Proof.
  unfold resolve_elements. intros H.
  apply bind_Normal_inv in H as (wa & a & Ha & H).
  apply bind_Normal_inv in H as (wb & b & Hb & H).
  apply bind_Normal_inv in H as (wc & c & Hc & H).
  apply bind_Normal_inv in H as (wd & d & Hd & H).
  apply bind_Normal_inv in H as (we & src_eid & He & H).
  apply bind_Normal_inv in H as (wf & ssid & Hf & H).
  apply bind_Normal_inv in H as (wg & dst_eid & Hg & H).
  apply bind_Normal_inv in H as (wh & dst_sid & Hh & H).
  apply bind_Normal_inv in H as (wi & i & Hi & H).
  apply lift_Normal_inv in He as [He _], Hf as [Hf _], Hg as [Hg _], Hh as [Hh _].
  cbv [mret M_ret] in H. simplify_eq. by cbn.
Qed.

Lemma tbl_getitem_Normal {A} (t : gmap pykey A) (v : value) (x : A) :
  tbl_getitem t v = Normal x → ∃ k, to_key v = Some k ∧ t !! k = Some x.
Proof.
  unfold tbl_getitem, hash. destruct (to_key v) as [k|]; [|done].
  cbn. destruct (t !! k) eqn:E; [|done]. intros H. simplify_eq. eauto.
Qed.

Lemma tbl_getitem_Some {A} (t : gmap pykey A) (v : value) (k : pykey) (x : A) :
  to_key v = Some k → t !! k = Some x → tbl_getitem t v = Normal x.
Proof. intros Hk Hx. unfold tbl_getitem, hash. rewrite Hk. cbn. by rewrite Hx. Qed.


End Resolve.


(* ===================================================================== *)
(** ** The loops on well-formed records *)
(* ===================================================================== *)

Lemma all_hashable_lookup (t : gmap pykey value) (k : pykey) (v : value) :
  all_hashable t = true → t !! k = Some v → hashable v = true.
Proof.
  unfold all_hashable. rewrite forallb_forall. intros H Hl.
  apply (H (k, v)). apply list_elem_of_In. by apply elem_of_map_to_list.
Qed.

Lemma index_ok_lookup (idx : gmap pykey value) (k : pykey) (d : value) :
  index_ok idx = true → idx !! k = Some d → ∃ rid, getitem d "id" = Normal rid.
Proof.
  unfold index_ok. rewrite forallb_forall. intros H Hl.
  specialize (H (k, d)). cbn in H.
  destruct (getitem d "id"); [eauto| |];
    by (discriminate H; apply list_elem_of_In, elem_of_map_to_list).
Qed.

Lemma tbl_get_hashable (t : gmap pykey value) (v : value) :
  hashable v = true → all_hashable t = true →
  ∃ x, tbl_get t v = Normal x ∧ (truthy x = true → hashable x = true).
Proof.
  intros Hv Ht. apply hashable_true in Hv as [k Hk].
  destruct (t !! k) as [x|] eqn:Hl.
  - exists x. split; [by eapply tbl_get_Some|]. intros _.
    by eapply all_hashable_lookup.
  - exists VNone. split; [by eapply tbl_get_None|done].
Qed.

Lemma tbl_get_total (t : gmap pykey value) (v : value) :
  hashable v = true → ∃ x, tbl_get t v = Normal x.
Proof.
  intros Hv. apply hashable_true in Hv as [k Hk].
  unfold tbl_get, hash. rewrite Hk. cbn. eauto.
Qed.

Section Loops.
Context {Ctl : Type}.
Variable api : Ctl → call → Ctl * response.
Implicit Types w : @world Ctl.

Lemma rewrite_vrf_total e (p : record) prefix w :
  all_hashable (global_id_vfr (e_tables e)) = true →
  hashable (rec_get p "vrf_context_id") = true →
  p !! "destination_prefix" = Some prefix →
  ∃ w' r, rewrite_vrf e p w = (w', Normal r)
    ∧ calls (trace w') = calls (trace w)
    ∧ match r with
      | Some p' =>
          vrf_resolves_rec (e_tables e) p = true
          ∧ ∀ k, k ≠ "vrf_context_id" → p' !! k = p !! k
      | None => vrf_resolves_rec (e_tables e) p = false
      end.
Proof.
  intros Hg Hh Hp. unfold rewrite_vrf, vrf_resolves_rec.
  destruct (truthy (rec_get p "vrf_context_id")) eqn:Hs.
  - destruct (tbl_get_hashable _ _ Hh Hg) as (name & -> & Hname). mstep.
    destruct (truthy name) eqn:Hn.
    + destruct (tbl_get_total (global_name_vfr (e_tables e)) name (Hname eq_refl))
        as [new ->]. mstep. cbn [andb].
      destruct (truthy new) eqn:Hnew.
      * eexists _, _. split; [reflexivity|]. split; [done|]. split; [done|].
        intros k Hk. by rewrite lookup_insert_ne.
      * rewrite (rec_getitem_Some _ _ _ Hp). mstep.
        eexists _, _. split; [reflexivity|]. split; [by calls_simpl|done].
    + rewrite (rec_getitem_Some _ _ _ Hp). mstep.
      eexists _, _. split; [reflexivity|]. split; [by calls_simpl|done].
  - eexists _, _. split; [reflexivity|]. by repeat split.
Qed.

Lemma rewrite_nexthop_total e (route_payload : record) prefix nexthop w :
  env_ok e = true → wf_nexthop nexthop = true →
  route_payload !! "destination_prefix" = Some prefix →
  ∃ w' nexthop', rewrite_nexthop e route_payload nexthop w = (w', Normal nexthop')
    ∧ calls (trace w') = calls (trace w).
Proof.
  unfold env_ok, wf_nexthop. intros He Hn Hp.
  apply andb_true_iff in He as [_ He].
  destruct (tbl_getitem (element_interfaces_by_id _) _) as [by_id| |] eqn:Hi; try done.
  destruct (tbl_getitem (element_interfaces_by_name _) _) as [by_name| |] eqn:Hnm;
    try done.
  destruct nexthop as [| | | | |m]; try done.
  unfold rewrite_nexthop. cbn [py_get]. mstep.
  destruct (truthy (rec_get m "nexthop_interface_id")) eqn:Hs.
  - rewrite Hi. mstep.
    destruct (tbl_get_hashable _ _ Hn He) as (name & -> & Hname). mstep.
    destruct (truthy name) eqn:Htn.
    + rewrite Hnm. mstep.
      destruct (tbl_get_total by_name name (Hname eq_refl)) as [new ->]. mstep.
      destruct (truthy new).
      * eexists _, _. split; [reflexivity|done].
      * rewrite (rec_getitem_Some _ _ _ Hp). mstep.
        eexists _, _. split; [reflexivity|by calls_simpl].
    + rewrite (rec_getitem_Some _ _ _ Hp). mstep.
      eexists _, _. split; [reflexivity|by calls_simpl].
  - eexists _, _. split; [reflexivity|done].
Qed.

Lemma for_update_nexthops_total e (route_payload : record) prefix (l : list value) w :
  env_ok e = true → forallb wf_nexthop l = true →
  route_payload !! "destination_prefix" = Some prefix →
  ∃ w' l', for_update (rewrite_nexthop e route_payload) l w = (w', Normal l')
    ∧ calls (trace w') = calls (trace w).
Proof.
  intros He Hl Hp. revert w. induction l as [|nh l IH]; intros w; cbn [for_update].
  - eexists _, _. split; [reflexivity|done].
  - cbn [forallb] in Hl. apply andb_true_iff in Hl as [Hnh Hl].
    destruct (rewrite_nexthop_total e route_payload prefix nh w He Hnh Hp)
      as (w1 & nh' & H1 & Hc1).
    destruct (IH Hl w1) as (w2 & l' & H2 & Hc2).
    unfold mbind at 1, M_bind at 1. rewrite H1.
    unfold mbind at 1, M_bind at 1. rewrite H2.
    eexists _, _. split; [reflexivity|congruence].
Qed.

Lemma rewrite_nexthops_total e (p : record) prefix w :
  env_ok e = true → wf_nexthops (rec_get p "nexthops") = true →
  p !! "destination_prefix" = Some prefix →
  ∃ w' p', rewrite_nexthops e p w = (w', Normal p')
    ∧ calls (trace w') = calls (trace w)
    ∧ ∀ k, k ≠ "nexthops" → p' !! k = p !! k.
Proof.
  intros He Hn Hp. unfold rewrite_nexthops.
  destruct (truthy (rec_get p "nexthops")) eqn:Ht.
  - unfold wf_nexthops in Hn.
    destruct (rec_get p "nexthops") as [| | | |l|]; try by rewrite Ht in Hn.
    cbn [nexthops_of]. mstep.
    destruct (for_update_nexthops_total e p prefix l w He Hn Hp) as (w1 & l' & H1 & Hc).
    unfold mbind, M_bind. rewrite H1.
    eexists _, _. split; [reflexivity|]. split; [done|].
    intros k Hk. by rewrite lookup_insert_ne.
  - eexists _, _. split; [reflexivity|]. by split.
Qed.


Lemma upsert_route_wf e idx (p : record) prefix name w :
  index_ok idx = true →
  p !! "destination_prefix" = Some prefix → hashable prefix = true →
  p !! "name" = Some name →
  ∃ w' c, upsert_route api e idx p w = (w', Normal tt)
    ∧ calls (trace w') = calls (trace w) ++ [c] ∧ is_write c = true.
Proof.
  intros Hidx Hp Hh Hn. apply hashable_true in Hh as [k Hk].
  destruct (idx !! k) as [d|] eqn:Hd.
  - destruct (index_ok_lookup _ _ _ Hidx Hd) as [rid Hid].
    destruct (upsert_route_update api e idx p prefix k d rid w Hp Hk Hd Hid)
      as (w' & Hrun & Hc); [by eauto|].
    by eexists _, _.
  - destruct (upsert_route_create api e idx p prefix k w Hp Hk Hd)
      as (w' & Hrun & Hc).
    by eexists _, _.
Qed.

Lemma process_route_wf e idx (route : value) w :
  env_ok e = true → index_ok idx = true → wf_route route = true →
  ∃ w' cs, process_route api e idx route w = (w', Normal tt)
    ∧ calls (trace w') = calls (trace w) ++ cs
    ∧ forallb is_write cs = true
    ∧ length cs = (if vrf_resolves (e_tables e) route then 1 else 0)%nat.
Proof.
  intros He Hidx Hr. destruct route as [| | | | |d]; try done.
  unfold wf_route in Hr.
  destruct (d !! "destination_prefix") as [prefix|] eqn:Hp; [|done].
  destruct (d !! "name") as [name|] eqn:Hn; [|done].
  apply andb_true_iff in Hr as [Hr Hnh]. apply andb_true_iff in Hr as [Hhp Hhv].
  assert (Hg : all_hashable (global_id_vfr (e_tables e)) = true).
  { unfold env_ok in He. by apply andb_true_iff in He as [? _]. }
  assert (Sp : sanitize d !! "destination_prefix" = Some prefix)
    by by rewrite sanitize_keeps by compute_done.
  assert (Sn : sanitize d !! "name" = Some name)
    by by rewrite sanitize_keeps by compute_done.
  assert (Sv : rec_get (sanitize d) "vrf_context_id" = rec_get d "vrf_context_id").
  { unfold rec_get. by rewrite sanitize_keeps by compute_done. }
  assert (Sh : rec_get (sanitize d) "nexthops" = rec_get d "nexthops").
  { unfold rec_get. by rewrite sanitize_keeps by compute_done. }
  assert (Svr : vrf_resolves_rec (e_tables e) (sanitize d)
                = vrf_resolves_rec (e_tables e) d).
  { unfold vrf_resolves_rec. by rewrite Sv. }
  unfold process_route. cbn [sanitize_copy vrf_resolves]. mstep.
  destruct (rewrite_vrf_total e (sanitize d) prefix w Hg) as (w1 & r & H1 & Hc1 & Hres);
    [by rewrite Sv|done|].
  unfold mbind at 1, M_bind at 1. rewrite H1. rewrite <- Svr.
  destruct r as [p1|].
  - destruct Hres as [-> Hsame].
    destruct (rewrite_nexthops_total e p1 prefix w1 He) as (w2 & p2 & H2 & Hc2 & Hsame2).
    { unfold rec_get. rewrite Hsame by done. fold (rec_get (sanitize d) "nexthops").
      by rewrite Sh. }
    { by rewrite Hsame. }
    unfold mbind at 1, M_bind at 1. rewrite H2.
    destruct (upsert_route_wf e idx p2 prefix name w2 Hidx) as (w3 & c & H3 & Hc3 & Hw).
    { by rewrite Hsame2, Hsame. }
    { done. }
    { by rewrite Hsame2, Hsame. }
    exists w3, [c]. split; [done|]. split; [congruence|].
    cbn. by rewrite Hw.
  - rewrite Hres. exists w1, []. split; [done|]. rewrite app_nil_r. done.
Qed.

Lemma for_each_routes_wf e idx (routes : list value) w :
  env_ok e = true → index_ok idx = true →
  Forall (fun r => wf_route r = true) routes →
  ∃ w' cs, for_each (process_route api e idx) routes w = (w', Normal tt)
    ∧ calls (trace w') = calls (trace w) ++ cs
    ∧ forallb is_write cs = true
    ∧ length cs = length (List.filter (vrf_resolves (e_tables e)) routes).
Proof.
  intros He Hidx Hl. revert w. induction Hl as [|r l Hr _ IH]; intros w.
  - exists w, []. split; [done|]. by rewrite app_nil_r.
  - destruct (process_route_wf e idx r w He Hidx Hr) as (w1 & cs1 & H1 & Hc1 & Hw1 & Hn1).
    destruct (IH w1) as (w2 & cs2 & H2 & Hc2 & Hw2 & Hn2).
    cbn [for_each]. unfold mbind, M_bind. rewrite H1.
    exists w2, (cs1 ++ cs2). split; [done|]. split.
    { rewrite Hc2, Hc1. by rewrite app_assoc. }
    split.
    { rewrite forallb_app. by rewrite Hw1, Hw2. }
    rewrite length_app, Hn1, Hn2. cbn [List.filter].
    by destruct (vrf_resolves (e_tables e) r).
Qed.

Lemma process_interface_wf e idx (intf : value) w :
  index_ok idx = true → wf_interface intf = true →
  ∃ w' cs, process_interface api e idx intf w = (w', Normal tt)
    ∧ calls (trace w') = calls (trace w) ++ cs
    ∧ forallb is_write cs = true
    ∧ length cs = (if has_vlan_type intf then 1 else 0)%nat.
Proof.
  intros Hidx Hi. destruct intf as [| | | | |d]; try done.
  unfold wf_interface in Hi. unfold process_interface, has_vlan_type.
  cbn [getitem]. destruct (d !! "type") as [t|] eqn:Ht; [|done]. mstep.
  destruct (is_vlan_type t) eqn:Hv.
  - destruct (d !! "name") as [name|] eqn:Hn; [|done].
    apply hashable_true in Hi as [k Hk].
    cbn [sanitize_copy]. mstep.
    assert (Sn : sanitize d !! "name" = Some name)
      by by rewrite sanitize_keeps by compute_done.
    assert (St : sanitize d !! "type" = Some t)
      by by rewrite sanitize_keeps by compute_done.
    destruct (idx !! k) as [x|] eqn:Hx.
    + destruct (index_ok_lookup _ _ _ Hidx Hx) as [rid Hid].
      destruct (upsert_interface_update api e idx _ _ _ _ _ _ w Sn Hk St Hx Hid)
        as (w' & Hrun & Hc).
      exists w', [PutInterfaces (e_dst_sid e) (e_dst_eid e) rid
                    (update_payload x (sanitize d))].
      by repeat split.
    + destruct (upsert_interface_create api e idx _ _ _ _ w Sn Hk St Hx)
        as (w' & Hrun & Hc).
      exists w', [PostInterfaces (e_dst_sid e) (e_dst_eid e)
                    (create_payload (sanitize d))].
      by repeat split.
  - exists w, []. split; [done|]. by rewrite app_nil_r.
Qed.

Lemma for_each_interfaces_wf e idx (intfs : list value) w :
  index_ok idx = true →
  Forall (fun i => wf_interface i = true) intfs →
  ∃ w' cs, for_each (process_interface api e idx) intfs w = (w', Normal tt)
    ∧ calls (trace w') = calls (trace w) ++ cs
    ∧ forallb is_write cs = true
    ∧ length cs = length (List.filter has_vlan_type intfs).
Proof.
  intros Hidx Hl. revert w. induction Hl as [|r l Hr _ IH]; intros w.
  - exists w, []. split; [done|]. by rewrite app_nil_r.
  - destruct (process_interface_wf e idx r w Hidx Hr) as (w1 & cs1 & H1 & Hc1 & Hw1 & Hn1).
    destruct (IH w1) as (w2 & cs2 & H2 & Hc2 & Hw2 & Hn2).
    cbn [for_each]. unfold mbind, M_bind. rewrite H1.
    exists w2, (cs1 ++ cs2). split; [done|]. split.
    { rewrite Hc2, Hc1. by rewrite app_assoc. }
    split.
    { rewrite forallb_app. by rewrite Hw1, Hw2. }
    rewrite length_app, Hn1, Hn2. cbn [List.filter].
    by destruct (has_vlan_type r).
Qed.

End Loops.

(* ===================================================================== *)
(** ** What the loops report *)
(* ===================================================================== *)


Section Reports.
Context {Ctl : Type}.
Variable api : Ctl → call → Ctl * response.
Implicit Types w : @world Ctl.





End Reports.




Section UpsertReports.
Context {Ctl : Type}.
Variable api : Ctl → call → Ctl * response.
Implicit Types w : @world Ctl.



End UpsertReports.

Section TurnReports.
Context {Ctl : Type}.
Variable api : Ctl → call → Ctl * response.
Implicit Types w : @world Ctl.




End TurnReports.


(* ===================================================================== *)
(** ** The theorems at work on the small site *)
(* ===================================================================== *)

(** C9 on the small site: the port of A is passed over. *)
Lemma only_vlan_and_subinterface_are_copied_witness :
  Forall has_type [Site.vlan10A; Site.vlan20A; Site.port1A]
  ∧ index_interfaces [Site.vlan10B]
    = Normal (Site.interface_index_of [Site.vlan10B])
  ∧ process_interface (Site.controller true [] []) Site.envAB
      (Site.interface_index_of [Site.vlan10B]) Site.port1A Site.w0
    = (Site.w0, Normal tt).
Proof.
  assert (H1 : Forall has_type [Site.vlan10A; Site.vlan20A; Site.port1A]).
  { repeat constructor; eexists; vm_compute; reflexivity. }
  assert (H2 : index_interfaces [Site.vlan10B]
               = Normal (Site.interface_index_of [Site.vlan10B])).
  { vm_compute. reflexivity. }
  split; [exact H1|]. split; [exact H2|].
  destruct (only_vlan_and_subinterface_are_copied (Site.controller true [] [])
              Site.envAB _ _ _ Site.w0 H1 H2) as (Hother & _ & _).
  apply Hother.
  - apply list_elem_of_In. cbn. tauto.
  - vm_compute. reflexivity.
Defined.

(** C5 on the small site: the route [10.0.0.0/8] exists on B, listed without
    a token; the source route has a name, and it is updated under B's id. *)
Lemma upsert_decided_by_natural_key_witness :
  index_routes [Site.route_ip_B_no_etag]
  = Normal (Site.index_of [Site.route_ip_B_no_etag])
  ∧ index_interfaces [Site.vlan10B]
    = Normal (Site.interface_index_of [Site.vlan10B])
  ∧ py_get Site.route_ip_B_no_etag "_etag" = Normal VNone
  ∧ sanitize (Site.fields Site.route_ip) !! "name" = Some (VStr "default")
  ∧ ∃ w' payload,
      upsert_route (Site.controller true [] []) Site.envAB
        (Site.index_of [Site.route_ip_B_no_etag])
        (sanitize (Site.fields Site.route_ip)) Site.w0 = (w', Normal tt)
      ∧ calls (trace w')
        = [PutStaticroutes (VStr "sB") (VStr "eB") (VStr "d4") payload]
      ∧ payload !! "id" = Some (VStr "d4").
Proof.
  assert (H1 : index_routes [Site.route_ip_B_no_etag]
               = Normal (Site.index_of [Site.route_ip_B_no_etag]))
    by (vm_compute; reflexivity).
  assert (H2 : index_interfaces [Site.vlan10B]
               = Normal (Site.interface_index_of [Site.vlan10B]))
    by (vm_compute; reflexivity).
  assert (H3 : sanitize (Site.fields Site.route_ip) !! "name"
               = Some (VStr "default")) by (vm_compute; reflexivity).
  split; [exact H1|]. split; [exact H2|].
  split; [vm_compute; reflexivity|]. split; [exact H3|].
  destruct (upsert_decided_by_natural_key (Site.controller true [] [])
              Site.envAB [Site.route_ip_B_no_etag] [Site.vlan10B] _ _
              (sanitize (Site.fields Site.route_ip))
              (sanitize (Site.fields Site.vlan20A))
              (VStr "10.0.0.0/8") (VStr "vlan20") (VStr "vlan")
              (KStr "10.0.0.0/8") (KStr "vlan20") Site.w0 H1 H2)
    as [(w' & Hrun & Hmatch) _].
  - vm_compute. reflexivity.
  - reflexivity.
  - vm_compute. reflexivity.
  - reflexivity.
  - vm_compute. reflexivity.
  - intros d Hd. vm_compute in Hd. injection Hd as <-. split.
    + eexists. vm_compute. reflexivity.
    + intros _. rewrite H3. eexists. reflexivity.
  - intros d Hd. vm_compute in Hd. discriminate Hd.
  - assert (Hl : Site.index_of [Site.route_ip_B_no_etag] !! KStr "10.0.0.0/8"
                 = Some Site.route_ip_B_no_etag) by (vm_compute; reflexivity).
    rewrite Hl in Hmatch.
    destruct Hmatch as (_ & _ & rid & payload & Hid & Hcalls & Hpid).
    assert (rid = VStr "d4") as -> by (vm_compute in Hid; congruence).
    exists w', payload. split; [exact Hrun|]. split; [|exact Hpid].
    rewrite Hcalls. reflexivity.
Defined.

(** C7 on the small site: the VRF reference [v1] of the route through
    [vlan10] comes back as [v1]. *)
Lemma vrf_reference_round_trip_witness :
  Site.fields Site.route_vlan10 !! "destination_prefix"
  = Some (VStr "192.168.1.0/24")
  ∧ rewrite_vrf Site.envAB (sanitize (Site.fields Site.route_vlan10)) Site.w0
    = (Site.w0, Normal (Some (sanitize (Site.fields Site.route_vlan10)))).
Proof.
  assert (Hp : Site.fields Site.route_vlan10 !! "destination_prefix"
               = Some (VStr "192.168.1.0/24")) by (vm_compute; reflexivity).
  split; [exact Hp|].
  destruct (vrf_reference_round_trip (Site.controller true [] []) Site.envAB ∅
              (Site.fields Site.route_vlan10) (VStr "192.168.1.0/24") Site.w0 Hp)
    as (_ & _ & _ & Hround).
  destruct (Hround [Site.vrfCorp] initial_globals
              (match foldM add_vrf initial_globals [Site.vrfCorp] with
               | Normal g => g | _ => initial_globals end)
              (VStr "CORP"))
    as (new & Hrun & _ & Hstr).
  - reflexivity.
  - reflexivity.
  - vm_compute. reflexivity.
  - apply NoDup_singleton.
  - vm_compute. reflexivity.
  - vm_compute. reflexivity.
  - vm_compute. reflexivity.
  - vm_compute. reflexivity.
  - reflexivity.
  - destruct (Hstr "v1") as [_ Hsame]; [vm_compute; reflexivity|].
    rewrite Hrun, Hsame. reflexivity.
Defined.






(* ===================================================================== *)
(** ** Calls added to the trace *)
(* ===================================================================== *)

Section Adds.
Context {Ctl : Type}.
Variable api : Ctl → call → Ctl * response.
Implicit Types w : @world Ctl.
Implicit Types P : call → Prop.

Lemma adds_lift {A} P (o : outcome A) : adds (Ctl := Ctl) P (fun a => o = Normal a) (lift o).
Proof. intros w. exists []. cbn. by rewrite app_nil_r. Qed.

Lemma adds_mret {A} P (a : A) : adds (Ctl := Ctl) P (fun x => x = a) (mret a).
Proof.
  intros w. exists []. cbn. rewrite app_nil_r. split; [done|].
  split; [constructor|]. intros x Hx. by simplify_eq.
Qed.

Lemma adds_print P (m : message) : adds (Ctl := Ctl) P (fun _ => True) (print m).
Proof. intros w. exists []. cbn. by rewrite calls_snoc_print, app_nil_r. Qed.

Lemma adds_jd_detailed P (r : response) :
  adds (Ctl := Ctl) P (fun _ => True) (jd_detailed r).
Proof. intros w. exists []. cbn. by rewrite calls_snoc_detailed, app_nil_r. Qed.

Lemma adds_sys_exit {A} P (Q : A → Prop) (code : Z) :
  adds (Ctl := Ctl) P Q (sys_exit code).
Proof. intros w. exists []. cbn. by rewrite app_nil_r. Qed.

Lemma adds_request P (c : call) :
  P c → adds P (fun _ => True) (request api c).
Proof.
  intros Hc w. exists [c]. unfold request. destruct (api (ctl w) c) as [s r].
  cbn. rewrite calls_snoc_called. split; [done|]. split; [|done].
  by constructor.
Qed.

Lemma adds_bind {A B} P (Q : A → Prop) (R : B → Prop)
    (m : @M Ctl A) (f : A → @M Ctl B) :
  adds P Q m → (∀ a, Q a → adds P R (f a)) → adds P R (m ≫= f).
Proof.
  intros Hm Hf w. destruct (Hm w) as (cs1 & Hc1 & HP1 & HQ).
  unfold mbind, M_bind. destruct (m w) as [w1 [a|x|c]]; cbn in *.
  - destruct (Hf a (HQ a eq_refl) w1) as (cs2 & Hc2 & HP2 & HR).
    exists (cs1 ++ cs2). rewrite Hc2, Hc1, app_assoc.
    split; [done|]. split; [by apply Forall_app|done].
  - exists cs1. split; [done|]. split; [done|]. intros ? H. discriminate H.
  - exists cs1. split; [done|]. split; [done|]. intros ? H. discriminate H.
Qed.

Lemma adds_conseq {A} (P P' : call → Prop) (Q Q' : A → Prop) (m : @M Ctl A) :
  adds P Q m → (∀ c, P c → P' c) → (∀ a, Q a → Q' a) → adds P' Q' m.
Proof.
  intros Hm HP HQ w. destruct (Hm w) as (cs & Hc & Hcs & Hq).
  exists cs. split; [done|]. split; [|by eauto].
  eapply Forall_impl; [done|]. done.
Qed.

Lemma adds_for_each {B} P (body : B → @M Ctl unit) (l : list B) :
  (∀ b, b ∈ l → adds P (fun _ => True) (body b)) →
  adds P (fun _ => True) (for_each body l).
Proof.
  induction l as [|b l IH]; intros Hb; cbn [for_each].
  - eapply adds_conseq; [apply adds_mret|done..].
  - eapply adds_bind; [apply Hb; by left|]. intros _ _.
    apply IH. intros b' ?. apply Hb. by right.
Qed.

Lemma adds_for_fold {A B} P (I : A → Prop) (body : A → B → @M Ctl A)
    (l : list B) (a : A) :
  I a → (∀ a b, I a → adds P I (body a b)) → adds P I (for_fold body a l).
Proof.
  intros Ha Hb. revert a Ha. induction l as [|b l IH]; intros a Ha; cbn [for_fold].
  - eapply adds_conseq; [apply adds_mret|done|]. by intros ? ->.
  - eapply adds_bind; [by apply Hb|]. intros a' Ha'. by apply IH.
Qed.

Lemma adds_for_update {B} P (S : B → B → Prop) (body : B → @M Ctl B) (l : list B) :
  (∀ b, b ∈ l → adds P (S b) (body b)) →
  adds P (Forall2 S l) (for_update body l).
Proof.
  induction l as [|b l IH]; intros Hb; cbn [for_update].
  - eapply adds_conseq; [apply adds_mret|done|]. intros ? ->. constructor.
  - eapply adds_bind; [apply Hb; by left|]. intros b' Hb'.
    eapply adds_bind; [apply IH; intros; apply Hb; by right|]. intros l' Hl'.
    eapply adds_conseq; [apply adds_mret|done|]. intros ? ->. by constructor.
Qed.

End Adds.

Lemma clean_sanitize (d : record) : clean (sanitize d).
Proof. intros k Hk. rewrite sanitize_lookup. by rewrite decide_True. Qed.

Lemma clean_insert (d : record) (k : string) (v : value) :
  k ∉ BASE_DELETE_ATTRS → clean d → clean (<[k := v]> d).
Proof.
  intros Hk Hd k' Hk'. rewrite lookup_insert_ne; [by apply Hd|]. by intros ->.
Qed.

Lemma clean_delete (d : record) (k : string) : clean d → clean (delete k d).
Proof.
  intros Hd k' Hk'. destruct (decide (k = k')) as [->|Hne].
  - apply lookup_delete_eq.
  - rewrite lookup_delete_ne by done. by apply Hd.
Qed.

Section Reads.
Context {Ctl : Type}.
Variable api : Ctl → call → Ctl * response.
Implicit Types w : @world Ctl.
Implicit Types P : call → Prop.

Lemma adds_weaken {A} P (Q : A → Prop) (m : @M Ctl A) :
  adds P Q m → adds P (fun _ => True) m.
Proof. intros H. by eapply adds_conseq. Qed.

Lemma adds_lift_any {A} P (o : outcome A) :
  adds (Ctl := Ctl) P (fun _ => True) (lift o).
Proof. eapply adds_weaken, adds_lift. Qed.

Lemma adds_mret_any {A} P (Q : A → Prop) (a : A) :
  Q a → adds (Ctl := Ctl) P Q (mret a).
Proof. intros Ha. eapply adds_conseq; [apply adds_mret|done|]. by intros ? ->. Qed.

Lemma adds_exit_unless P (ok : bool) (m : message) :
  adds (Ctl := Ctl) P (fun _ => ok = true) (exit_unless ok m).
Proof.
  unfold exit_unless. destruct ok.
  - by apply adds_mret_any.
  - eapply adds_bind; [apply adds_print|]. intros _ _. apply adds_sys_exit.
Qed.

Lemma load_elements_adds (g : globals) :
  adds is_listing (fun _ => True) (load_elements api g).
Proof.
  unfold load_elements. eapply adds_bind; [by apply adds_request|].
  intros resp _. destruct (cgx_status resp); [apply adds_lift_any|].
  eapply adds_bind; [apply adds_print|]. intros _ _.
  eapply adds_bind; [apply adds_jd_detailed|]. intros _ _. apply adds_sys_exit.
Qed.

Lemma load_vrfs_adds (g : globals) :
  adds is_listing (fun _ => True) (load_vrfs api g).
Proof.
  unfold load_vrfs. eapply adds_bind; [by apply adds_request|].
  intros resp _. destruct (cgx_status resp); [apply adds_lift_any|].
  eapply adds_bind; [apply adds_print|]. intros _ _.
  eapply adds_bind; [apply adds_jd_detailed|]. intros _ _. apply adds_sys_exit.
Qed.

Lemma load_element_interfaces_adds (g : globals) (it : value * value) :
  adds is_listing (fun _ => True) (load_element_interfaces api g it).
Proof.
  destruct it as [o name]. unfold load_element_interfaces.
  eapply adds_bind; [apply adds_lift|]. intros site_id _.
  destruct (truthy site_id).
  - eapply adds_bind; [by apply adds_request|]. intros resp _.
    destruct (cgx_status resp).
    + eapply adds_bind; [apply adds_lift|]. intros k _. apply adds_lift_any.
    + eapply adds_bind; [apply adds_print|]. intros _ _.
      eapply adds_bind; [apply adds_jd_detailed|]. intros _ _.
      by apply adds_mret_any.
  - eapply adds_bind; [apply adds_print|]. intros _ _. by apply adds_mret_any.
Qed.

Lemma create_dicts_adds (g : globals) :
  adds is_listing (fun _ => True) (create_dicts api g).
Proof.
  unfold create_dicts.
  eapply adds_bind; [apply load_elements_adds|]. intros g1 _.
  eapply adds_bind; [apply load_vrfs_adds|]. intros g2 _.
  unfold load_interfaces. apply adds_for_fold; [done|].
  intros a b _. apply load_element_interfaces_adds.
Qed.

Lemma resolve_elements_adds (g : globals) (src dst : value) :
  adds (Ctl := Ctl) no_call (fun _ => True) (resolve_elements g src dst).
Proof.
  unfold resolve_elements.
  eapply adds_bind; [apply adds_lift|]. intros a _.
  eapply adds_bind; [apply adds_exit_unless|]. intros _ _.
  eapply adds_bind; [apply adds_lift|]. intros b _.
  eapply adds_bind; [apply adds_exit_unless|]. intros _ _.
  eapply adds_bind; [apply adds_lift|]. intros seid _.
  eapply adds_bind; [apply adds_lift|]. intros ssid _.
  eapply adds_bind; [apply adds_lift|]. intros deid _.
  eapply adds_bind; [apply adds_lift|]. intros dsid _.
  eapply adds_bind; [apply adds_print|]. intros _ _.
  by apply adds_mret_any.
Qed.

Lemma rewrite_vrf_adds e (p : record) :
  clean p →
  adds (Ctl := Ctl) no_call
    (fun r => ∀ p', r = Some p' →
       clean p' ∧ ∀ k, k ≠ "vrf_context_id" → p' !! k = p !! k)
    (rewrite_vrf e p).
Proof.
  intros Hp. unfold rewrite_vrf.
  destruct (truthy (rec_get p "vrf_context_id")).
  - eapply adds_bind; [apply adds_lift|]. intros name _.
    destruct (truthy name).
    + eapply adds_bind; [apply adds_lift|]. intros new _.
      destruct (truthy new).
      * apply adds_mret_any. intros p' Hp'. simplify_eq. split.
        -- apply clean_insert; [compute_done|done].
        -- intros k Hk. by rewrite lookup_insert_ne.
      * eapply adds_bind; [apply adds_lift|]. intros prefix _.
        eapply adds_bind; [apply adds_print|]. intros _ _.
        by apply adds_mret_any.
    + eapply adds_bind; [apply adds_lift|]. intros prefix _.
      eapply adds_bind; [apply adds_print|]. intros _ _.
      by apply adds_mret_any.
  - apply adds_mret_any. intros p' Hp'. by simplify_eq.
Qed.

End Reads.

Section Rewrites.
Context {Ctl : Type}.
Variable api : Ctl → call → Ctl * response.
Implicit Types w : @world Ctl.
Implicit Types P : call → Prop.

Lemma rewrite_vrf_rewritten e (p : record) :
  clean p →
  adds (Ctl := Ctl) no_call
    (fun r => ∀ p', r = Some p' →
       clean p' ∧ (∀ k, k ≠ "vrf_context_id" → p' !! k = p !! k)
       ∧ vrf_rewritten e p p')
    (rewrite_vrf e p).
Proof.
  intros Hp. unfold rewrite_vrf.
  destruct (truthy (rec_get p "vrf_context_id")) eqn:Hs.
  - eapply adds_bind; [apply adds_lift|]. intros name Hname.
    destruct (truthy name) eqn:Hn.
    + eapply adds_bind; [apply adds_lift|]. intros new Hnew.
      destruct (truthy new) eqn:Ht.
      * apply adds_mret_any. intros p' Hp'. simplify_eq. split; [|split].
        -- apply clean_insert; [compute_done|done].
        -- intros k Hk. by rewrite lookup_insert_ne.
        -- right. exists name, new. by rewrite lookup_insert_eq.
      * eapply adds_bind; [apply adds_lift|]. intros prefix _.
        eapply adds_bind; [apply adds_print|]. intros _ _.
        by apply adds_mret_any.
    + eapply adds_bind; [apply adds_lift|]. intros prefix _.
      eapply adds_bind; [apply adds_print|]. intros _ _.
      by apply adds_mret_any.
  - apply adds_mret_any. intros p' Hp'. simplify_eq.
    split; [done|]. split; [done|]. by left.
Qed.

Lemma rewrite_nexthop_rewritten e (route_payload : record) (nexthop : value) :
  adds (Ctl := Ctl) no_call (nexthop_rewritten e nexthop)
    (rewrite_nexthop e route_payload nexthop).
Proof.
  unfold rewrite_nexthop.
  eapply adds_bind; [apply adds_lift|]. intros src_id Hsrc.
  destruct nexthop as [| | | | |m]; try done. cbn in Hsrc. simplify_eq.
  destruct (truthy (rec_get m "nexthop_interface_id")) eqn:Hs.
  - eapply adds_bind; [apply adds_lift|]. intros by_id Hbi.
    eapply adds_bind; [apply adds_lift|]. intros name Hname.
    destruct (truthy name) eqn:Hn.
    + eapply adds_bind; [apply adds_lift|]. intros by_name Hbn.
      eapply adds_bind; [apply adds_lift|]. intros new Hnew.
      destruct (truthy new) eqn:Ht.
      * apply adds_mret_any. right. by exists m, by_id, by_name, name, new.
      * eapply adds_bind; [apply adds_lift|]. intros prefix _.
        eapply adds_bind; [apply adds_print|]. intros _ _.
        apply adds_mret_any. by left.
    + eapply adds_bind; [apply adds_lift|]. intros prefix _.
      eapply adds_bind; [apply adds_print|]. intros _ _.
      apply adds_mret_any. by left.
  - apply adds_mret_any. by left.
Qed.

Lemma rewrite_nexthops_rewritten e (p : record) :
  clean p →
  adds (Ctl := Ctl) no_call
    (fun p' => clean p' ∧ (∀ k, k ≠ "nexthops" → p' !! k = p !! k)
               ∧ nexthops_rewritten e p p')
    (rewrite_nexthops e p).
Proof.
  intros Hp. unfold rewrite_nexthops.
  destruct (truthy (rec_get p "nexthops")) eqn:Hs.
  - eapply adds_bind; [apply adds_lift|]. intros l Hl.
    eapply adds_bind.
    { apply adds_for_update. intros b _. apply rewrite_nexthop_rewritten. }
    intros l' Hl'. apply adds_mret_any. split; [|split].
    + apply clean_insert; [compute_done|done].
    + intros k Hk. by rewrite lookup_insert_ne.
    + right. exists l, l'. rewrite lookup_insert_eq. split; [|done].
      unfold rec_get in Hl. destruct (p !! "nexthops") as [v|]; [|done].
      cbn in Hl. destruct v; cbn in Hl; by simplify_eq.
  - apply adds_mret_any. split; [done|]. split; [done|]. by left.
Qed.

End Rewrites.

Section Bounded.
Context {Ctl : Type}.
Variable api : Ctl → call → Ctl * response.
Implicit Types w : @world Ctl.
Implicit Types P : call → Prop.

Lemma adds_upto_adds {A} n P (Q : A → Prop) (m : @M Ctl A) :
  adds_upto n P Q m → adds P Q m.
Proof.
  intros H w. destruct (H w) as (cs & ? & ? & ? & ?). exists cs. eauto.
Qed.

Lemma adds_upto_quiet {A} n P (Q : A → Prop) (m : @M Ctl A) :
  adds no_call Q m → adds_upto n P Q m.
Proof.
  intros H w. destruct (H w) as (cs & Hc & Hcs & HQ).
  destruct cs as [|c cs]; [|by apply Forall_cons in Hcs as [[] _]].
  exists []. split; [done|]. split; [constructor|]. split; [cbn; lia|done].
Qed.

Lemma adds_upto_conseq {A} n n' (P P' : call → Prop) (Q Q' : A → Prop)
    (m : @M Ctl A) :
  adds_upto n P Q m → (n ≤ n')%nat → (∀ c, P c → P' c) → (∀ a, Q a → Q' a) →
  adds_upto n' P' Q' m.
Proof.
  intros H Hn HP HQ w. destruct (H w) as (cs & Hc & Hcs & Hl & Hq).
  exists cs. split; [done|]. split; [by eapply Forall_impl|].
  split; [lia|eauto].
Qed.

Lemma adds_upto_bind_l {A B} n P (Q : A → Prop) (R : B → Prop)
    (m : @M Ctl A) (f : A → @M Ctl B) :
  adds no_call Q m → (∀ a, Q a → adds_upto n P R (f a)) →
  adds_upto n P R (m ≫= f).
Proof.
  intros Hm Hf w. destruct (Hm w) as (cs1 & Hc1 & HP1 & HQ).
  destruct cs1 as [|c cs1]; [|by apply Forall_cons in HP1 as [[] _]].
  rewrite app_nil_r in Hc1.
  unfold mbind, M_bind. destruct (m w) as [w1 [a|x|c]]; cbn in *.
  - destruct (Hf a (HQ a eq_refl) w1) as (cs2 & Hc2 & HP2 & Hl & HR).
    exists cs2. rewrite Hc2, Hc1. done.
  - exists []. rewrite app_nil_r. split; [done|]. split; [constructor|].
    split; [cbn; lia|]. intros ? H. discriminate H.
  - exists []. rewrite app_nil_r. split; [done|]. split; [constructor|].
    split; [cbn; lia|]. intros ? H. discriminate H.
Qed.

Lemma adds_upto_request {B} P (R : B → Prop) (c : call) (f : response → @M Ctl B) :
  P c → (∀ r, adds no_call R (f r)) →
  adds_upto 1 P R (request api c ≫= f).
Proof.
  intros Hc Hf w. rewrite bind_request.
  destruct (Hf (api (ctl w) c).2
              (mkWorld (api (ctl w) c).1 (trace w ++ [Called c])))
    as (cs & Hcs & HP & HR).
  destruct cs as [|c' cs]; [|by apply Forall_cons in HP as [[] _]].
  rewrite app_nil_r in Hcs. exists [c]. rewrite Hcs. cbn [trace].
  rewrite calls_snoc_called. split; [done|]. split; [by constructor|].
  split; [cbn; lia|done].
Qed.

Lemma adds_upto_for_each {B} P (body : B → @M Ctl unit) (l : list B) :
  (∀ b, b ∈ l → adds_upto 1 P (fun _ => True) (body b)) →
  adds_upto (length l) P (fun _ => True) (for_each body l).
Proof.
  induction l as [|b l IH]; intros Hb; cbn [for_each].
  - apply adds_upto_quiet. by apply adds_mret_any.
  - intros w. destruct (Hb b (ltac:(by left)) w) as (cs1 & Hc1 & HP1 & Hl1 & _).
    unfold mbind, M_bind. destruct (body b w) as [w1 [[]|x|c]]; cbn [fst snd] in *.
    + destruct (IH (fun b' H => Hb b' (ltac:(by right))) w1)
        as (cs2 & Hc2 & HP2 & Hl2 & _).
      exists (cs1 ++ cs2). rewrite Hc2, Hc1, app_assoc. split; [done|].
      split; [by apply Forall_app|]. split; [|done].
      rewrite length_app. cbn. lia.
    + exists cs1. split; [done|]. split; [done|]. split; [cbn; lia|].
      intros ? H. discriminate H.
    + exists cs1. split; [done|]. split; [done|]. split; [cbn; lia|].
      intros ? H. discriminate H.
Qed.

Lemma report_adds (ok : bool) (m1 m2 : message) (resp : response) :
  adds (Ctl := Ctl) no_call (fun _ => True)
    (if ok then print m1 else print m2;; jd_detailed resp).
Proof.
  destruct ok; [apply adds_print|].
  eapply adds_bind; [apply adds_print|]. intros _ _. apply adds_jd_detailed.
Qed.

Lemma upsert_route_adds e idx (p : record) :
  clean p →
  adds_upto 1 (upsert_call e p) (fun _ => True) (upsert_route api e idx p).
Proof.
  intros Hp. unfold upsert_route.
  eapply adds_upto_bind_l; [apply adds_lift|]. intros prefix _.
  eapply adds_upto_bind_l; [apply adds_lift|]. intros existing _.
  destruct (truthy existing).
  - eapply adds_upto_bind_l; [apply adds_lift|]. intros rid _.
    eapply adds_upto_bind_l; [apply adds_lift|]. intros etag _.
    eapply adds_upto_bind_l with
      (Q := fun p' : record => clean p' ∧ ∀ k, k ≠ "_etag" → p' !! k = p !! k).
    { destruct (is_not_None etag).
      - apply adds_mret_any. split.
        + apply clean_insert; [compute_done|done].
        + intros k Hk. by rewrite lookup_insert_ne.
      - eapply adds_bind; [apply adds_lift|]. intros name _.
        eapply adds_bind; [apply adds_print|]. intros _ _.
        by apply adds_mret_any. }
    intros p' [Hc' Hk']. cbv zeta.
    eapply adds_upto_bind_l; [apply adds_print|]. intros _ _.
    apply adds_upto_request; [|intros r; apply report_adds].
    split.
    + split; [done|]. split; [done|]. split; [apply lookup_insert_eq|].
      apply clean_insert; [compute_done|done].
    + eexists. split; [reflexivity|]. intros k H1 H2.
      rewrite lookup_insert_ne by done. by apply Hk'.
  - cbv zeta. eapply adds_upto_bind_l; [apply adds_print|]. intros _ _.
    apply adds_upto_request; [|intros r; apply report_adds].
    split.
    + split; [done|]. split; [done|].
      split; [rewrite lookup_delete_ne by done; apply lookup_delete_eq|].
      split; [apply lookup_delete_eq|]. by do 2 apply clean_delete.
    + eexists. split; [reflexivity|]. intros k H1 H2.
      by rewrite !lookup_delete_ne.
Qed.

Lemma upsert_interface_adds e idx (p : record) :
  clean p →
  adds_upto 1 (upsert_call e p) (fun _ => True) (upsert_interface api e idx p).
Proof.
  intros Hp. unfold upsert_interface.
  eapply adds_upto_bind_l; [apply adds_lift|]. intros name _.
  eapply adds_upto_bind_l; [apply adds_lift|]. intros existing _.
  destruct (truthy existing).
  - eapply adds_upto_bind_l; [apply adds_lift|]. intros rid _.
    eapply adds_upto_bind_l; [apply adds_lift|]. intros etag _.
    eapply adds_upto_bind_l with
      (Q := fun p' : record => clean p' ∧ ∀ k, k ≠ "_etag" → p' !! k = p !! k).
    { destruct (is_not_None etag).
      - apply adds_mret_any. split.
        + apply clean_insert; [compute_done|done].
        + intros k Hk. by rewrite lookup_insert_ne.
      - eapply adds_bind; [apply adds_print|]. intros _ _.
        by apply adds_mret_any. }
    intros p' [Hc' Hk']. cbv zeta.
    eapply adds_upto_bind_l; [apply adds_lift|]. intros type _.
    eapply adds_upto_bind_l; [apply adds_print|]. intros _ _.
    apply adds_upto_request; [|intros r; apply report_adds].
    split.
    + split; [done|]. split; [done|]. split; [apply lookup_insert_eq|].
      apply clean_insert; [compute_done|done].
    + eexists. split; [reflexivity|]. intros k H1 H2.
      rewrite lookup_insert_ne by done. by apply Hk'.
  - cbv zeta. eapply adds_upto_bind_l; [apply adds_lift|]. intros type _.
    eapply adds_upto_bind_l; [apply adds_print|]. intros _ _.
    apply adds_upto_request; [|intros r; apply report_adds].
    split.
    + split; [done|]. split; [done|].
      split; [rewrite lookup_delete_ne by done; apply lookup_delete_eq|].
      split; [apply lookup_delete_eq|]. by do 2 apply clean_delete.
    + eexists. split; [reflexivity|]. intros k H1 H2.
      by rewrite !lookup_delete_ne.
Qed.

End Bounded.

Lemma sanitize_copy_Normal (v : value) (p : record) :
  sanitize_copy v = Normal p → ∃ d, v = VDict d ∧ p = sanitize d.
Proof. destruct v; cbn; intros H; simplify_eq. eauto. Qed.

Lemma not_elem_of_app_r {A} (l1 l2 : list A) (x : A) :
  x ∉ (l1 ++ l2) → (x ∉ l1) ∧ (x ∉ l2).
Proof. intros H. split; intros ?; apply H; apply elem_of_app; auto. Qed.

Section Records.
Context {Ctl : Type}.
Variable api : Ctl → call → Ctl * response.
Implicit Types w : @world Ctl.

Lemma process_route_adds e idx (route : value) :
  adds_upto 1 (fun c => ∃ d, route = VDict d ∧ route_call e d c)
    (fun _ => True) (process_route api e idx route).
Proof.
  unfold process_route.
  eapply adds_upto_bind_l; [apply adds_lift|]. intros p Hsan.
  apply sanitize_copy_Normal in Hsan as (d & -> & ->).
  eapply adds_upto_bind_l; [apply rewrite_vrf_rewritten, clean_sanitize|].
  intros r Hr. destruct r as [p1|]; [|apply adds_upto_quiet; by apply adds_mret_any].
  destruct (Hr p1 eq_refl) as (Hc1 & Hk1 & Hv1).
  eapply adds_upto_bind_l; [by apply rewrite_nexthops_rewritten|].
  intros p2 (Hc2 & Hk2 & Hn2).
  eapply adds_upto_conseq; [by apply upsert_route_adds|done| |done].
  intros c [Hok (payload & Hpay & Hkeep)]. exists d. split; [done|].
  split; [done|]. exists payload. split; [done|].
  assert (Hvrf : payload !! "vrf_context_id" = p1 !! "vrf_context_id").
  { rewrite Hkeep by done. by apply Hk2. }
  assert (Hnh : payload !! "nexthops" = p2 !! "nexthops") by by apply Hkeep.
  assert (Sv : rec_get (sanitize d) "vrf_context_id" = rec_get d "vrf_context_id").
  { unfold rec_get. by rewrite sanitize_keeps by compute_done. }
  assert (Sn : p1 !! "nexthops" = d !! "nexthops").
  { rewrite Hk1 by done. by rewrite sanitize_keeps by compute_done. }
  split; [|split].
  - intros k Hk. unfold route_rewritten_fields in Hk.
    apply not_elem_of_app_r in Hk as [Hbase Hk].
    rewrite Hkeep, Hk2, Hk1, sanitize_keeps; try done.
    all: intros ->; apply Hk; compute_done.
  - destruct Hv1 as [[Hf Hsame]|(name & new & Ht & Hname & Htn & Hnew & Htnew & Hp1)].
    + left. rewrite <- Sv. split; [done|]. rewrite Hvrf, Hsame.
      by rewrite sanitize_keeps by compute_done.
    + right. exists name, new. rewrite <- Sv. by rewrite Hvrf.
  - destruct Hn2 as [[Hf Hsame]|(l & l' & Hl & Hl' & Hrel)].
    + left. unfold rec_get in *. rewrite <- Sn. split; [done|]. congruence.
    + right. exists l, l'. split; [congruence|]. split; [congruence|done].
Qed.

Lemma process_interface_adds e idx (intf : value) :
  adds_upto 1 (fun c => ∃ d, intf = VDict d ∧ has_vlan_type intf = true
                             ∧ interface_call e d c)
    (fun _ => True) (process_interface api e idx intf).
Proof.
  unfold process_interface.
  eapply adds_upto_bind_l; [apply adds_lift|]. intros type Htype.
  destruct (is_vlan_type type) eqn:Hv;
    [|apply adds_upto_quiet; by apply adds_mret_any].
  eapply adds_upto_bind_l; [apply adds_lift|]. intros p Hsan.
  apply sanitize_copy_Normal in Hsan as (d & -> & ->).
  eapply adds_upto_conseq;
    [apply upsert_interface_adds, clean_sanitize|done| |done].
  intros c [Hok (payload & Hpay & Hkeep)]. exists d. split; [done|].
  split; [unfold has_vlan_type; by rewrite Htype|].
  split; [done|]. exists payload. split; [done|].
  intros k Hk. unfold interface_rewritten_fields in Hk.
  apply not_elem_of_app_r in Hk as [Hbase Hk].
  rewrite Hkeep, sanitize_keeps; try done.
  all: intros ->; apply Hk; compute_done.
Qed.

End Records.

Lemma route_call_write_ok e d c : route_call e d c → write_ok e c.
Proof. by intros [? _]. Qed.

(** Whatever a source route is and whatever the controller answers, its turn
    of the route loop makes at most one controller call, and that call is a
    create or update for this route: addressed to the destination element
    and site, without server-managed attributes, with every field of the
    source route other than [id], [_etag], [vrf_context_id] and [nexthops]
    unchanged, a [vrf_context_id] that is the source's when the route has no
    VRF reference and otherwise the id found through the two global tables,
    and the nexthops of the source in the same order, each one either as it
    was or with its [nexthop_interface_id] alone replaced by the destination
    element's id for the same interface name. *)
Theorem route_turn_makes_one_faithful_call {Ctl : Type}
    (api : Ctl → call → Ctl * response) (e : env)
    (dst_routes_by_prefix : gmap pykey value) (source_route : value) (w : world) :
  ∃ cs,
    calls (trace (process_route api e dst_routes_by_prefix source_route w).1)
    = calls (trace w) ++ cs
    ∧ (length cs ≤ 1)%nat
    ∧ Forall (fun c => ∃ d, source_route = VDict d ∧ route_call e d c) cs.
Proof.
  destruct (process_route_adds api e dst_routes_by_prefix source_route w)
    as (cs & Hc & HP & Hl & _).
  by exists cs.
Qed.

(** Whatever a source interface is and whatever the controller answers, its
    turn of the interface loop makes at most one controller call, and only
    for an interface of type vlan or subinterface: a create or update
    addressed to the destination element and site whose payload has no
    server-managed attribute and has every field of the source interface
    other than [id] and [_etag] unchanged. *)
Theorem interface_turn_makes_one_faithful_call {Ctl : Type}
    (api : Ctl → call → Ctl * response) (e : env)
    (dst_interfaces_by_name : gmap pykey value) (intf : value) (w : world) :
  ∃ cs,
    calls (trace (process_interface api e dst_interfaces_by_name intf w).1)
    = calls (trace w) ++ cs
    ∧ (length cs ≤ 1)%nat
    ∧ Forall (fun c => ∃ d, intf = VDict d ∧ has_vlan_type intf = true
                            ∧ interface_call e d c) cs.
Proof.
  destruct (process_interface_adds api e dst_interfaces_by_name intf w)
    as (cs & Hc & HP & Hl & _).
  by exists cs.
Qed.

(** However the two loops end, normally or with an exception, every
    controller call they have made is a create or update addressed to the
    destination element and site with a payload free of server-managed
    attributes, an update carrying the id it is addressed to and a create
    neither [id] nor [_etag]; and there are at most as many calls as source
    records. *)
Theorem loops_only_write_to_destination {Ctl : Type}
    (api : Ctl → call → Ctl * response) (e : env)
    (dst_routes_by_prefix dst_interfaces_by_name : gmap pykey value)
    (source_static_routes_list interface_list : list value) (w : world) :
  (∃ cs,
     calls (trace (for_each (process_route api e dst_routes_by_prefix)
                     source_static_routes_list w).1)
     = calls (trace w) ++ cs
     ∧ (length cs ≤ length source_static_routes_list)%nat
     ∧ Forall (write_ok e) cs)
  ∧ (∃ cs,
       calls (trace (for_each (process_interface api e dst_interfaces_by_name)
                       interface_list w).1)
       = calls (trace w) ++ cs
       ∧ (length cs ≤ length interface_list)%nat
       ∧ Forall (write_ok e) cs).
Proof.
  split.
  - destruct (adds_upto_for_each (fun c => write_ok e c)
                (process_route api e dst_routes_by_prefix)
                source_static_routes_list) with (w := w)
      as (cs & Hc & HP & Hl & _).
    { intros b _. eapply adds_upto_conseq; [apply process_route_adds|done| |done].
      intros c (d & _ & Hok & _). exact Hok. }
    by exists cs.
  - destruct (adds_upto_for_each (fun c => write_ok e c)
                (process_interface api e dst_interfaces_by_name)
                interface_list) with (w := w)
      as (cs & Hc & HP & Hl & _).
    { intros b _. eapply adds_upto_conseq; [apply process_interface_adds|done| |done].
      intros c (d & _ & _ & Hok & _). exact Hok. }
    by exists cs.
Qed.

Lemma no_writes_among_listings (cs : list call) :
  Forall is_listing cs → List.filter is_write cs = [].
Proof.
  induction 1 as [|c cs Hc _ IH]; [done|]. cbn. unfold is_listing in Hc.
  by rewrite Hc.
Qed.

Lemma writes_app_calls (t t' : list event) (cs : list call) :
  calls t' = calls t ++ cs → writes t' = writes t ++ List.filter is_write cs.
Proof. intros H. unfold writes. by rewrite H, List.filter_app. Qed.

(** Building the translation tables and resolving the two element names is
    read-only: from any tables and any world, whatever the controller answers
    and however the phase ends, [create_dicts] makes listing calls only and
    [resolve_elements] makes no call at all. *)
Theorem table_building_is_read_only {Ctl : Type}
    (api : Ctl → call → Ctl * response) (g : globals) (src dst : value)
    (w : world) :
  (∃ cs, calls (trace (create_dicts api g w).1) = calls (trace w) ++ cs
         ∧ Forall (fun c => is_write c = false) cs)
  ∧ writes (trace (create_dicts api g w).1) = writes (trace w)
  ∧ calls (trace (resolve_elements g src dst w).1) = calls (trace w).
Proof.
  destruct (create_dicts_adds api g w) as (cs & Hc & Hl & _).
  split; [by exists cs|]. split.
  - rewrite (writes_app_calls _ _ _ Hc), (no_writes_among_listings _ Hl).
    apply app_nil_r.
  - destruct (resolve_elements_adds g src dst w) as (cs' & Hc' & Hn & _).
    destruct cs' as [|c cs']; [|by apply Forall_cons in Hn as [[] _]].
    by rewrite app_nil_r in Hc'.
Qed.

(** Sanitising twice is sanitising once, and it does not matter whether [id]
    and [_etag] are removed before or after: the create payload of a
    sanitised record is the sanitised create payload. *)
Theorem sanitize_idempotent_and_commutes (r : record) :
  sanitize (sanitize r) = sanitize r
  ∧ create_payload (sanitize r) = sanitize (create_payload r).
Proof.
  split; apply map_eq; intros k.
  - rewrite !sanitize_lookup. by destruct (decide (k ∈ BASE_DELETE_ATTRS)).
  - unfold create_payload. rewrite (sanitize_lookup (delete _ _)).
    destruct (decide (k = "_etag")) as [->|H1].
    { rewrite !lookup_delete_eq. by destruct (decide _). }
    rewrite !(lookup_delete_ne _ "_etag") by done.
    destruct (decide (k = "id")) as [->|H2].
    { rewrite !lookup_delete_eq. by destruct (decide _). }
    rewrite !(lookup_delete_ne _ "id") by done. apply sanitize_lookup.
Qed.

Lemma foldM_app {A B} (f : A → B → outcome A) (a : A) (l1 l2 : list B) :
  foldM f a (l1 ++ l2) = (foldM f a l1 ≫= fun a' => foldM f a' l2).
Proof.
  revert a. induction l1 as [|b l1 IH]; intros a; [done|].
  cbn [app foldM]. unfold mbind, outcome_bind. destruct (f a b); [apply IH|done..].
Qed.

Lemma index_route_Normal (idx : gmap pykey value) (route prefix : value) (k : pykey) :
  getitem route "destination_prefix" = Normal prefix → to_key prefix = Some k →
  index_route idx route = Normal (<[k := route]> idx).
Proof. intros Hp Hk. unfold index_route, hash. rewrite Hp. cbn. by rewrite Hk. Qed.

Lemma index_interface_Normal (idx : gmap pykey value) (intf name : value)
    (k : pykey) :
  has_vlan_type intf = true →
  getitem intf "name" = Normal name → to_key name = Some k →
  index_interface idx intf = Normal (<[k := intf]> idx).
Proof.
  unfold has_vlan_type, index_interface, hash. intros Hv Hn Hk.
  destruct (getitem intf "type") as [t| |]; try done. cbn.
  rewrite Hv, Hn. cbn. by rewrite Hk.
Qed.

(** When several destination records share a natural key, the index keeps
    the one listed last, so that is the record an update goes to: a
    destination route is found under its prefix when no later route has the
    same prefix, and a destination interface of a copied type under its name
    when no later interface of a copied type has the same name. *)
Theorem last_destination_record_wins
    (routes_before routes_after interfaces_before interfaces_after : list value)
    (route intf prefix name : value) (kp kn : pykey)
    (dst_routes_by_prefix dst_interfaces_by_name : gmap pykey value) :
  index_routes (routes_before ++ route :: routes_after)
  = Normal dst_routes_by_prefix →
  getitem route "destination_prefix" = Normal prefix → to_key prefix = Some kp →
  (∀ d x, d ∈ routes_after → getitem d "destination_prefix" = Normal x →
     to_key x ≠ Some kp) →
  index_interfaces (interfaces_before ++ intf :: interfaces_after)
  = Normal dst_interfaces_by_name →
  has_vlan_type intf = true →
  getitem intf "name" = Normal name → to_key name = Some kn →
  (∀ d x, d ∈ interfaces_after → has_vlan_type d = true →
     getitem d "name" = Normal x → to_key x ≠ Some kn) →
  dst_routes_by_prefix !! kp = Some route
  ∧ dst_interfaces_by_name !! kn = Some intf.
Proof.
  intros Hr Hp Hkp Hlater Hi Hv Hn Hkn Hlater'. split.
  - unfold index_routes in Hr. rewrite foldM_app in Hr.
    unfold mbind, outcome_bind in Hr.
    destruct (foldM index_route ∅ routes_before) as [idx0| |]; try done.
    cbn [foldM] in Hr. rewrite (index_route_Normal _ _ _ _ Hp Hkp) in Hr.
    unfold mbind, outcome_bind in Hr.
    pose proof (index_routes_from _ _ _ Hr kp) as Hfrom.
    destruct (dst_routes_by_prefix !! kp) as [d|].
    + destruct Hfrom as [Hin|(Hin & x & Hx & Hkx)].
      * by rewrite lookup_insert_eq in Hin.
      * by destruct (Hlater d x Hin Hx).
    + destruct Hfrom as [Hnone _]. by rewrite lookup_insert_eq in Hnone.
  - unfold index_interfaces in Hi. rewrite foldM_app in Hi.
    unfold mbind, outcome_bind in Hi.
    destruct (foldM index_interface ∅ interfaces_before) as [idx0| |]; try done.
    cbn [foldM] in Hi. rewrite (index_interface_Normal _ _ _ _ Hv Hn Hkn) in Hi.
    unfold mbind, outcome_bind in Hi.
    pose proof (index_interfaces_from _ _ _ Hi kn) as Hfrom.
    destruct (dst_interfaces_by_name !! kn) as [d|].
    + destruct Hfrom as [Hin|(Hin & Hvd & x & Hx & Hkx)].
      * by rewrite lookup_insert_eq in Hin.
      * by destruct (Hlater' d x Hin Hvd Hx).
    + destruct Hfrom as [Hnone _]. by rewrite lookup_insert_eq in Hnone.
Qed.

(* ===================================================================== *)
(** ** Listings, names and interface tables *)
(* ===================================================================== *)

Section Listings.
Context {Ctl : Type}.
Variable api : Ctl → call → Ctl * response.
Implicit Types w : @world Ctl.

Lemma bind_sys_exit {A B} (code : Z) (f : A → @M Ctl B) w :
  (sys_exit code ≫= f) w = (w, SysExit code).
Proof. reflexivity. Qed.

Ltac mexit := mstep; rewrite ?bind_sys_exit; cbn [fst snd trace ctl].

Lemma copy_static_routes_source_failed e src_sid w :
  cgx_status (api (ctl w) (GetStaticroutes src_sid (e_src_eid e))).2 = false →
  (copy_static_routes api e src_sid w).2 = SysExit 1
  ∧ calls (trace (copy_static_routes api e src_sid w).1)
    = calls (trace w) ++ [GetStaticroutes src_sid (e_src_eid e)].
Proof.
  intros H. unfold copy_static_routes. mstep. rewrite H. mexit.
  split; [done|]. by calls_simpl.
Qed.

Lemma copy_static_routes_destination_failed e src_sid w :
  cgx_status (api (ctl w) (GetStaticroutes src_sid (e_src_eid e))).2 = true →
  cgx_status (api (api (ctl w) (GetStaticroutes src_sid (e_src_eid e))).1
                (GetStaticroutes (e_dst_sid e) (e_dst_eid e))).2 = false →
  (copy_static_routes api e src_sid w).2 = SysExit 1
  ∧ calls (trace (copy_static_routes api e src_sid w).1)
    = calls (trace w) ++ [GetStaticroutes src_sid (e_src_eid e);
                          GetStaticroutes (e_dst_sid e) (e_dst_eid e)].
Proof.
  intros H1 H2. unfold copy_static_routes. mstep. rewrite H1. mstep.
  rewrite H2. mexit. split; [done|]. calls_simpl. by rewrite <- app_assoc.
Qed.

Lemma copy_interfaces_source_failed e src_sid w :
  cgx_status (api (ctl w) (GetInterfaces src_sid (e_src_eid e))).2 = false →
  (copy_interfaces api e src_sid w).2 = SysExit 1
  ∧ calls (trace (copy_interfaces api e src_sid w).1)
    = calls (trace w) ++ [GetInterfaces src_sid (e_src_eid e)].
Proof.
  intros H. unfold copy_interfaces. mstep. rewrite H. mexit.
  split; [done|]. by calls_simpl.
Qed.

Lemma copy_interfaces_destination_failed e src_sid w :
  cgx_status (api (ctl w) (GetInterfaces src_sid (e_src_eid e))).2 = true →
  cgx_status (api (api (ctl w) (GetInterfaces src_sid (e_src_eid e))).1
                (GetInterfaces (e_dst_sid e) (e_dst_eid e))).2 = false →
  (copy_interfaces api e src_sid w).2 = SysExit 1
  ∧ calls (trace (copy_interfaces api e src_sid w).1)
    = calls (trace w) ++ [GetInterfaces src_sid (e_src_eid e);
                          GetInterfaces (e_dst_sid e) (e_dst_eid e)].
Proof.
  intros H1 H2. unfold copy_interfaces. mstep. rewrite H1. mstep.
  rewrite H2. mexit. split; [done|]. calls_simpl. by rewrite <- app_assoc.
Qed.

End Listings.

(** A copy pass stops at a failed listing before it writes anything. When
    the source listing of static routes fails, the pass ends in
    [sys.exit(1)] having made that one call, the destination not even being
    listed; when the source listing succeeds and the destination listing
    fails, it ends in [sys.exit(1)] having made the two listing calls. The
    interface pass does the same with the two interface listings. *)
Theorem failed_listing_exits_before_any_write {Ctl : Type}
    (api : Ctl → call → Ctl * response) (e : env) (src_sid : value) (w : world) :
  let routes := copy_static_routes api e src_sid w in
  let interfaces := copy_interfaces api e src_sid w in
  let src_routes := api (ctl w) (GetStaticroutes src_sid (e_src_eid e)) in
  let dst_routes := api src_routes.1 (GetStaticroutes (e_dst_sid e) (e_dst_eid e)) in
  let src_intfs := api (ctl w) (GetInterfaces src_sid (e_src_eid e)) in
  let dst_intfs := api src_intfs.1 (GetInterfaces (e_dst_sid e) (e_dst_eid e)) in
  (cgx_status src_routes.2 = false →
     routes.2 = SysExit 1
     ∧ calls (trace routes.1)
       = calls (trace w) ++ [GetStaticroutes src_sid (e_src_eid e)])
  ∧ (cgx_status src_routes.2 = true → cgx_status dst_routes.2 = false →
       routes.2 = SysExit 1
       ∧ calls (trace routes.1)
         = calls (trace w) ++ [GetStaticroutes src_sid (e_src_eid e);
                               GetStaticroutes (e_dst_sid e) (e_dst_eid e)])
  ∧ (cgx_status src_intfs.2 = false →
       interfaces.2 = SysExit 1
       ∧ calls (trace interfaces.1)
         = calls (trace w) ++ [GetInterfaces src_sid (e_src_eid e)])
  ∧ (cgx_status src_intfs.2 = true → cgx_status dst_intfs.2 = false →
       interfaces.2 = SysExit 1
       ∧ calls (trace interfaces.1)
         = calls (trace w) ++ [GetInterfaces src_sid (e_src_eid e);
                               GetInterfaces (e_dst_sid e) (e_dst_eid e)]).
Proof.
  cbv zeta. split; [|split; [|split]].
  - apply copy_static_routes_source_failed.
  - apply copy_static_routes_destination_failed.
  - apply copy_interfaces_source_failed.
  - apply copy_interfaces_destination_failed.
Qed.

Lemma foldM_add_element_names (elemlist : list value) (g g' : globals) :
  foldM add_element g elemlist = Normal g' →
  ∀ kn id, elem_name_id g' !! kn = Some id →
    elem_name_id g !! kn = Some id
    ∨ ∃ elem name, elem ∈ elemlist ∧ getitem elem "name" = Normal name
                   ∧ to_key name = Some kn ∧ getitem elem "id" = Normal id.
Proof.
  revert g. induction elemlist as [|elem l IH]; intros g Hf kn id Hl.
  - cbn in Hf. simplify_eq. by left.
  - cbn [foldM] in Hf. unfold mbind, outcome_bind in Hf.
    destruct (add_element g elem) as [g1| |] eqn:H1; try done.
    destruct (IH _ Hf _ _ Hl) as [Hin|(elem' & name & Hin & ?)].
    + destruct (add_element_Normal _ _ _ H1)
        as (name & id' & k & kn' & site & model & Hn & Hid & Hk & Hkn & _ & _ & ->).
      cbn in Hin. destruct (decide (kn' = kn)) as [->|Hne].
      * rewrite lookup_insert_eq in Hin. simplify_eq. right.
        exists elem, name. split; [by left|done].
      * rewrite lookup_insert_ne in Hin by done. by left.
    + right. exists elem', name. split; [by right|done].
Qed.

Section Names.
Context {Ctl : Type}.
Variable api : Ctl → call → Ctl * response.
Implicit Types w : @world Ctl.

Lemma adds_post {A} (P : call → Prop) (Q Q' : A → Prop) (m : @M Ctl A) :
  adds P Q m → (∀ w w' a, m w = (w', Normal a) → Q' a) → adds P Q' m.
Proof.
  intros Hm Hpost w. destruct (Hm w) as (cs & Hc & HP & _).
  exists cs. split; [done|]. split; [done|]. intros a Ha.
  apply (Hpost w (m w).1 a). destruct (m w) as [w' o]. cbn in Ha. by subst o.
Qed.

(** The name table holds only what the device listing said. *)
Lemma create_dicts_name_table (g : globals) w w' :
  create_dicts api initial_globals w = (w', Normal g) →
  ∀ kn id, elem_name_id g !! kn = Some id →
    ∃ elem name, elem ∈ items (api (ctl w) GetElements).2
                 ∧ getitem elem "name" = Normal name
                 ∧ to_key name = Some kn ∧ getitem elem "id" = Normal id.
Proof.
  unfold create_dicts. intros H kn id Hl.
  apply bind_Normal_inv in H as (w1 & g1 & H1 & H).
  apply bind_Normal_inv in H as (w2 & g2 & H2 & H3).
  apply load_elements_Normal in H1 as [_ H1].
  apply load_vrfs_Normal in H2 as [_ H2].
  apply for_fold_interfaces_loaded in H3 as ((_ & S2 & _) & _).
  destruct (foldM_add_vrf_keeps _ _ _ H2) as (_ & V2 & _).
  rewrite S2, V2 in Hl.
  destruct (foldM_add_element_names _ _ _ H1 _ _ Hl) as [Hin|?]; [|done].
  cbn in Hin. by rewrite lookup_empty in Hin.
Qed.

Lemma go_without_destination_adds (src_element : string) :
  (∀ c, Forall (fun elem => getitem elem "name" ≠ Normal VNone)
          (items (api c GetElements).2)) →
  adds is_listing (fun _ : unit => False) (go api src_element None).
Proof.
  intros Hnames. unfold go. cbv zeta.
  eapply adds_bind; [apply adds_exit_unless|]. intros _ _.
  eapply adds_bind; [by apply adds_request|]. intros session _.
  eapply adds_bind; [apply adds_exit_unless|]. intros _ _.
  eapply adds_bind; [apply adds_print|]. intros _ _.
  eapply adds_bind.
  { eapply adds_post with
      (Q' := fun g => elem_name_id g !! KNone = None);
      [apply create_dicts_adds|].
    intros w w' g Hrun. destruct (elem_name_id g !! KNone) as [id|] eqn:Hl; [|done].
    destruct (create_dicts_name_table _ _ _ Hrun _ _ Hl)
      as (elem & name & Hin & Hn & Hk & _).
    destruct name as [|[]| | | |]; cbn in Hk; try done.
    specialize (Hnames (ctl w)). rewrite Forall_forall in Hnames.
    by destruct (Hnames elem Hin). }
  intros g Hg.
  eapply adds_bind with (Q := fun _ => False); [|by intros ? []].
  eapply adds_post.
  { eapply adds_conseq; [apply resolve_elements_adds|by intros ? []|done]. }
  intros w w' [e sid] Hres.
  destruct (resolve_elements_Normal _ _ _ _ _ _ _ Hres) as (_ & _ & Hd & _).
  apply tbl_getitem_Normal in Hd as (k & Hk & Hd). cbn in Hk. simplify_eq.
  by rewrite Hg in Hd.
Qed.

End Names.

(** [--dst_element] is declared optional, but a run without it copies
    nothing: unless the controller lists an element whose name is [None], the
    script never returns normally and makes no create or update call (it
    stops at the latest when the destination name is looked up). *)
Theorem destination_name_is_required {Ctl : Type}
    (api : Ctl → call → Ctl * response) (src_element : string) (w : world) :
  (∀ c, Forall (fun elem => getitem elem "name" ≠ Normal VNone)
          (items (api c GetElements).2)) →
  (go api src_element None w).2 ≠ Normal tt
  ∧ writes (trace (go api src_element None w).1) = writes (trace w).
Proof.
  intros Hnames.
  destruct (go_without_destination_adds api src_element Hnames w)
    as (cs & Hc & Hl & HQ).
  split.
  - intros H. exact (HQ tt H).
  - rewrite (writes_app_calls _ _ _ Hc), (no_writes_among_listings _ Hl).
    apply app_nil_r.
Qed.

Lemma destination_name_is_required_witness :
  (∀ c, Forall (fun elem => getitem elem "name" ≠ Normal VNone)
          (items (Site.controller true [Site.route_ip] [] c GetElements).2))
  ∧ (go (Site.controller true [Site.route_ip] []) "A" None Site.w0).2 ≠ Normal tt.
Proof.
  assert (H : ∀ c, Forall (fun elem => getitem elem "name" ≠ Normal VNone)
                (items (Site.controller true [Site.route_ip] [] c GetElements).2)).
  { intros c. repeat constructor; intros E; vm_compute in E; discriminate E. }
  split; [exact H|].
  exact (proj1 (destination_name_is_required
                  (Site.controller true [Site.route_ip] []) "A" Site.w0 H)).
Defined.

(** The shape of a successful [add_interface]. *)
Lemma add_interface_Normal (k : pykey) (g g' : globals) (intf : value) :
  add_interface k g intf = Normal g' →
  ∃ name id ki kn t tn,
    getitem intf "name" = Normal name ∧ getitem intf "id" = Normal id
    ∧ to_key id = Some ki ∧ to_key name = Some kn
    ∧ element_interfaces_by_id g !! k = Some t
    ∧ element_interfaces_by_name g !! k = Some tn
    ∧ element_interfaces_by_id g' !! k = Some (<[ki := name]> t)
    ∧ element_interfaces_by_name g' !! k = Some (<[kn := id]> tn).
Proof.
  unfold add_interface, mbind, outcome_bind, hash.
  destruct (getitem intf "name") as [name| |] eqn:E1; try done.
  destruct (element_interfaces_by_id g !! k) as [t|] eqn:E2; try done.
  destruct (getitem intf "id") as [id| |] eqn:E3; try done.
  destruct (to_key id) as [ki|] eqn:E4; try done.
  destruct (element_interfaces_by_name g !! k) as [tn|] eqn:E5; try done.
  destruct (to_key name) as [kn|] eqn:E6; try done.
  intros H. simplify_eq. exists name, id, ki, kn, t, tn. cbn.
  rewrite !lookup_insert_eq. done.
Qed.

Lemma foldM_add_interface_tables (k : pykey) (l : list value) (g g' : globals)
    (t0 tn0 : gmap pykey value) :
  foldM (add_interface k) g l = Normal g' →
  element_interfaces_by_id g !! k = Some t0 →
  element_interfaces_by_name g !! k = Some tn0 →
  ∃ t tn, element_interfaces_by_id g' !! k = Some t
          ∧ element_interfaces_by_name g' !! k = Some tn
          ∧ interface_tables_from l t0 tn0 t tn
          ∧ (∀ ki, is_Some (t0 !! ki) → is_Some (t !! ki))
          ∧ (∀ kn, is_Some (tn0 !! kn) → is_Some (tn !! kn)).
Proof.
  revert g t0 tn0. induction l as [|intf l IH]; intros g t0 tn0 Hf Ht Htn.
  - cbn in Hf. simplify_eq. exists t0, tn0. do 2 (split; [done|]).
    split; [|done]. split; [by left|]. split; [by left|].
    intros intf H. by apply elem_of_nil in H.
  - cbn [foldM] in Hf. unfold mbind, outcome_bind in Hf.
    destruct (add_interface k g intf) as [g1| |] eqn:H1; try done.
    destruct (add_interface_Normal _ _ _ _ H1)
      as (name & id & ki & kn & t' & tn' & Hn & Hid & Hki & Hkn & E1 & E2 & E3 & E4).
    rewrite Ht in E1. rewrite Htn in E2. simplify_eq.
    destruct (IH _ _ _ Hf E3 E4) as (t & tn & Et & Etn & (Hs1 & Hs2 & Hc) & Hm1 & Hm2).
    exists t, tn. do 2 (split; [done|]). split; [split; [|split]|split].
    + intros ki' name' Hl. destruct (Hs1 _ _ Hl) as [Hin|(x & i & Hx & ?)].
      * destruct (decide (ki = ki')) as [->|Hne].
        -- rewrite lookup_insert_eq in Hin. simplify_eq. right.
           exists intf, id. split; [by left|done].
        -- rewrite lookup_insert_ne in Hin by done. by left.
      * right. exists x, i. split; [by right|done].
    + intros kn' id' Hl. destruct (Hs2 _ _ Hl) as [Hin|(x & n & Hx & ?)].
      * destruct (decide (kn = kn')) as [->|Hne].
        -- rewrite lookup_insert_eq in Hin. simplify_eq. right.
           exists intf, name. split; [by left|done].
        -- rewrite lookup_insert_ne in Hin by done. by left.
      * right. exists x, n. split; [by right|done].
    + intros x Hx. apply elem_of_cons in Hx as [->|Hx]; [|by apply Hc].
      exists id, name, ki, kn. do 4 (split; [done|]). split.
      * apply Hm1. by rewrite lookup_insert_eq.
      * apply Hm2. by rewrite lookup_insert_eq.
    + intros ki' H. apply Hm1. rewrite lookup_insert_is_Some'. by right.
    + intros kn' H. apply Hm2. rewrite lookup_insert_is_Some'. by right.
Qed.

Lemma foldM_add_interface_inverse (k : pykey) (l : list value) (g g' : globals)
    (t0 tn0 : gmap pykey value) :
  foldM (add_interface k) g l = Normal g' →
  element_interfaces_by_id g !! k = Some t0 →
  element_interfaces_by_name g !! k = Some tn0 →
  interface_tables_inverse t0 tn0 →
  NoDup (map vrf_name_key l) →
  (∀ intf kn, intf ∈ l → vrf_name_key intf = Some kn → tn0 !! kn = None) →
  ∃ t tn, element_interfaces_by_id g' !! k = Some t
          ∧ element_interfaces_by_name g' !! k = Some tn
          ∧ interface_tables_inverse t tn.
Proof.
  revert g t0 tn0. induction l as [|intf l IH];
    intros g t0 tn0 Hf Ht Htn Hinv Hnd Hfresh.
  - cbn in Hf. simplify_eq. by exists t0, tn0.
  - cbn [foldM] in Hf. unfold mbind, outcome_bind in Hf.
    destruct (add_interface k g intf) as [g1| |] eqn:H1; try done.
    destruct (add_interface_Normal _ _ _ _ H1)
      as (name & id & ki & kn & t' & tn' & Hn & Hid & Hki & Hkn & E1 & E2 & E3 & E4).
    rewrite Ht in E1. rewrite Htn in E2. simplify_eq.
    assert (Hkey : vrf_name_key intf = Some kn).
    { unfold vrf_name_key. by rewrite Hn. }
    cbn [map] in Hnd. apply NoDup_cons in Hnd as [Hnotin Hnd].
    apply (IH _ _ _ Hf E3 E4); [|done|].
    + intros ki' name' Hl. destruct (decide (ki = ki')) as [->|Hne].
      * rewrite lookup_insert_eq in Hl. simplify_eq. exists kn, id.
        by rewrite lookup_insert_eq.
      * rewrite lookup_insert_ne in Hl by done.
        destruct (Hinv _ _ Hl) as (kn' & id' & Hk' & Hl' & Hb).
        exists kn', id'. split; [done|]. split; [|done].
        rewrite lookup_insert_ne; [done|]. intros ->.
        rewrite (Hfresh intf kn') in Hl'; [done|by left|done].
    + intros x kx Hx Hkx. rewrite lookup_insert_ne.
      * eapply Hfresh; [by right|done].
      * intros ->. apply Hnotin. rewrite Hkey, <- Hkx.
        apply list_elem_of_fmap. by exists x.
Qed.

(** The interface loop of [create_dicts] for one element (lines 96-99),
    started on that element's empty tables: an id is in the id-to-name table
    exactly when an interface of the listing has it, and with the name of
    such an interface, and likewise for names in the name-to-id table; and
    when the names of the listing are pairwise distinct, looking an id up by
    the name recorded for it gives that id back. *)
Theorem interface_tables_reflect_the_listing (k : pykey) (intlist : list value)
    (g g' : globals) :
  foldM (add_interface k) g intlist = Normal g' →
  element_interfaces_by_id g !! k = Some ∅ →
  element_interfaces_by_name g !! k = Some ∅ →
  ∃ by_id by_name,
    element_interfaces_by_id g' !! k = Some by_id
    ∧ element_interfaces_by_name g' !! k = Some by_name
    ∧ (∀ ki name, by_id !! ki = Some name →
         ∃ intf id, intf ∈ intlist ∧ getitem intf "id" = Normal id
                    ∧ to_key id = Some ki ∧ getitem intf "name" = Normal name)
    ∧ (∀ kn id, by_name !! kn = Some id →
         ∃ intf name, intf ∈ intlist ∧ getitem intf "name" = Normal name
                      ∧ to_key name = Some kn ∧ getitem intf "id" = Normal id)
    ∧ (∀ intf, intf ∈ intlist →
         ∃ id name ki kn, getitem intf "id" = Normal id ∧ to_key id = Some ki
           ∧ getitem intf "name" = Normal name ∧ to_key name = Some kn
           ∧ is_Some (by_id !! ki) ∧ is_Some (by_name !! kn))
    ∧ (NoDup (map vrf_name_key intlist) →
       ∀ ki name, by_id !! ki = Some name →
         ∃ kn id, to_key name = Some kn ∧ by_name !! kn = Some id
                  ∧ to_key id = Some ki).
Proof.
  intros Hf Hi Hn.
  destruct (foldM_add_interface_tables _ _ _ _ _ _ Hf Hi Hn)
    as (t & tn & Et & Etn & (Hs1 & Hs2 & Hc) & _).
  exists t, tn. do 2 (split; [done|]). split; [|split; [|split]].
  - intros ki name Hl. destruct (Hs1 _ _ Hl) as [Hin|?]; [|done].
    by rewrite lookup_empty in Hin.
  - intros kn id Hl. destruct (Hs2 _ _ Hl) as [Hin|?]; [|done].
    by rewrite lookup_empty in Hin.
  - done.
  - intros Hnd.
    destruct (foldM_add_interface_inverse _ _ _ _ _ _ Hf Hi Hn)
      as (t' & tn' & Et' & Etn' & Hinv); [| done | |].
    + intros ki name Hl. by rewrite lookup_empty in Hl.
    + intros. apply lookup_empty.
    + rewrite Et in Et'. rewrite Etn in Etn'. by simplify_eq.
Qed.

Lemma interface_tables_reflect_the_listing_witness :
  let g := match add_element initial_globals Site.elemA with
           | Normal g => g | _ => initial_globals end in
  let g' := match foldM (add_interface (KStr "eA")) g
                    [Site.vlan10A; Site.vlan20A; Site.port1A] with
            | Normal g' => g' | _ => g end in
  foldM (add_interface (KStr "eA")) g [Site.vlan10A; Site.vlan20A; Site.port1A]
  = Normal g'
  ∧ element_interfaces_by_id g !! KStr "eA" = Some ∅
  ∧ element_interfaces_by_name g !! KStr "eA" = Some ∅
  ∧ ∃ by_id by_name,
      element_interfaces_by_id g' !! KStr "eA" = Some by_id
      ∧ element_interfaces_by_name g' !! KStr "eA" = Some by_name.
Proof.
  cbv zeta.
  assert (H1 : foldM (add_interface (KStr "eA"))
                 (match add_element initial_globals Site.elemA with
                  | Normal g => g | _ => initial_globals end)
                 [Site.vlan10A; Site.vlan20A; Site.port1A]
               = Normal
                   (match foldM (add_interface (KStr "eA"))
                            (match add_element initial_globals Site.elemA with
                             | Normal g => g | _ => initial_globals end)
                            [Site.vlan10A; Site.vlan20A; Site.port1A] with
                    | Normal g' => g'
                    | _ => match add_element initial_globals Site.elemA with
                           | Normal g => g | _ => initial_globals end
                    end)) by (vm_compute; reflexivity).
  assert (H2 : element_interfaces_by_id
                 (match add_element initial_globals Site.elemA with
                  | Normal g => g | _ => initial_globals end) !! KStr "eA"
               = Some ∅) by (vm_compute; reflexivity).
  assert (H3 : element_interfaces_by_name
                 (match add_element initial_globals Site.elemA with
                  | Normal g => g | _ => initial_globals end) !! KStr "eA"
               = Some ∅) by (vm_compute; reflexivity).
  split; [exact H1|]. split; [exact H2|]. split; [exact H3|].
  destruct (interface_tables_reflect_the_listing _ _ _ _ H1 H2 H3)
    as (by_id & by_name & E1 & E2 & _).
  exists by_id, by_name. split; [exact E1|exact E2].
Defined.

(* ===================================================================== *)
(** ** The whole script on well-formed listings *)
(* ===================================================================== *)

Section EndsWell.
Context {Ctl : Type}.
Variable api : Ctl → call → Ctl * response.
Implicit Types w : @world Ctl.

Lemma ends_well_bind {A B} (Q : A → Prop) (R : B → Prop)
    (m : @M Ctl A) (f : A → @M Ctl B) :
  ends_well Q m → (∀ a, Q a → ends_well R (f a)) → ends_well R (m ≫= f).
Proof.
  intros Hm Hf w. specialize (Hm w). unfold mbind, M_bind.
  destruct (m w) as [w1 [a|x|c]]; cbn in *; [by apply Hf|done..].
Qed.

Lemma ends_well_conseq {A} (Q Q' : A → Prop) (m : @M Ctl A) :
  ends_well Q m → (∀ a, Q a → Q' a) → ends_well Q' m.
Proof.
  intros Hm HQ w. specialize (Hm w). destruct ((m w).2); [by apply HQ|done..].
Qed.

Lemma ends_well_lift {A} (Q : A → Prop) (o : outcome A) (a : A) :
  o = Normal a → Q a → ends_well (Ctl := Ctl) Q (lift o).
Proof. intros -> Ha w. exact Ha. Qed.

Lemma ends_well_mret {A} (Q : A → Prop) (a : A) :
  Q a → ends_well (Ctl := Ctl) Q (mret a).
Proof. intros Ha w. exact Ha. Qed.

Lemma ends_well_print (m : message) :
  ends_well (Ctl := Ctl) (fun _ => True) (print m).
Proof. by intros w. Qed.

Lemma ends_well_jd_detailed (r : response) :
  ends_well (Ctl := Ctl) (fun _ => True) (jd_detailed r).
Proof. by intros w. Qed.

Lemma ends_well_sys_exit {A} (Q : A → Prop) :
  ends_well (Ctl := Ctl) Q (sys_exit 1).
Proof. by intros w. Qed.

Lemma ends_well_exit_unless (ok : bool) (m : message) :
  ends_well (Ctl := Ctl) (fun _ => ok = true) (exit_unless ok m).
Proof. intros w. by destruct ok. Qed.

Lemma ends_well_request (c : call) :
  ends_well (fun r => ∃ s, r = (api s c).2) (request api c).
Proof.
  intros w. unfold request. destruct (api (ctl w) c) as [s r] eqn:E. cbn.
  exists (ctl w). by rewrite E.
Qed.

Lemma ends_well_fail {A} (Q : A → Prop) (m1 : message) (r : response) :
  ends_well (Ctl := Ctl) Q (print m1;; jd_detailed r;; sys_exit 1).
Proof. by intros w. Qed.

Lemma ends_well_report (ok : bool) (m1 m2 : message) (r : response) :
  ends_well (Ctl := Ctl) (fun _ => True)
    (if ok then print m1 else print m2;; jd_detailed r).
Proof. intros w. by destruct ok. Qed.

Lemma ends_well_Normal {A} (Q : A → Prop) (m : @M Ctl A) :
  (∀ w, ∃ w' a, m w = (w', Normal a) ∧ Q a) → ends_well Q m.
Proof. intros H w. destruct (H w) as (w' & a & -> & Ha). exact Ha. Qed.

Lemma ends_well_for_fold {A B} (I : A → Prop) (body : A → B → @M Ctl A)
    (l : list B) (a : A) :
  I a → (∀ a b, b ∈ l → I a → ends_well I (body a b)) →
  ends_well I (for_fold body a l).
Proof.
  revert a. induction l as [|b l IH]; intros a Ha Hb; cbn [for_fold].
  - by apply ends_well_mret.
  - eapply ends_well_bind; [apply Hb; [by left|done]|]. intros a' Ha'.
    apply IH; [done|]. intros a'' b' ? ?. apply Hb; [by right|done].
Qed.

End EndsWell.

Lemma hashable_of_key (v : value) (k : pykey) : to_key v = Some k → hashable v = true.
Proof. unfold hashable. by intros ->. Qed.

Lemma tables_hashable_initial : tables_hashable initial_globals.
Proof.
  split.
  - intros k v H. cbn in H. by rewrite lookup_empty in H.
  - intros k t ki v H. cbn in H. by rewrite lookup_empty in H.
Qed.

Lemma add_element_hashable (g g' : globals) (elem : value) :
  add_element g elem = Normal g' → tables_hashable g → tables_hashable g'.
Proof.
  intros H [Hv Hi].
  destruct (add_element_Normal _ _ _ H)
    as (name & id & k & kn & site & model & _ & _ & _ & _ & _ & _ & ->).
  split; [exact Hv|]. cbn. intros k' t ki v Ht Hl.
  destruct (decide (k = k')) as [->|Hne].
  - rewrite lookup_insert_eq in Ht. injection Ht as <-.
    by rewrite lookup_empty in Hl.
  - rewrite lookup_insert_ne in Ht by done. eauto.
Qed.

Lemma add_vrf_hashable (g g' : globals) (vrf : value) :
  add_vrf g vrf = Normal g' → tables_hashable g → tables_hashable g'.
Proof.
  unfold add_vrf, mbind, outcome_bind, hash. intros H [Hv Hi].
  destruct (getitem vrf "name") as [name| |]; try done.
  destruct (getitem vrf "id") as [id| |]; try done.
  destruct (to_key id) as [k|]; try done.
  destruct (to_key name) as [kn|] eqn:Hkn; try done.
  simplify_eq. split; [|exact Hi]. cbn. intros k' v Hl.
  destruct (decide (k = k')) as [->|Hne].
  - rewrite lookup_insert_eq in Hl. simplify_eq. by eapply hashable_of_key.
  - rewrite lookup_insert_ne in Hl by done. eauto.
Qed.

Lemma add_interface_hashable (k : pykey) (g g' : globals) (intf : value) :
  add_interface k g intf = Normal g' → tables_hashable g → tables_hashable g'.
Proof.
  intros H [Hv Hi].
  destruct (add_interface_added _ _ _ _ H) as ((_ & _ & _ & Egid & _) & Hframe & _).
  destruct (add_interface_Normal _ _ _ _ H)
    as (name & id & ki & kn & t & tn & _ & _ & _ & Hkn & Et & _ & Et' & _).
  split.
  - intros k' v. rewrite Egid. apply Hv.
  - intros k' t' ki' v Ht Hl. destruct (decide (k' = k)) as [->|Hne].
    + rewrite Et' in Ht. simplify_eq.
      destruct (decide (ki = ki')) as [->|Hne].
      * rewrite lookup_insert_eq in Hl. simplify_eq. by eapply hashable_of_key.
      * rewrite lookup_insert_ne in Hl by done. eauto.
    + destruct (Hframe k' Hne) as [E _]. rewrite E in Ht. eauto.
Qed.

Lemma foldM_preserves {A B} (f : A → B → outcome A) (I : A → Prop) (l : list B) :
  (∀ a a' b, f a b = Normal a' → I a → I a') →
  ∀ a a', foldM f a l = Normal a' → I a → I a'.
Proof.
  intros Hf. induction l as [|b l IH]; intros a a' H Ha.
  - cbn in H. by simplify_eq.
  - cbn [foldM] in H. unfold mbind, outcome_bind in H.
    destruct (f a b) as [a1| |] eqn:E; try done. eauto.
Qed.

Lemma wf_interface_record_named (r : value) :
  wf_interface_record r = true → wf_named r = true.
Proof. unfold wf_interface_record. by intros [? _]%andb_true_iff. Qed.

Lemma wf_interface_record_interface (r : value) :
  wf_interface_record r = true → wf_interface r = true.
Proof. unfold wf_interface_record. by intros [_ ?]%andb_true_iff. Qed.

Lemma all_hashable_intro (t : gmap pykey value) :
  (∀ k v, t !! k = Some v → hashable v = true) → all_hashable t = true.
Proof.
  intros H. unfold all_hashable. apply forallb_forall. intros [k v] Hin.
  apply list_elem_of_In, elem_of_map_to_list in Hin. cbn. eauto.
Qed.

Lemma index_ok_intro (idx : gmap pykey value) :
  (∀ k d, idx !! k = Some d → ∃ rid, getitem d "id" = Normal rid) →
  index_ok idx = true.
Proof.
  intros H. unfold index_ok. apply forallb_forall. intros [k d] Hin.
  apply list_elem_of_In, elem_of_map_to_list in Hin. cbn.
  by destruct (H _ _ Hin) as [rid ->].
Qed.

Section CreateDictsEndsWell.
Context {Ctl : Type}.
Variable api : Ctl → call → Ctl * response.
Hypothesis Hwf : wf_controller api.
Implicit Types w : @world Ctl.

Lemma load_elements_ends_well (g : globals) :
  elements_ok g → tables_hashable g →
  ends_well (fun g1 => elements_ok g1 ∧ tables_hashable g1) (load_elements api g).
Proof.
  intros Hok Hh. unfold load_elements.
  eapply ends_well_bind; [apply ends_well_request|]. intros resp [s ->].
  destruct (cgx_status _); [|apply ends_well_fail].
  destruct (Hwf s) as (He & _).
  destruct (foldM_total add_element wf_element _
              (fun a b => add_element_total a b) He g) as [g1 H1].
  eapply ends_well_lift; [exact H1|]. split.
  - by apply (foldM_add_element _ _ _ H1).
  - eapply (foldM_preserves add_element tables_hashable); [|exact H1|done].
    intros a a' b. apply add_element_hashable.
Qed.

Lemma load_vrfs_ends_well (g : globals) :
  elements_ok g → tables_hashable g →
  ends_well (fun g1 => elements_ok g1 ∧ tables_hashable g1) (load_vrfs api g).
Proof.
  intros Hok Hh. unfold load_vrfs.
  eapply ends_well_bind; [apply ends_well_request|]. intros resp [s ->].
  destruct (cgx_status _); [|apply ends_well_fail].
  destruct (Hwf s) as (_ & Hv & _).
  destruct (foldM_total add_vrf wf_named _
              (fun a b => add_vrf_total a b) Hv g) as [g1 H1].
  eapply ends_well_lift; [exact H1|]. split.
  - destruct (foldM_add_vrf_keeps _ _ _ H1) as (V1 & V2 & V3 & V4 & V5).
    apply (elements_ok_ext g); try done.
    + intros k. by rewrite V4.
    + intros k. by rewrite V5.
  - eapply (foldM_preserves add_vrf tables_hashable); [|exact H1|done].
    intros a a' b. apply add_vrf_hashable.
Qed.

Lemma load_element_interfaces_hashable (g g' : globals) (it : value * value) w w' :
  load_element_interfaces api g it w = (w', Normal g') →
  tables_hashable g → tables_hashable g'.
Proof.
  destruct it as [o name]. unfold load_element_interfaces, tbl_get, hash.
  destruct (to_key o) as [k|] eqn:Hk; [|done]. cbn [mbind outcome_bind].
  rewrite bind_lift_Normal. destruct (truthy _).
  - rewrite bind_request. cbn [ctl trace]. destruct (cgx_status _).
    + rewrite bind_lift_Normal. unfold lift.
      destruct (foldM (add_interface k) g _) as [g1| |] eqn:Hf; try done.
      intros H Hh. simplify_eq.
      eapply (foldM_preserves (add_interface k) tables_hashable); [|exact Hf|done].
      intros a a' b. apply add_interface_hashable.
    + rewrite bind_print, bind_jd_detailed. unfold mret, M_ret.
      intros H. by simplify_eq.
  - rewrite bind_print. unfold mret, M_ret. intros H. by simplify_eq.
Qed.

Lemma load_interfaces_ends_well (g : globals) :
  elements_ok g → tables_hashable g →
  ends_well (fun g1 => elements_ok g1 ∧ tables_hashable g1) (load_interfaces api g).
Proof.
  intros Hok Hh. unfold load_interfaces.
  eapply ends_well_conseq.
  - apply (ends_well_for_fold
             (fun a => elem_id_name a = elem_id_name g
                       ∧ elements_ok a ∧ tables_hashable a)); [done|].
    intros a it Hin (Eq & Ha & Hha).
    apply ends_well_Normal. intros w.
    unfold odict_items in Hin.
    apply list_elem_of_fmap in Hin as ([k [o name]] & -> & Hin).
    cbn [snd]. rewrite <- Eq in Hin.
    destruct Ha as [Hd Hn]. destruct (Hd _ _ _ Hin) as (Hk & _ & Hi & Hni).
    destruct (load_element_interfaces_total api a o name k w) as (w' & g' & Hrun);
      try done.
    { intros c s x. destruct (Hwf c) as (_ & _ & Hintf & _).
      eapply Forall_impl; [apply Hintf|]. apply wf_interface_record_named. }
    exists w', g'. split; [done|].
    destruct (load_element_interfaces_loaded _ _ _ _ _ _ Hrun)
      as ((S1 & S2 & S3 & _) & Hi' & Hn' & _).
    split; [congruence|]. split.
    + by apply (elements_ok_ext a).
    + by eapply load_element_interfaces_hashable.
  - by intros a (_ & ? & ?).
Qed.

Lemma create_dicts_ends_well :
  ends_well (fun g => elements_ok g ∧ tables_hashable g)
    (create_dicts api initial_globals).
Proof.
  unfold create_dicts.
  eapply ends_well_bind.
  { apply load_elements_ends_well;
      [apply elements_ok_initial|apply tables_hashable_initial]. }
  intros g1 [? ?].
  eapply ends_well_bind; [by apply load_vrfs_ends_well|]. intros g2 [? ?].
  by apply load_interfaces_ends_well.
Qed.

End CreateDictsEndsWell.

Lemma index_routes_total (l : list value) :
  Forall (fun r => wf_route_record r = true) l →
  ∃ idx, index_routes l = Normal idx ∧ index_ok idx = true.
Proof.
  intros Hl.
  destruct (foldM_total index_route wf_route_record l) with (a := (∅ : gmap pykey value))
    as [idx Hidx]; [|done|].
  - intros a b Hb. unfold wf_route_record in Hb.
    apply andb_true_iff in Hb as [Hb _]. unfold wf_route in Hb.
    destruct b as [| | | | |d]; try done.
    destruct (d !! "destination_prefix") as [prefix|] eqn:Hp; [|done].
    destruct (d !! "name"); [|done].
    apply andb_true_iff in Hb as [Hb _]. apply andb_true_iff in Hb as [Hb _].
    apply hashable_true in Hb as [k Hk].
    exists (<[k := VDict d]> a). apply (index_route_Normal _ _ prefix); [|done].
    cbn. by rewrite Hp.
  - exists idx. split; [done|]. apply index_ok_intro. intros k d Hd.
    pose proof (index_routes_from _ _ _ Hidx k) as Hfrom. rewrite Hd in Hfrom.
    destruct Hfrom as [Hin|[Hin _]]; [by rewrite lookup_empty in Hin|].
    rewrite Forall_forall in Hl. specialize (Hl d Hin).
    unfold wf_route_record in Hl. apply andb_true_iff in Hl as [_ Hl].
    destruct (getitem d "id"); [eauto|done..].
Qed.

Lemma index_interfaces_total (l : list value) :
  Forall (fun r => wf_interface_record r = true) l →
  ∃ idx, index_interfaces l = Normal idx ∧ index_ok idx = true.
Proof.
  intros Hl.
  destruct (foldM_total index_interface wf_interface_record l)
    with (a := (∅ : gmap pykey value)) as [idx Hidx]; [|done|].
  - intros a b Hb. unfold wf_interface_record in Hb.
    apply andb_true_iff in Hb as [_ Hb]. unfold wf_interface in Hb.
    destruct b as [| | | | |d]; try done. unfold index_interface. cbn [getitem].
    destruct (d !! "type") as [t|] eqn:Ht; [|done]. cbn.
    destruct (is_vlan_type t); [|eauto].
    destruct (d !! "name") as [n|]; [|done]. cbn.
    apply hashable_true in Hb as [k Hk]. unfold hash. rewrite Hk. cbn. eauto.
  - exists idx. split; [done|]. apply index_ok_intro. intros k d Hd.
    pose proof (index_interfaces_from _ _ _ Hidx k) as Hfrom. rewrite Hd in Hfrom.
    destruct Hfrom as [Hin|[Hin _]]; [by rewrite lookup_empty in Hin|].
    rewrite Forall_forall in Hl. specialize (Hl d Hin).
    apply wf_interface_record_named in Hl. unfold wf_named in Hl.
    destruct (getitem d "name"); try done.
    destruct (getitem d "id"); [eauto|done..].
Qed.

Section GoEndsWell.
Context {Ctl : Type}.
Variable api : Ctl → call → Ctl * response.
Hypothesis Hwf : wf_controller api.
Implicit Types w : @world Ctl.

Lemma ends_well_lift_eq {A} (o : outcome A) (a : A) :
  o = Normal a → ends_well (Ctl := Ctl) (fun x => x = a) (lift o).
Proof. by intros -> w. Qed.

Lemma resolve_elements_ends_well (g : globals) (src dst : value) :
  elements_ok g → tables_hashable g →
  hashable src = true → hashable dst = true →
  ends_well (Ctl := Ctl) (fun r => env_ok r.1 = true) (resolve_elements g src dst).
Proof.
  intros [_ Hn] [Hv Hi] Hs Hd.
  apply hashable_true in Hs as [ks Hks]. apply hashable_true in Hd as [kd Hkd].
  unfold resolve_elements, tbl_mem, hash. rewrite Hks, Hkd.
  cbn [mbind outcome_bind].
  eapply ends_well_bind; [by apply ends_well_lift_eq|]. intros ? ->.
  destruct (elem_name_id g !! ks) as [seid|] eqn:Hse;
    [|eapply ends_well_bind; [apply ends_well_exit_unless|done]].
  eapply ends_well_bind; [apply ends_well_exit_unless|]. intros _ _.
  eapply ends_well_bind; [by apply ends_well_lift_eq|]. intros ? ->.
  destruct (elem_name_id g !! kd) as [deid|] eqn:Hde;
    [|eapply ends_well_bind; [apply ends_well_exit_unless|done]].
  eapply ends_well_bind; [apply ends_well_exit_unless|]. intros _ _.
  destruct (Hn _ _ Hse) as (k1 & Hk1 & [ssid Hss] & [bi Hbi] & _).
  destruct (Hn _ _ Hde) as (k2 & Hk2 & [dsid Hds] & _ & [bn Hbn]).
  eapply ends_well_bind;
    [apply ends_well_lift_eq; by eapply tbl_getitem_Some|]. intros ? ->.
  eapply ends_well_bind;
    [apply ends_well_lift_eq; by eapply tbl_getitem_Some|]. intros ? ->.
  eapply ends_well_bind;
    [apply ends_well_lift_eq; by eapply tbl_getitem_Some|]. intros ? ->.
  eapply ends_well_bind;
    [apply ends_well_lift_eq; by eapply tbl_getitem_Some|]. intros ? ->.
  eapply ends_well_bind; [apply ends_well_print|]. intros _ _.
  apply ends_well_mret. unfold env_ok. cbn [fst e_tables e_src_eid e_dst_eid].
  rewrite (tbl_getitem_Some _ _ _ _ Hk1 Hbi), (tbl_getitem_Some _ _ _ _ Hk2 Hbn).
  apply andb_true_iff. split; apply all_hashable_intro; eauto.
Qed.

Lemma copy_static_routes_ends_well e src_sid :
  env_ok e = true →
  ends_well (fun _ => True) (copy_static_routes api e src_sid).
Proof.
  intros He. unfold copy_static_routes.
  eapply ends_well_bind; [apply ends_well_print|]. intros _ _.
  eapply ends_well_bind; [apply ends_well_request|]. intros resp1 [s1 ->].
  eapply ends_well_bind.
  { destruct (cgx_status _); [apply ends_well_print|apply ends_well_fail]. }
  intros _ _.
  eapply ends_well_bind; [apply ends_well_request|]. intros resp2 [s2 ->].
  destruct (Hwf s1) as (_ & _ & _ & Hr1). destruct (Hwf s2) as (_ & _ & _ & Hr2).
  eapply ends_well_bind with (Q := fun idx => index_ok idx = true).
  { destruct (cgx_status _); [|apply ends_well_fail].
    destruct (index_routes_total _ (Hr2 (e_dst_sid e) (e_dst_eid e)))
      as (idx & Hidx & Hok).
    eapply ends_well_bind; [by apply ends_well_lift_eq|]. intros ? ->.
    eapply ends_well_bind; [apply ends_well_print|]. intros _ _.
    by apply ends_well_mret. }
  intros idx Hidx. apply ends_well_Normal. intros w.
  destruct (for_each_routes_wf api e idx
              (items (api s1 (GetStaticroutes src_sid (e_src_eid e))).2)
              w He Hidx) as (w' & cs & Hrun & _).
  { eapply Forall_impl; [apply (Hr1 src_sid (e_src_eid e))|].
    intros r Hr. unfold wf_route_record in Hr.
    by apply andb_true_iff in Hr as [? _]. }
  by exists w', tt.
Qed.

Lemma copy_interfaces_ends_well e src_sid :
  ends_well (fun _ => True) (copy_interfaces api e src_sid).
Proof.
  unfold copy_interfaces.
  eapply ends_well_bind; [apply ends_well_print|]. intros _ _.
  eapply ends_well_bind; [apply ends_well_request|]. intros resp1 [s1 ->].
  eapply ends_well_bind.
  { destruct (cgx_status _); [apply ends_well_print|apply ends_well_fail]. }
  intros _ _.
  eapply ends_well_bind; [apply ends_well_request|]. intros resp2 [s2 ->].
  destruct (Hwf s1) as (_ & _ & Hi1 & _). destruct (Hwf s2) as (_ & _ & Hi2 & _).
  eapply ends_well_bind with (Q := fun idx => index_ok idx = true).
  { destruct (cgx_status _); [|apply ends_well_fail].
    destruct (index_interfaces_total _ (Hi2 (e_dst_sid e) (e_dst_eid e)))
      as (idx & Hidx & Hok).
    eapply ends_well_bind; [by apply ends_well_lift_eq|]. intros ? ->.
    eapply ends_well_bind; [apply ends_well_print|]. intros _ _.
    by apply ends_well_mret. }
  intros idx Hidx. apply ends_well_Normal. intros w.
  destruct (for_each_interfaces_wf api e idx
              (items (api s1 (GetInterfaces src_sid (e_src_eid e))).2)
              w Hidx) as (w' & cs & Hrun & _).
  { eapply Forall_impl; [apply (Hi1 src_sid (e_src_eid e))|].
    apply wf_interface_record_interface. }
  by exists w', tt.
Qed.

Lemma go_ends_well (src_element : string) (dst_element : option string) :
  ends_well (fun _ => True) (go api src_element dst_element).
Proof.
  unfold go. cbv zeta.
  eapply ends_well_bind; [apply ends_well_exit_unless|]. intros _ _.
  eapply ends_well_bind; [apply ends_well_request|]. intros session _.
  eapply ends_well_bind; [apply ends_well_exit_unless|]. intros _ _.
  eapply ends_well_bind; [apply ends_well_print|]. intros _ _.
  eapply ends_well_bind; [by apply create_dicts_ends_well|]. intros g [Hok Hh].
  eapply ends_well_bind.
  { apply resolve_elements_ends_well; try done. by destruct dst_element. }
  intros [e src_sid] He. cbn [fst] in He.
  eapply ends_well_bind; [by apply copy_static_routes_ends_well|]. intros _ _.
  apply copy_interfaces_ends_well.
Qed.

End GoEndsWell.

(** When every listing the controller answers with holds records of the
    expected shape (elements with name, id, site_id and model_name; VRFs and
    interfaces with hashable id and name, interfaces with a type; static
    routes with id, name, hashable destination_prefix and references, and a
    list of objects as nexthops), the script never ends in a Python
    exception, whatever the arguments and whatever the status of any reply,
    the replies to the write calls included: it runs to its end or leaves
    through [sys.exit(1)]. *)
Theorem go_never_raises_on_wellformed_listings {Ctl : Type}
    (api : Ctl → call → Ctl * response)
    (src_element : string) (dst_element : option string) (w : world) :
  wf_controller api →
  (go api src_element dst_element w).2 = Normal tt
  ∨ (go api src_element dst_element w).2 = SysExit 1.
Proof.
  intros Hwf. pose proof (go_ends_well api Hwf src_element dst_element w) as H.
  destruct ((go api src_element dst_element w).2) as [[]|x|code].
  - by left.
  - destruct H.
  - right. by rewrite H.
Qed.

Section InOrder.
Context {Ctl : Type}.
Variable api : Ctl → call → Ctl * response.
Implicit Types w : @world Ctl.

Lemma process_route_exact e idx (route : value) w :
  env_ok e = true → index_ok idx = true → wf_route route = true →
  ∃ w' cs, process_route api e idx route w = (w', Normal tt)
    ∧ calls (trace w') = calls (trace w) ++ cs
    ∧ Forall2 (fun r c => ∃ d, r = VDict d ∧ route_call e d c)
        (List.filter (vrf_resolves (e_tables e)) [route]) cs.
Proof.
  intros He Hidx Hr.
  destruct (process_route_wf api e idx route w He Hidx Hr)
    as (w' & cs & Hrun & Hc & _ & Hn).
  destruct (process_route_adds api e idx route w) as (cs' & Hc' & HP & _ & _).
  rewrite Hrun in Hc'. cbn [fst] in Hc'. rewrite Hc in Hc'.
  apply app_inv_head in Hc'. subst cs'.
  exists w', cs. split; [done|]. split; [done|]. cbn [List.filter].
  destruct (vrf_resolves (e_tables e) route).
  - destruct cs as [|c [|? ?]]; try done.
    apply Forall_cons in HP as [Hc0 _]. by repeat constructor.
  - destruct cs; [constructor|done].
Qed.

Lemma for_each_routes_exact e idx (routes : list value) w :
  env_ok e = true → index_ok idx = true →
  Forall (fun r => wf_route r = true) routes →
  ∃ w' cs, for_each (process_route api e idx) routes w = (w', Normal tt)
    ∧ calls (trace w') = calls (trace w) ++ cs
    ∧ Forall2 (fun r c => ∃ d, r = VDict d ∧ route_call e d c)
        (List.filter (vrf_resolves (e_tables e)) routes) cs.
Proof.
  intros He Hidx Hl. revert w. induction Hl as [|r l Hr _ IH]; intros w.
  - exists w, []. split; [done|]. rewrite app_nil_r. split; [done|constructor].
  - destruct (process_route_exact e idx r w He Hidx Hr) as (w1 & cs1 & H1 & Hc1 & HF1).
    destruct (IH w1) as (w2 & cs2 & H2 & Hc2 & HF2).
    cbn [for_each]. unfold mbind, M_bind. rewrite H1.
    exists w2, (cs1 ++ cs2). split; [done|]. split.
    { rewrite Hc2, Hc1. by rewrite app_assoc. }
    change (r :: l) with ([r] ++ l). rewrite List.filter_app.
    by apply Forall2_app.
Qed.

Lemma process_interface_exact e idx (intf : value) w :
  index_ok idx = true → wf_interface intf = true →
  ∃ w' cs, process_interface api e idx intf w = (w', Normal tt)
    ∧ calls (trace w') = calls (trace w) ++ cs
    ∧ Forall2 (fun r c => ∃ d, r = VDict d ∧ interface_call e d c)
        (List.filter has_vlan_type [intf]) cs.
Proof.
  intros Hidx Hr.
  destruct (process_interface_wf api e idx intf w Hidx Hr)
    as (w' & cs & Hrun & Hc & _ & Hn).
  destruct (process_interface_adds api e idx intf w) as (cs' & Hc' & HP & _ & _).
  rewrite Hrun in Hc'. cbn [fst] in Hc'. rewrite Hc in Hc'.
  apply app_inv_head in Hc'. subst cs'.
  exists w', cs. split; [done|]. split; [done|]. cbn [List.filter].
  destruct (has_vlan_type intf).
  - destruct cs as [|c [|? ?]]; try done.
    apply Forall_cons in HP as [(d & Hd & _ & Hc0) _].
    repeat constructor. by exists d.
  - destruct cs; [constructor|done].
Qed.

Lemma for_each_interfaces_exact e idx (intfs : list value) w :
  index_ok idx = true →
  Forall (fun r => wf_interface r = true) intfs →
  ∃ w' cs, for_each (process_interface api e idx) intfs w = (w', Normal tt)
    ∧ calls (trace w') = calls (trace w) ++ cs
    ∧ Forall2 (fun r c => ∃ d, r = VDict d ∧ interface_call e d c)
        (List.filter has_vlan_type intfs) cs.
Proof.
  intros Hidx Hl. revert w. induction Hl as [|r l Hr _ IH]; intros w.
  - exists w, []. split; [done|]. rewrite app_nil_r. split; [done|constructor].
  - destruct (process_interface_exact e idx r w Hidx Hr) as (w1 & cs1 & H1 & Hc1 & HF1).
    destruct (IH w1) as (w2 & cs2 & H2 & Hc2 & HF2).
    cbn [for_each]. unfold mbind, M_bind. rewrite H1.
    exists w2, (cs1 ++ cs2). split; [done|]. split.
    { rewrite Hc2, Hc1. by rewrite app_assoc. }
    change (r :: l) with ([r] ++ l). rewrite List.filter_app.
    by apply Forall2_app.
Qed.

End InOrder.

(** On well-formed records the loops write in source listing order: the
    calls of the route loop are, one for one and in order, creates or
    updates for the source routes whose VRF reference resolves, and those of
    the interface loop for the source interfaces of type vlan or
    subinterface, each call being addressed to the destination and carrying
    the fields of its source record as the rewriting leaves them. *)
Theorem loops_write_in_listing_order {Ctl : Type}
    (api : Ctl → call → Ctl * response) (e : env)
    (dst_routes_by_prefix dst_interfaces_by_name : gmap pykey value)
    (source_static_routes_list interface_list : list value) (w : world) :
  env_ok e = true →
  index_ok dst_routes_by_prefix = true →
  index_ok dst_interfaces_by_name = true →
  Forall (fun r => wf_route r = true) source_static_routes_list →
  Forall (fun i => wf_interface i = true) interface_list →
  (∃ w' cs,
     for_each (process_route api e dst_routes_by_prefix)
       source_static_routes_list w = (w', Normal tt)
     ∧ calls (trace w') = calls (trace w) ++ cs
     ∧ Forall2 (fun r c => ∃ d, r = VDict d ∧ route_call e d c)
         (List.filter (vrf_resolves (e_tables e)) source_static_routes_list) cs)
  ∧ (∃ w' cs,
       for_each (process_interface api e dst_interfaces_by_name)
         interface_list w = (w', Normal tt)
       ∧ calls (trace w') = calls (trace w) ++ cs
       ∧ Forall2 (fun r c => ∃ d, r = VDict d ∧ interface_call e d c)
           (List.filter has_vlan_type interface_list) cs).
Proof.
  intros He Hr Hi Hrs His. split.
  - by apply for_each_routes_exact.
  - by apply for_each_interfaces_exact.
Qed.


(* ===================================================================== *)
(** ** More of the small site *)
(* ===================================================================== *)

Lemma last_destination_record_wins_witness :
  index_routes ([Site.route_ip_B_no_etag] ++ Site.route_ip_B :: [])
  = Normal (Site.index_of [Site.route_ip_B_no_etag; Site.route_ip_B])
  ∧ index_interfaces ([Site.port1A] ++ Site.vlan10B :: [])
    = Normal (Site.interface_index_of [Site.port1A; Site.vlan10B])
  ∧ Site.index_of [Site.route_ip_B_no_etag; Site.route_ip_B] !! KStr "10.0.0.0/8"
    = Some Site.route_ip_B.
Proof.
  assert (H1 : index_routes ([Site.route_ip_B_no_etag] ++ Site.route_ip_B :: [])
               = Normal (Site.index_of [Site.route_ip_B_no_etag; Site.route_ip_B]))
    by (vm_compute; reflexivity).
  assert (H2 : index_interfaces ([Site.port1A] ++ Site.vlan10B :: [])
               = Normal (Site.interface_index_of [Site.port1A; Site.vlan10B]))
    by (vm_compute; reflexivity).
  split; [exact H1|]. split; [exact H2|].
  refine (proj1 (last_destination_record_wins
                   [Site.route_ip_B_no_etag] [] [Site.port1A] []
                   Site.route_ip_B Site.vlan10B (VStr "10.0.0.0/8") (VStr "vlan10")
                   (KStr "10.0.0.0/8") (KStr "vlan10") _ _
                   H1 _ _ _ H2 _ _ _ _)).
  - vm_compute. reflexivity.
  - reflexivity.
  - intros d x Hd. apply elem_of_nil in Hd. destruct Hd.
  - vm_compute. reflexivity.
  - vm_compute. reflexivity.
  - reflexivity.
  - intros d x Hd. apply elem_of_nil in Hd. destruct Hd.
Defined.

Lemma failed_listing_exits_before_any_write_witness :
  (copy_static_routes (Site.controller true [] []) Site.envAB (VStr "sX")
     Site.w0).2 = SysExit 1.
Proof.
  exact (proj1 (proj1 (failed_listing_exits_before_any_write
                         (Site.controller true [] []) Site.envAB (VStr "sX")
                         Site.w0) eq_refl)).
Defined.

Lemma site_controller_wellformed (accept : bool) :
  wf_controller (Site.controller accept [Site.route_vlan10; Site.route_ip]
                   [Site.route_ip_B]).
Proof.
  intros c. split; [repeat constructor|]. split; [repeat constructor|].
  split; intros s o; unfold Site.controller; cbn [snd].
  - unfold Site.interfaces_of.
    destruct (eq_str s "sA" && eq_str o "eA"); [repeat constructor|].
    destruct (eq_str s "sB" && eq_str o "eB"); repeat constructor.
  - unfold Site.routes_of.
    destruct (eq_str s "sA" && eq_str o "eA"); [repeat constructor|].
    destruct (eq_str s "sB" && eq_str o "eB"); repeat constructor.
Qed.

Lemma go_never_raises_on_wellformed_listings_witness :
  wf_controller (Site.controller false [Site.route_vlan10; Site.route_ip]
                   [Site.route_ip_B])
  ∧ ((go (Site.controller false [Site.route_vlan10; Site.route_ip]
            [Site.route_ip_B]) "A" (Some "B") Site.w0).2 = Normal tt
     ∨ (go (Site.controller false [Site.route_vlan10; Site.route_ip]
              [Site.route_ip_B]) "A" (Some "B") Site.w0).2 = SysExit 1).
Proof.
  split; [exact (site_controller_wellformed false)|].
  exact (go_never_raises_on_wellformed_listings _ "A" (Some "B") Site.w0
           (site_controller_wellformed false)).
Defined.

Lemma loops_write_in_listing_order_witness :
  env_ok Site.envAB = true
  ∧ index_ok (Site.index_of [Site.route_ip_B]) = true
  ∧ index_ok (Site.interface_index_of [Site.vlan10B]) = true
  ∧ Forall (fun r => wf_route r = true) [Site.route_vlan10; Site.route_ip]
  ∧ Forall (fun i => wf_interface i = true) [Site.port1A; Site.vlan20A]
  ∧ ∃ w' cs,
      for_each (process_route (Site.controller true [] []) Site.envAB
                  (Site.index_of [Site.route_ip_B]))
        [Site.route_vlan10; Site.route_ip] Site.w0 = (w', Normal tt)
      ∧ calls (trace w') = calls (trace Site.w0) ++ cs
      ∧ length cs = 2%nat.
Proof.
  assert (H1 : env_ok Site.envAB = true) by (vm_compute; reflexivity).
  assert (H2 : index_ok (Site.index_of [Site.route_ip_B]) = true)
    by (vm_compute; reflexivity).
  assert (H3 : index_ok (Site.interface_index_of [Site.vlan10B]) = true)
    by (vm_compute; reflexivity).
  assert (H4 : Forall (fun r => wf_route r = true)
                 [Site.route_vlan10; Site.route_ip]) by (repeat constructor).
  assert (H5 : Forall (fun i => wf_interface i = true)
                 [Site.port1A; Site.vlan20A]) by (repeat constructor).
  do 5 (split; [assumption|]).
  destruct (loops_write_in_listing_order (Site.controller true [] [])
              Site.envAB _ _ _ _ Site.w0 H1 H2 H3 H4 H5)
    as [(w' & cs & Hrun & Hc & HF) _].
  exists w', cs. split; [exact Hrun|]. split; [exact Hc|].
  apply Forall2_length in HF. rewrite <- HF. vm_compute. reflexivity.
Defined.
